(** * tstate-machine: the transition engine of [StateMachine]

    A shallow embedding of [src/StateMachine.ts] (class [StateMachine]) and
    [src/StateMachineInnerStore.ts] (class [StateMachineInnerStore]), and the
    properties of [transitTo] that the specification states; then further
    properties of the engine, of the queries, of the registration of
    callbacks and of [StateMachineStore], the registry of machine types,
    whose [StatesStore] is a parameter.

    Conventions of the embedding.
    - JavaScript values are the inductive type [value]; a plain object is a
      finite map from property names to values, so two values are equal
      exactly when they are deep-equal.  Numbers are integers; functions,
      arrays and objects of a class are [VOpaque]: truthy, and no plain
      object.
    - Two objects have an identity, an [ObjId]: the one [this.props] refers
      to and the one [$initialState] refers to.  When they are the same
      object, a write to the bag is a write to the snapshot ([set_props]).
      Below the top level no part is shared: [cloneDeep] and [merge] copy.
    - [merge] and the registry of state declarations are not among the
      sources; they are modelled from the specification.
    - A callback is a JavaScript function; its identity is a [CbId] and its
      body is given by a table [code : CbId -> list stmt] of the statements
      user callbacks run against the machine's public interface: calls of
      [transitTo], caught or not, [throw], writes to [props], and calls of
      [onEnter], [onLeave] and of the functions these return.  The arrays of
      callbacks are live: [forEach] visits the array by index as it is when
      each index is reached.
    - Methods are state transformers over a [World] (the machine instance,
      the console and a log of what each callback was given and saw); they
      return, throw or fail to terminate ([outcome]).  [transitTo] takes
      fuel for the walk up the parent states, which loops on a cyclic
      declaration, and for the calls callbacks make of [transitTo] itself;
      more fuel never changes an outcome ([transitTo_more_fuel]).
    - [this[name]] finds the members the subclass adds (its state fields),
      then the engine's own fields, accessors and methods, then the members
      of [Object.prototype] ([member]); the subclass is taken not to name a
      member of its own as a field or accessor of the engine.  The records of
      callbacks are object literals, whose lookups fall back on
      [Object.prototype]. *)

From stdpp Require Import gmap strings list fin_maps.
From Stdlib Require Import ZArith Lia.

#[local] Set Warnings "-register-all".
#[local] Open Scope string_scope.
#[local] Open Scope list_scope.

(** ** JavaScript values *)

Inductive value :=
| VUndefined
| VNull
| VBool (b : bool)
| VNum (n : Z)
| VStr (s : string)
| VObj (fields : gmap string value)
| VOpaque (what : string).   (* a function, an array, an object of a class *)

(** JavaScript truthiness: [!v] holds exactly when [truthy v = false]. *)
Definition truthy (v : value) : bool :=
  match v with
  | VUndefined | VNull | VBool false | VNum 0 | VStr EmptyString => false
  | _ => true
  end.

Definition isObject (v : value) : bool :=
  match v with VObj _ => true | _ => false end.

(** Reading a property that is absent gives [undefined]. *)
Definition read (o : option value) : value := default VUndefined o.

(** The identity of an object. *)
Definition ObjId := nat.

(** [cloneDeep] of the package clone-deep: a structural copy.  The copy of
    an object is a new object: [cloned r] is the identity of the copy made
    of the object [r], which no object had before. *)
Fixpoint cloneDeep (v : value) : value :=
  match v with
  | VObj fields => VObj (cloneDeep <$> fields)
  | _ => v
  end.

Definition cloned (r : ObjId) : ObjId := S r.

(** Modelled from the spec: [merge] of [src/utils/merge.ts], which is not
    among the sources.  "each merge step overwrites only the keys present in
    that overlay, deep-merging nested objects (a key present in a later
    overlay replaces the corresponding value entirely at that key path, but
    sibling keys from earlier overlays survive)".  [merge target source] is
    the content of [target] after the call [merge(target, source)]; a source
    that is not an object leaves the target as it is. *)
Fixpoint merge (target source : value) {struct source} : value :=
  match source with
  | VObj s =>
      match target with
      | VObj t =>
          VObj (map_imap (λ key sv,
                  Some (match t !! key with
                        | Some tv =>
                            if isObject tv && isObject sv then merge tv sv else sv
                        | None => sv
                        end)) s ∪ t)
      | _ => target
      end
  | _ => target
  end.

(** The value a key has after [merge]: what the source says when it has the
    key (deep-merged when both sides are objects). *)
Definition merge_field (tv : option value) (sv : value) : value :=
  match tv with
  | Some tv => if isObject tv && isObject sv then merge tv sv else sv
  | None => sv
  end.

(** [covers s p]: every key path of [p] is a key path of [s].  Merging [s]
    onto such a [p] leaves no trace of [p]. *)
Fixpoint covers (s : value) : value → bool :=
  match s with
  | VObj sf => λ p,
      match p with
      | VObj pf =>
          bool_decide (map_Forall (λ key pv,
            match (covers <$> sf) !! key with
            | Some covered_by_sv => covered_by_sv pv
            | None => false
            end = true) pf)
      | _ => true
      end
  | _ => λ _, true
  end.

(** Nesting depth of a value, the measure for induction on values. *)
Fixpoint depth (v : value) : nat :=
  match v with
  | VObj fields => S (map_fold (λ _ d acc, d `max` acc) 0 (depth <$> fields))
  | _ => 0
  end.

(** ** State declarations *)

(** Modelled from the spec: [StateMachineMetadata] of
    [src/StateMachineMetadata.ts], which is not among the sources.  A state
    declaration is "{ parentStateName: string, permittedNextStates: set of
    string }"; [getByName] "returns the declaration or an undefined/missing
    result if never declared". *)
Record StateMachineMetadata := {
  parentState : string;
  to : list string
}.

Definition getByName (registry : gmap string StateMachineMetadata)
  (stateName : string) : option StateMachineMetadata :=
  registry !! stateName.

Inductive TransitionError := InvalidTransition | StateNotRegistered.

Definition INITIAL : string := "initial".

(** ** Callbacks *)

Definition CbId := nat.

Inductive phase := Enter | Leave.

(** What the body of a user callback does with the machine it closes over. *)
Inductive stmt :=
| CallTransitTo (targetState : string) (args : list value)
    (* machine.transitTo(targetState, ...args), not inside a try *)
| TryTransitTo (targetState : string) (args : list value)
    (* try { machine.transitTo(targetState, ...args) } catch (e) { } *)
| Throw (msg : string)
    (* throw new Error(msg) *)
| SetProp (key : string) (v : value)
    (* machine.props[key] = v *)
| CallOnEnter (stateName : string) (cb : CbId)
    (* machine.onEnter(stateName, cb) *)
| CallOnLeave (stateName : string) (cb : CbId)
    (* machine.onLeave(stateName, cb) *)
| CallHandle (ph : phase) (stateName : string) (cb : CbId).
    (* drop(), for the function drop that machine.onEnter(stateName, cb)
       returned, or machine.onLeave(stateName, cb) in the phase Leave *)

Definition writes_props (s : stmt) : bool :=
  match s with SetProp _ _ => true | _ => false end.

(** Statements that register or remove a callback. *)
Definition registers (s : stmt) : bool :=
  match s with
  | CallOnEnter _ _ | CallOnLeave _ _ | CallHandle _ _ _ => true
  | _ => false
  end.

(** ** The per-instance store, [StateMachineInnerStore] *)

Record StateMachineInnerStore := {
  initialState : value;                    (* $initialState *)
  initialState_ref : option ObjId;         (* the object it refers to, if any *)
  currentState : string;
  onEnterCbs : gmap string (list CbId);
  onLeaveCbs : gmap string (list CbId)
}.

(** [new StateMachineInnerStore()] *)
Definition new_store : StateMachineInnerStore :=
  {| initialState := VUndefined; initialState_ref := None;
     currentState := "initial"; onEnterCbs := ∅; onLeaveCbs := ∅ |}.

(** ** The machine instance, [StateMachine] *)

Record StateMachine := {
  initialTransitions : list string;
  logging : bool;
  props : value;
  props_ref : ObjId;                             (* the object this.props refers to *)
  transitioning : bool;
  store : StateMachineInnerStore;                (* this.$store *)
  members : gmap string value;                   (* what the subclass adds: state fields *)
  metadata : gmap string StateMachineMetadata    (* declarations on the prototype *)
}.

(** One callback invocation, with what the callback could see when it was
    called. *)
Record invocation := {
  inv_phase : phase;
  inv_cb : CbId;
  inv_args : list value;
  inv_props : value;
  inv_state : string;
  inv_transitioning : bool
}.

Inductive exn :=
| RecursiveTransition   (* Error('Calling transitTo from an onEnter/onLeave callback is not supported') *)
| NoInitialTransitions  (* Error('opts.initialTransitions must contain at least one valid transition string') *)
| TypeError (msg : string)
| UserError (msg : string).

(** What a [transitTo] call made by a callback produced. *)
Inductive nested_result :=
| NestedReturned (ret : option TransitionError)
| NestedThrew (e : exn).

Record World := {
  machine : StateMachine;
  console : list string;          (* lines written with console.error *)
  calls : list invocation;        (* callback invocations so far *)
  nested : list nested_result     (* results of transitTo calls made by callbacks *)
}.

(** ** Effects *)

Inductive outcome (A : Type) :=
| Returned (a : A) (w : World)
| Thrown (e : exn) (w : World)
| Diverges.
Arguments Returned {A} a w.
Arguments Thrown {A} e w.
Arguments Diverges {A}.

Definition Eff (A : Type) : Type := World → outcome A.

Definition ret {A} (a : A) : Eff A := λ w, Returned a w.

Definition raise {A} (e : exn) : Eff A := λ w, Thrown e w.

Definition bind {A B} (c : Eff A) (k : A → Eff B) : Eff B :=
  λ w, match c w with
       | Returned a w' => k a w'
       | Thrown e w' => Thrown e w'
       | Diverges => Diverges
       end.

Notation "x <~ c ;; k" := (bind c (λ x, k))
  (at level 100, c at next level, right associativity).
Notation "c ;;; k" := (bind c (λ _, k))
  (at level 100, right associativity).

Definition update (f : World → World) : Eff unit := λ w, Returned tt (f w).

(** Code that only reads: it yields a value, throws or loops, and leaves
    the world as it is. *)
Inductive result (A : Type) :=
| Value (a : A)
| Raises (e : exn)
| Loops.
Arguments Value {A} a.
Arguments Raises {A} e.
Arguments Loops {A}.

Definition lift {A} (r : result A) : Eff A :=
  λ w, match r with
       | Value a => Returned a w
       | Raises e => Thrown e w
       | Loops => Diverges
       end.

Definition final_world {A} (o : outcome A) : option World :=
  match o with
  | Returned _ w | Thrown _ w => Some w
  | Diverges => None
  end.

(** ** Field updates *)

Definition set_machine (m : StateMachine) (w : World) : World :=
  {| machine := m; console := console w; calls := calls w; nested := nested w |}.

Definition set_store (s : StateMachineInnerStore) (m : StateMachine) : StateMachine :=
  {| initialTransitions := initialTransitions m; logging := logging m;
     props := props m; props_ref := props_ref m;
     transitioning := transitioning m; store := s;
     members := members m; metadata := metadata m |}.

Definition set_logging (b : bool) (m : StateMachine) : StateMachine :=
  {| initialTransitions := initialTransitions m; logging := b;
     props := props m; props_ref := props_ref m;
     transitioning := transitioning m; store := store m;
     members := members m; metadata := metadata m |}.

Definition set_transitioning (b : bool) (m : StateMachine) : StateMachine :=
  {| initialTransitions := initialTransitions m; logging := logging m;
     props := props m; props_ref := props_ref m;
     transitioning := b; store := store m;
     members := members m; metadata := metadata m |}.

Definition set_initialState (v : value) (s : StateMachineInnerStore) : StateMachineInnerStore :=
  {| initialState := v; initialState_ref := initialState_ref s;
     currentState := currentState s;
     onEnterCbs := onEnterCbs s; onLeaveCbs := onLeaveCbs s |}.

Definition set_currentState (name : string) (s : StateMachineInnerStore) : StateMachineInnerStore :=
  {| initialState := initialState s; initialState_ref := initialState_ref s;
     currentState := name;
     onEnterCbs := onEnterCbs s; onLeaveCbs := onLeaveCbs s |}.

Definition set_onEnterCbs (r : gmap string (list CbId)) (s : StateMachineInnerStore) : StateMachineInnerStore :=
  {| initialState := initialState s; initialState_ref := initialState_ref s;
     currentState := currentState s;
     onEnterCbs := r; onLeaveCbs := onLeaveCbs s |}.

Definition set_onLeaveCbs (r : gmap string (list CbId)) (s : StateMachineInnerStore) : StateMachineInnerStore :=
  {| initialState := initialState s; initialState_ref := initialState_ref s;
     currentState := currentState s;
     onEnterCbs := onEnterCbs s; onLeaveCbs := r |}.

(** Whether [$initialState] is the very object [this.props]. *)
Definition same_object (m : StateMachine) : bool :=
  bool_decide (initialState_ref (store m) = Some (props_ref m)).

(** The object [this.props] written in place, its content now [p]: who
    holds the same object sees the write. *)
Definition set_props (p : value) (m : StateMachine) : StateMachine :=
  {| initialTransitions := initialTransitions m; logging := logging m;
     props := p; props_ref := props_ref m;
     transitioning := transitioning m;
     store := if same_object m then set_initialState p (store m) else store m;
     members := members m; metadata := metadata m |}.

Definition log_call (i : invocation) (w : World) : World :=
  {| machine := machine w; console := console w;
     calls := calls w ++ [i]; nested := nested w |}.

Definition log_nested (r : nested_result) (w : World) : World :=
  {| machine := machine w; console := console w;
     calls := calls w; nested := nested w ++ [r] |}.

Definition set_flag (b : bool) (w : World) : World :=
  set_machine (set_transitioning b (machine w)) w.

Definition console_error (msg : string) (w : World) : World :=
  {| machine := machine w; console := console w ++ [msg];
     calls := calls w; nested := nested w |}.

(** ** [StateMachineInnerStore]: methods *)

Definition update_store (f : StateMachineInnerStore → StateMachineInnerStore)
  (w : World) : World :=
  set_machine (set_store (f (store (machine w))) (machine w)) w.

(** [rememberInitialState(props)]: [this.$initialState = cloneDeep(props)],
    for the object [props] of identity [r] and content [p]. *)
Definition rememberInitialState (p : value) (r : ObjId) (s : StateMachineInnerStore)
  : StateMachineInnerStore :=
  {| initialState := cloneDeep p; initialState_ref := Some (cloned r);
     currentState := currentState s;
     onEnterCbs := onEnterCbs s; onLeaveCbs := onLeaveCbs s |}.

(** [get isInitialState()] *)
Definition isInitialState (s : StateMachineInnerStore) : bool :=
  bool_decide (currentState s = "initial").

(** [onEnterCbs] and [onLeaveCbs] are object literals: a key they do not
    own is looked up on [Object.prototype]. *)
Definition Object_prototype_keys : list string :=
  [ "constructor"; "__defineGetter__"; "__defineSetter__"; "hasOwnProperty";
    "__lookupGetter__"; "__lookupSetter__"; "isPrototypeOf";
    "propertyIsEnumerable"; "toString"; "valueOf"; "__proto__";
    "toLocaleString" ].

Inductive slot :=
| Own (cbs : list CbId)   (* an array of callbacks put there by a registration *)
| Inherited               (* a member of Object.prototype: truthy, not an array *)
| Absent.                 (* undefined *)

Definition record_get (r : gmap string (list CbId)) (key : string) : slot :=
  match r !! key with
  | Some cbs => Own cbs
  | None => if bool_decide (key ∈ Object_prototype_keys) then Inherited else Absent
  end.

(** The function a registration returns: it closes over the array of the
    state it was registered for, and over the callback. *)
Inductive handle := Handle (ph : phase) (stateName : string) (cb : CbId).

(** [registerEnterCallback(stateName, cb)] *)
Definition registerEnterCallback (stateName : string) (cb : CbId) : Eff handle :=
  λ w,
    let r := onEnterCbs (store (machine w)) in
    match record_get r stateName with
    | Absent =>
        Returned (Handle Enter stateName cb)
          (update_store (set_onEnterCbs (<[stateName := [] ++ [cb]]> r)) w)
    | Own stateEnterCbs =>
        Returned (Handle Enter stateName cb)
          (update_store (set_onEnterCbs (<[stateName := stateEnterCbs ++ [cb]]> r)) w)
    | Inherited => Thrown (TypeError "stateEnterCbs.push is not a function") w
    end.

(** [registerLeaveCallback(stateName, cb)] *)
Definition registerLeaveCallback (stateName : string) (cb : CbId) : Eff handle :=
  λ w,
    let r := onLeaveCbs (store (machine w)) in
    match record_get r stateName with
    | Absent =>
        Returned (Handle Leave stateName cb)
          (update_store (set_onLeaveCbs (<[stateName := [] ++ [cb]]> r)) w)
    | Own stateLeaveCbs =>
        Returned (Handle Leave stateName cb)
          (update_store (set_onLeaveCbs (<[stateName := stateLeaveCbs ++ [cb]]> r)) w)
    | Inherited => Thrown (TypeError "stateLeaveCbs.push is not a function") w
    end.

(** [Array.prototype.indexOf]: the first index holding [cb], or -1. *)
Fixpoint indexOf_from (i : Z) (cbs : list CbId) (cb : CbId) : Z :=
  match cbs with
  | [] => (-1)%Z
  | x :: rest => if bool_decide (x = cb) then i else indexOf_from (i + 1)%Z rest cb
  end.

Definition indexOf (cbs : list CbId) (cb : CbId) : Z := indexOf_from 0%Z cbs cb.

(** The array after [cbs.splice(start, 1)]: a negative [start] counts from
    the end of the array. *)
Definition splice1 (cbs : list CbId) (start : Z) : list CbId :=
  let len := Z.of_nat (length cbs) in
  let from := if (start <? 0)%Z then Z.max (len + start) 0 else Z.min start len in
  take (Z.to_nat from) cbs ++ drop (S (Z.to_nat from)) cbs.

(** Calling a handle: [stateEnterCbs.splice(stateEnterCbs.indexOf(cb), 1)]
    on the array the handle closed over. *)
Definition drop_callback (h : handle) : Eff unit :=
  let 'Handle ph stateName cb := h in
  let unregister := alter (λ cbs, splice1 cbs (indexOf cbs cb)) stateName in
  match ph with
  | Enter => update (update_store (λ s, set_onEnterCbs (unregister (onEnterCbs s)) s))
  | Leave => update (update_store (λ s, set_onLeaveCbs (unregister (onLeaveCbs s)) s))
  end.

(** The callbacks a state has in a record, none when it has no array. *)
Definition registered (r : gmap string (list CbId)) (stateName : string) : list CbId :=
  default [] (r !! stateName).

(** ** Running callbacks *)

(** [machine.props[key] = v], in strict mode: a [TypeError] when [props]
    is not an object.  What is written to a function or an array is not
    kept. *)
Definition set_prop (key : string) (v : value) : Eff unit :=
  λ w,
    match props (machine w) with
    | VObj fields =>
        Returned tt (set_machine (set_props (VObj (<[key := v]> fields)) (machine w)) w)
    | VOpaque _ => Returned tt w
    | _ => Thrown (TypeError "Cannot create property on a value that is not an object") w
    end.

(** The log entry of a callback called with the machine as it is in [w]. *)
Definition seen (ph : phase) (args : list value) (w : World) (cb : CbId) : invocation :=
  {| inv_phase := ph; inv_cb := cb; inv_args := args;
     inv_props := props (machine w);
     inv_state := currentState (store (machine w));
     inv_transitioning := transitioning (machine w) |}.

Definition Method : Type := string → list value → Eff (option TransitionError).

(** The record of callbacks of a phase. *)
Definition callbacks (ph : phase) (w : World) : gmap string (list CbId) :=
  match ph with
  | Enter => onEnterCbs (store (machine w))
  | Leave => onLeaveCbs (store (machine w))
  end.

(** [Array.prototype.forEach] on the array of a state in a record: the
    indices [k], [k + 1], ... up to the length the array had when the
    iteration began ([n] of them are left), each read from the array as it
    is when the index is reached; an index the array has no more is passed
    over.  The array of a state is the same object from its first
    registration on, so what a callback registers or removes meanwhile is
    seen. *)
Fixpoint forEach (ph : phase) (stateName : string) (f : CbId → Eff unit) (k n : nat)
  : Eff unit :=
  match n with
  | 0 => ret tt
  | S n' =>
      λ w,
        match registered (callbacks ph w) stateName !! k with
        | Some cb => (f cb ;;; forEach ph stateName f (S k) n') w
        | None => forEach ph stateName f (S k) n' w
        end
  end.

Section Engine.

(** The bodies of the callback functions. *)
Variable code : CbId → list stmt.

(** The body of a callback, run with [self] for [machine.transitTo]. *)
Fixpoint exec (self : Method) (body : list stmt) : Eff unit :=
  match body with
  | [] => ret tt
  | CallOnEnter stateName cb :: rest =>
      registerEnterCallback stateName cb ;;; exec self rest
  | CallOnLeave stateName cb :: rest =>
      registerLeaveCallback stateName cb ;;; exec self rest
  | CallHandle ph stateName cb :: rest =>
      drop_callback (Handle ph stateName cb) ;;; exec self rest
  | CallTransitTo targetState args :: rest =>
      λ w, match self targetState args w with
           | Returned r w' => exec self rest (log_nested (NestedReturned r) w')
           | Thrown e w' => Thrown e (log_nested (NestedThrew e) w')
           | Diverges => Diverges
           end
  | TryTransitTo targetState args :: rest =>
      λ w, match self targetState args w with
           | Returned r w' => exec self rest (log_nested (NestedReturned r) w')
           | Thrown e w' => exec self rest (log_nested (NestedThrew e) w')
           | Diverges => Diverges
           end
  | Throw msg :: _ => raise (UserError msg)
  | SetProp key v :: rest => set_prop key v ;;; exec self rest
  end.

(** One call of a callback: the log records what it is given and sees. *)
Definition call (self : Method) (ph : phase) (args : list value) (cb : CbId) : Eff unit :=
  λ w, exec self (code cb) (log_call (seen ph args w cb) w).

(** [callEnterCbs(prevState, stateName, args)]: each callback is applied
    to [[prevState].concat(args || [])]. *)
Definition callEnterCbs (self : Method) (prevState stateName : string)
  (args : list value) : Eff unit :=
  λ w,
    match record_get (onEnterCbs (store (machine w))) stateName with
    | Absent => Returned tt w
    | Own cbs =>
        forEach Enter stateName (call self Enter ([VStr prevState] ++ args))
          0 (length cbs) w
    | Inherited => Thrown (TypeError "this.onEnterCbs[stateName].forEach is not a function") w
    end.

(** [callLeaveCbs(targetState)] *)
Definition callLeaveCbs (self : Method) (targetState : string) : Eff unit :=
  λ w,
    let stateName := currentState (store (machine w)) in
    match record_get (onLeaveCbs (store (machine w))) stateName with
    | Absent => Returned tt w
    | Own cbs =>
        forEach Leave stateName (call self Leave [VStr targetState]) 0 (length cbs) w
    | Inherited => Thrown (TypeError "this.onLeaveCbs[stateName].forEach is not a function") w
    end.

(** ** [StateMachine]: methods *)

(** [logError(msg)] *)
Definition report (msg : string) (w : World) : World :=
  if logging (machine w) then console_error msg w else w.

Definition logError (msg : string) : Eff unit := update (report msg).

Definition NEXT_STATE_RESTRICTED (currentState stateName : string) : string :=
  "Navigate to " +:+ stateName +:+ " restricted by 'to' argument of state " +:+ currentState.

Definition NOT_REGISTERED (targetState : string) : string :=
  "No state '" +:+ targetState +:+ "' for navigation registered".

(** [getMetadataByName(stateName)] *)
Definition getMetadataByName (this : StateMachine) (stateName : string) : option StateMachineMetadata :=
  getByName (metadata this) stateName.

(** Reading a property of what [getMetadataByName] returned: a [TypeError]
    when it returned [undefined]. *)
Definition property_of {A B} (o : option A) (k : A → result B) : result B :=
  match o with
  | Some a => k a
  | None => Raises (TypeError "Cannot read properties of undefined")
  end.

(** The methods of [StateMachine.prototype]. *)
Definition StateMachine_prototype_methods : list string :=
  [ "logError"; "getMetadataByName"; "transitTo"; "_transitTo";
    "rememberInitProps"; "onEnter"; "onLeave"; "is"; "can"; "transitions" ].

(** [this[name]], as [_transitTo] reads it: what the subclass adds, then
    the fields of the engine ([transitioning] is true while [_transitTo]
    runs), then the accessors and methods of [StateMachine.prototype], then
    the members of [Object.prototype].  [this.props] read as a state is the
    bag itself: merged into itself it changes nothing, like any value that
    is no plain object. *)
Definition member (this : StateMachine) (name : string) : value :=
  match members this !! name with
  | Some v => v
  | None =>
      if bool_decide (name = "props") then
        if isObject (props this) then VOpaque "Props" else props this
      else if bool_decide (name = "initialTransitions") then VOpaque "Array"
      else if bool_decide (name = "logging") then VBool (logging this)
      else if bool_decide (name = "transitioning") then VBool true
      else if bool_decide (name = "currentState") then VStr (currentState (store this))
      else if bool_decide (name ∈ ["$store"; "selfPrototype"]) then VOpaque "Object"
      else if bool_decide (name ∈ StateMachine_prototype_methods ++ Object_prototype_keys)
           then VOpaque "Function"
      else VUndefined
  end.
Arguments member : simpl never.

Definition includes (l : list string) (x : string) : bool := bool_decide (x ∈ l).

(** The loop [while (parentStateName !== 'initial') { stateChain.unshift(
    this[parentStateName]); parentStateName = getMetadataByName(
    parentStateName).parentState }]. *)
Fixpoint walk (fuel : nat) (this : StateMachine) (parentStateName : string)
  (stateChain : list value) : result (list value) :=
  if bool_decide (parentStateName = "initial") then Value stateChain
  else
    match fuel with
    | 0 => Loops
    | S fuel' =>
        property_of (getMetadataByName this parentStateName) (λ prevStateProps,
          walk fuel' this (parentState prevStateProps)
            (member this parentStateName :: stateChain))
    end.

(** The state to apply: [targetState !== 'initial' ? this[targetState] :
    this.$store.initialState]. *)
Definition stateToApply_of (this : StateMachine) (targetState : string) : value :=
  if bool_decide (targetState ≠ "initial") then member this targetState
  else initialState (store this).

(** "Check transition is possible". *)
Definition allowed (this : StateMachine) (targetState : string) : result bool :=
  if isInitialState (store this) then
    Value (includes (initialTransitions this) targetState)
  else
    property_of (getMetadataByName this (currentState (store this))) (λ currentStateProps,
      Value (includes (to currentStateProps) targetState)).

(** "Make chain of states". *)
Definition make_chain (fuel : nat) (this : StateMachine) (targetState : string)
  (stateToApply : value) : result (list value) :=
  if bool_decide (targetState ≠ "initial") then
    property_of (getMetadataByName this targetState) (λ targetStateProps,
      walk fuel this (parentState targetStateProps) [stateToApply])
  else Value [stateToApply].

(** "Apply states chain": [merge(this.props, this.$store.initialState)],
    then [merge(this.props, tempState)] for each state shifted off the
    chain. *)
Definition apply_chain (stateChain : list value) (w : World) : World :=
  let this := machine w in
  set_machine
    (set_props (fold_left merge stateChain (merge (props this) (initialState (store this)))) this) w.

(** [this.$store.currentState = targetState] *)
Definition advance (targetState : string) (w : World) : World :=
  update_store (set_currentState targetState) w.

(** [_transitTo(targetState, ...args)] *)
Definition _transitTo (fuel : nat) (self : Method) (targetState : string)
  (args : list value) : Eff (option TransitionError) :=
  λ w,
    let this := machine w in
    let stateToApply := stateToApply_of this targetState in
    if negb (truthy stateToApply) then
      (logError (NOT_REGISTERED targetState) ;;; ret (Some StateNotRegistered)) w
    else
      (ok <~ lift (allowed this targetState) ;;
       if negb ok then
         logError (NEXT_STATE_RESTRICTED (currentState (store this)) targetState) ;;;
         ret (Some InvalidTransition)
       else
         stateChain <~ lift (make_chain fuel this targetState stateToApply) ;;
         callLeaveCbs self targetState ;;;
         update (apply_chain stateChain) ;;;
         (λ w', let prevState := currentState (store (machine w')) in
                (update (advance targetState) ;;;
                 callEnterCbs self prevState targetState args ;;;
                 ret None) w')) w.

(** [transitTo(targetState, ...args)].  Callbacks reach the method itself
    through [self]; [fuel] bounds the depth of such calls and the length of
    the walk up the parent states. *)
Fixpoint transitTo (fuel : nat) (targetState : string) (args : list value)
  : Eff (option TransitionError) :=
  match fuel with
  | 0 => λ _, Diverges
  | S fuel' =>
      λ w,
        if transitioning (machine w) then Thrown RecursiveTransition w
        else
          match _transitTo fuel' (transitTo fuel') targetState args (set_flag true w) with
          | Returned r w' => Returned r (set_flag false w')
          | Thrown e w' => Thrown e w'
          | Diverges => Diverges
          end
  end.

(** [onEnter(stateName, cb)] and [onLeave(stateName, cb)] *)
Definition onEnter (stateName : string) (cb : CbId) : Eff handle :=
  registerEnterCallback stateName cb.

Definition onLeave (stateName : string) (cb : CbId) : Eff handle :=
  registerLeaveCallback stateName cb.

(** [is(stateName)], [can(stateName)], [transitions()] *)
Definition is_ (this : StateMachine) (stateName : string) : bool :=
  bool_decide (currentState (store this) = stateName).

Definition can (this : StateMachine) (stateName : string) : result bool :=
  allowed this stateName.

Definition transitions (this : StateMachine) : result (list string) :=
  if isInitialState (store this) then Value (initialTransitions this)
  else
    property_of (getMetadataByName this (currentState (store this))) (λ currentStateProps,
      Value (to currentStateProps)).

(** ** What user code does with a machine between transitions *)

Inductive op :=
| OpTransitTo (targetState : string) (args : list value)
| OpOnEnter (stateName : string) (cb : CbId)
| OpOnLeave (stateName : string) (cb : CbId)
| OpDrop (h : handle)
| OpSetProp (key : string) (v : value).

Definition discard {A} (c : Eff A) : Eff unit := c ;;; ret tt.

Definition run_op (fuel : nat) (o : op) : Eff unit :=
  match o with
  | OpTransitTo targetState args => discard (transitTo fuel targetState args)
  | OpOnEnter stateName cb => discard (onEnter stateName cb)
  | OpOnLeave stateName cb => discard (onLeave stateName cb)
  | OpDrop h => drop_callback h
  | OpSetProp key v => set_prop key v
  end.

(** The worlds user code can drive a machine to, an operation at a time;
    an exception an operation throws is caught by the caller. *)
Inductive reachable (w0 : World) : World → Prop :=
| reachable_start : reachable w0 w0
| reachable_step w fuel o w' :
    reachable w0 w → final_world (run_op fuel o w) = Some w' → reachable w0 w'.

End Engine.

(** ** Construction *)

(** The argument of the constructor; [logging] is optional. *)
Record Options := {
  opt_initialTransitions : list string;
  opt_props : value;
  opt_logging : option bool
}.

(** A subclass of [StateMachine]: its state fields, each with the
    declaration its [@StateMachine.extend(parentState, to)] decorator
    recorded. *)
Record MachineClass := {
  cls_fields : gmap string value;
  cls_declarations : gmap string StateMachineMetadata
}.

(** The object the caller passes as [opts.props]. *)
Definition passed : ObjId := 0.

(** [new Machine(opts)]: the constructor of [StateMachine], then the field
    initialisers of the subclass. *)
Definition new_StateMachine (cls : MachineClass) (opts : Options) : exn + StateMachine :=
  if bool_decide (length (opt_initialTransitions opts) = 0) then inl NoInitialTransitions
  else
    inr {| initialTransitions := opt_initialTransitions opts;
           logging := match opt_logging opts with None => false | Some _ => true end;
           props := opt_props opts;
           props_ref := passed;
           transitioning := false;
           store := rememberInitialState (opt_props opts) passed new_store;
           members := cls_fields cls;
           metadata := cls_declarations cls |}.

Definition new_world (m : StateMachine) : World :=
  {| machine := m; console := []; calls := []; nested := [] |}.

(** A run of user operations, each one completed before the next. *)
Fixpoint run_ops (code : CbId → list stmt) (fuel : nat) (ops : list op) (w : World)
  : option World :=
  match ops with
  | [] => Some w
  | o :: rest =>
      match final_world (run_op code fuel o w) with
      | Some w' => run_ops code fuel rest w'
      | None => None
      end
  end.

(** ** The statements of the specification *)

(** The names from the root of the [parentState] chain of a state down to
    the state itself. *)
Inductive lineage (registry : gmap string StateMachineMetadata) : string → list string → Prop :=
| lineage_root name d :
    registry !! name = Some d → parentState d = "initial" →
    lineage registry name [name]
| lineage_child name d names :
    registry !! name = Some d → parentState d ≠ "initial" →
    lineage registry (parentState d) names →
    lineage registry name (names ++ [name]).

(** "the initial snapshot overlaid, in order [...], with each state's
    declared overlay". *)
Definition overlaid (snapshot : value) (overlays : list value) : value :=
  fold_left merge overlays snapshot.

(** Callbacks that leave the property bag to the engine. *)
Definition read_only (code : CbId → list stmt) : Prop :=
  ∀ cb, forallb (λ s, negb (writes_props s)) (code cb) = true.

(** The world with another [logging] and another console, and an outcome
    with its world changed. *)
Definition relog (b : bool) (c : list string) (w : World) : World :=
  {| machine := set_logging b (machine w);
     console := c; calls := calls w; nested := nested w |}.

Definition map_world {A} (f : World → World) (o : outcome A) : outcome A :=
  match o with
  | Returned a w => Returned a (f w)
  | Thrown e w => Thrown e (f w)
  | Diverges => Diverges
  end.

(** The snapshot is an object of its own: not the one [this.props] is. *)
Definition separate (m : StateMachine) : Prop :=
  initialState_ref (store m) ≠ Some (props_ref m).

(** A machine whose snapshot is an object of its own, and whose bag and
    state fields have only key paths of the snapshot. *)
Record tidy (w : World) : Prop := {
  tidy_separate : separate (machine w);
  tidy_snapshot : isObject (initialState (store (machine w))) = true;
  tidy_props : isObject (props (machine w)) = true;
  tidy_bag : covers (initialState (store (machine w))) (props (machine w)) = true;
  tidy_fields :
    map_Forall (λ _ o, covers (initialState (store (machine w))) o = true)
      (members (machine w))
}.

(** The operations of user code that leave the property bag alone. *)
Definition op_reads (o : op) : bool :=
  match o with OpSetProp _ _ => false | _ => true end.

(** The log entry [i] is a call of [cb] in phase [ph], given [args], made
    in state [st] with the flag set. *)
Definition call_of (ph : phase) (args : list value) (st : string) (cb : CbId)
  (i : invocation) : Prop :=
  inv_phase i = ph ∧ inv_cb i = cb ∧ inv_args i = args ∧ inv_state i = st ∧
  inv_transitioning i = true.

(** [o'] is what [o] is with more fuel: the same, unless [o] ran out. *)
Definition settles {A} (o o' : outcome A) : Prop := o = Diverges ∨ o = o'.

(** What [self] does when the machine is in a transition. *)
Definition guarded (self : Method) : Prop :=
  ∀ targetState args w,
    transitioning (machine w) = true →
    self targetState args w = Diverges ∨
    self targetState args w = Thrown RecursiveTransition w.

(** The logs grow, by calls made with the flag set and by nested
    [transitTo] calls that threw the error of the guard. *)
Definition logs_extended (w w' : World) : Prop :=
  (∃ new, calls w' = calls w ++ new ∧
          Forall (λ i, inv_transitioning i = true) new) ∧
  (∃ new, nested w' = nested w ++ new ∧
          Forall (λ r, r = NestedThrew RecursiveTransition) new).

(** The parts of a machine that are set at construction: what the
    subclass adds, the declarations, the options, and which objects the bag
    and the snapshot are. *)
Record configured_alike (m m' : StateMachine) : Prop := {
  alike_members : members m' = members m;
  alike_metadata : metadata m' = metadata m;
  alike_initialTransitions : initialTransitions m' = initialTransitions m;
  alike_logging : logging m' = logging m;
  alike_props_ref : props_ref m' = props_ref m;
  alike_initialState_ref : initialState_ref (store m') = initialState_ref (store m)
}.

(** What a call of [transitTo] leaves as it was, however it ends: the
    configuration; and what it adds to the logs. *)
Record framed (w w' : World) : Prop := {
  framed_config : configured_alike (machine w) (machine w');
  framed_snapshot :
    separate (machine w) →
    initialState (store (machine w')) = initialState (store (machine w));
  framed_logs : logs_extended w w'
}.

(** Callbacks that leave the arrays of callbacks alone: they do not call
    [onEnter], [onLeave] or a function these returned. *)
Definition fixed_callbacks (code : CbId → list stmt) : Prop :=
  ∀ cb, forallb (λ s, negb (registers s)) (code cb) = true.

(** The callbacks of a list called in turn: what [forEach] comes to when
    no callback changes the array. *)
Fixpoint in_turn (f : CbId → Eff unit) (cbs : list CbId) : Eff unit :=
  match cbs with
  | [] => ret tt
  | cb :: rest => f cb ;;; in_turn f rest
  end.

(** No list of permitted states names the initial state. *)
Definition initial_unlisted (m : StateMachine) : Prop :=
  ("initial" ∉ initialTransitions m) ∧
  map_Forall (λ _ d, "initial" ∉ to d) (metadata m).

(** The property of a value under a key. *)
Definition field (key : string) (v : value) : option value :=
  match v with
  | VObj fields => fields !! key
  | _ => None
  end.

(** What callbacks leave behind while a transition is in flight: the
    machine as it was but for the property bag and the arrays of callbacks
    (and for the snapshot, when it is the object of the bag), the console
    as it was, and in the logs only calls made with the flag set and nested
    [transitTo] calls that threw the error of the guard. *)
Record undisturbed (w w' : World) : Prop := {
  und_config : configured_alike (machine w) (machine w');
  und_flag : transitioning (machine w') = transitioning (machine w);
  und_current : currentState (store (machine w')) = currentState (store (machine w));
  und_snapshot :
    separate (machine w) →
    initialState (store (machine w')) = initialState (store (machine w));
  und_console : console w' = console w;
  und_calls : ∃ new, calls w' = calls w ++ new ∧
                     Forall (λ i, inv_transitioning i = true) new;
  und_nested : ∃ new, nested w' = nested w ++ new ∧
                      Forall (λ r, r = NestedThrew RecursiveTransition) new
}.

(** The list of states a transition is checked against. *)
Definition permitted (this : StateMachine) : option (list string) :=
  if isInitialState (store this) then Some (initialTransitions this)
  else to <$> getMetadataByName this (currentState (store this)).

(** ** Machines of the examples and tests *)

Definition obj (l : list (string * value)) : value := VObj (list_to_map l).

Definition declare (parent : string) (next : list string) : StateMachineMetadata :=
  {| parentState := parent; to := next |}.

(** [TrafficLightStateMachine] of the README and of [example/traffic.ts]. *)
Definition TrafficLight : MachineClass :=
  {| cls_fields := list_to_map
       [ ("Red", obj [("message", VStr "STOP")]);
         ("Orange", obj [("message", VStr "CAUTION")]);
         ("Green", obj [("message", VStr "GO"); ("safe", VBool true)]) ];
     cls_declarations := list_to_map
       [ ("Red", declare "initial" ["Green"]);
         ("Orange", declare "initial" ["Green"; "Red"]);
         ("Green", declare "initial" ["Orange"]) ] |}.

Definition TrafficLight_opts (log : option bool) : Options :=
  {| opt_initialTransitions := ["Green"];
     opt_props := obj [("message", VStr "OFF"); ("safe", VBool false)];
     opt_logging := log |}.

(** [Machine] of [test/index.ts]. *)
Definition TestMachine : MachineClass :=
  {| cls_fields := list_to_map
       [ ("mainState", obj []);
         ("requestState", obj [("text", VStr "request")]);
         ("doneState", obj [("text", VStr "done"); ("alert", obj [("visible", VBool true)])]);
         ("successState", obj [("alert", obj [("text", VStr "success")])]);
         ("errorState", obj [("alert", obj [("text", VStr "error")])]) ];
     cls_declarations := list_to_map
       [ ("mainState", declare "initial" ["requestState"]);
         ("requestState", declare "mainState" ["successState"; "errorState"]);
         ("doneState", declare "mainState" []);
         ("successState", declare "doneState" ["mainState"]);
         ("errorState", declare "doneState" ["mainState"]) ] |}.

Definition TestMachine_opts : Options :=
  {| opt_initialTransitions := ["mainState"];
     opt_props := obj [("text", VStr "do");
                       ("alert", obj [("text", VStr "alert"); ("visible", VBool false)])];
     opt_logging := None |}.

(** A machine with a property that only one of its states sets:
    [Props = { a: number; b?: number }]. *)
Definition Optional : MachineClass :=
  {| cls_fields := list_to_map
       [ ("A", obj [("b", VNum 2)]); ("B", obj []) ];
     cls_declarations := list_to_map
       [ ("A", declare "initial" ["B"]); ("B", declare "initial" ["A"]) ] |}.

Definition Optional_opts : Options :=
  {| opt_initialTransitions := ["A"];
     opt_props := obj [("a", VNum 1)];
     opt_logging := None |}.

(** A machine whose state lists ['initial'] among its next states. *)
Definition Resettable : MachineClass :=
  {| cls_fields := list_to_map [ ("On", obj [("lit", VBool true)]) ];
     cls_declarations := list_to_map [ ("On", declare "initial" ["initial"]) ] |}.

Definition Resettable_opts : Options :=
  {| opt_initialTransitions := ["On"];
     opt_props := obj [("lit", VBool false)];
     opt_logging := None |}.

Definition machine_of (cls : MachineClass) (opts : Options) : StateMachine :=
  match new_StateMachine cls opts with
  | inr m => m
  | inl _ => {| initialTransitions := []; logging := false; props := VUndefined;
                props_ref := passed; transitioning := false; store := new_store;
                members := ∅; metadata := ∅ |}
  end.

(** Callbacks of the tests: 0 only looks; 1 is the callback of "should fail
    when trying to trigger transition from onEnter callback"; 2 throws; 3
    calls [transitTo] outside a try; 4 writes a property. *)
Definition test_code (cb : CbId) : list stmt :=
  match cb with
  | 1 => [TryTransitTo "successState" []]
  | 2 => [Throw "boom"]
  | 3 => [CallTransitTo "requestState" []]
  | 4 => [SetProp "text" (VStr "written")]
  | _ => []
  end.

Definition no_code (cb : CbId) : list stmt := [].

(** Callbacks that only look at the machine; 1 tries a transition. *)
Definition watch_code (cb : CbId) : list stmt :=
  match cb with
  | 1 => [TryTransitTo "successState" []]
  | _ => []
  end.

(** The world a run of operations ends in. *)
Definition run (code : CbId → list stmt) (ops : list op) (w : World) : World :=
  default w (run_ops code 4 ops w).

Definition test_new : World := new_world (machine_of TestMachine TestMachine_opts).

Definition test_hooked : World :=
  run watch_code [OpOnLeave "initial" 0; OpOnEnter "mainState" 1; OpOnEnter "mainState" 0]
    test_new.

Definition test_main : World :=
  run watch_code [OpTransitTo "mainState" [VNum 2]] test_hooked.

Definition test_request : World :=
  run watch_code [OpTransitTo "requestState" []] test_main.

Definition test_success : World :=
  run watch_code [OpTransitTo "successState" []] test_request.

Definition optional_new : World := new_world (machine_of Optional Optional_opts).

Definition optional_A : World := run no_code [OpTransitTo "A" []] optional_new.

Definition optional_B : World := run no_code [OpTransitTo "B" []] optional_A.

(** The other phase, and [onEnter] or [onLeave] by phase. *)
Definition other (ph : phase) : phase :=
  match ph with Enter => Leave | Leave => Enter end.

Definition register (ph : phase) (stateName : string) (cb : CbId) : Eff handle :=
  match ph with
  | Enter => onEnter stateName cb
  | Leave => onLeave stateName cb
  end.

(** Registering callbacks one after the other, keeping the handles. *)
Fixpoint register_all (ph : phase) (stateName : string) (cbs : list CbId) (w : World)
  : list handle * World :=
  match cbs with
  | [] => ([], w)
  | cb :: rest =>
      match register ph stateName cb w with
      | Returned h w1 =>
          let '(hs, w2) := register_all ph stateName rest w1 in (h :: hs, w2)
      | _ => ([], w)
      end
  end.



Definition twice_hooked : list handle * World :=
  register_all Enter "mainState" [0; 1; 0] test_new.

Definition resettable_new : World := new_world (machine_of Resettable Resettable_opts).

Definition resettable_on : World := run no_code [OpTransitTo "On" []] resettable_new.

Definition traffic_new : World := new_world (machine_of TrafficLight (TrafficLight_opts None)).

Definition traffic_green : World := run no_code [OpTransitTo "Green" []] traffic_new.

Definition traffic_orange : World := run no_code [OpTransitTo "Orange" []] traffic_green.

Definition traffic_red : World := run no_code [OpTransitTo "Red" []] traffic_orange.

(** ** The claims of the specification that the code does not meet *)

(** "no call transitTo("initial") succeeds". *)
Definition initial_claim : Prop :=
  ∀ code cls opts m w fuel args w',
    new_StateMachine cls opts = inr m →
    reachable code (new_world m) w →
    transitTo code fuel "initial" args w ≠ Returned None w'.

(** "invoking the deregistration handle returned by a callback registration
    removes exactly that registered callback instance and no other": of the
    callbacks registered for a state, the handle of the [i]-th registration
    removes the [i]-th. *)
Definition deregistration_claim : Prop :=
  ∀ ph stateName cbs w hs w1 i h w',
    registered (callbacks ph w) stateName = [] →
    register_all ph stateName cbs w = (hs, w1) →
    hs !! i = Some h →
    drop_callback h w1 = Returned tt w' →
    registered (callbacks ph w') stateName
    = delete i (registered (callbacks ph w1) stateName).

(** The scenario of the traffic light, as the specification tells it. *)
Definition traffic_claim : Prop :=
  ∃ fuel w1 w2 w3,
    transitTo no_code fuel "Green" [] traffic_new = Returned None w1 ∧
    props (machine w1) = obj [("message", VStr "GO"); ("safe", VBool true)] ∧
    transitTo no_code fuel "Orange" [] w1 = Returned None w2 ∧
    props (machine w2) = obj [("message", VStr "CAUTION"); ("safe", VBool false)] ∧
    transitTo no_code fuel "Red" [] w2 = Returned (Some InvalidTransition) w3 ∧
    props (machine w3) = obj [("message", VStr "CAUTION"); ("safe", VBool false)].

(** "the live property bag equals the initial snapshot overlaid, in order
    from the root of the target's parentStateName chain down to targetState
    itself, with each state's declared overlay". *)
Definition overlay_claim : Prop :=
  ∀ code cls opts m w fuel targetState args w' names,
    read_only code →
    new_StateMachine cls opts = inr m →
    reachable code (new_world m) w →
    transitTo code fuel targetState args w = Returned None w' →
    lineage (metadata (machine w)) targetState names →
    currentState (store (machine w')) = targetState ∧
    props (machine w') =
      overlaid (initialState (store (machine w))) (map (member (machine w)) names).

(** ** The registry of machine types, [StateMachineStore] *)

(** A machine type is its constructor. *)
Definition Ctor := nat.

Section Registry.

(** [StatesStore] of [./StatesStore], which is not among the sources: its
    constructor, [addState] and [getState] are parameters. *)
Variable StatesStore : Type.
Variable new_StatesStore : StatesStore.
Variable addState : string → string → string + list string → StatesStore → StatesStore.
Variable IStateMetadata : Type.
Variable StatesStore_getState : string → StatesStore → IStateMetadata.

(** [StateMachineStore.defineState(target, stateName, parentState, to)], on
    the map [statesByMachineStore]. *)
Definition defineState (target : Ctor) (stateName parentState : string)
  (to : string + list string) (statesByMachineStore : gmap Ctor StatesStore)
  : gmap Ctor StatesStore :=
  let store1 :=
    match statesByMachineStore !! target with
    | None => <[target := new_StatesStore]> statesByMachineStore
    | Some _ => statesByMachineStore
    end in
  alter (addState stateName parentState to) target store1.

(** [StateMachineStore.getState(target, stateName)]: the store of the
    target is taken to be there ([get(target)!]). *)
Definition getState (target : Ctor) (stateName : string)
  (statesByMachineStore : gmap Ctor StatesStore) : result IStateMetadata :=
  match statesByMachineStore !! target with
  | Some metadata => Value (StatesStore_getState stateName metadata)
  | None => Raises (TypeError "Cannot read properties of undefined")
  end.

(** One decorated state field: the class it is on, its name, and the
    arguments of the decorator. *)
Record declaration := {
  decl_target : Ctor;
  decl_stateName : string;
  decl_parentState : string;
  decl_to : string + list string
}.

(** The map after the declarations of a program, in the order they run. *)
Definition defineStates (decls : list declaration)
  (statesByMachineStore : gmap Ctor StatesStore) : gmap Ctor StatesStore :=
  foldl (λ m d, defineState (decl_target d) (decl_stateName d) (decl_parentState d)
                  (decl_to d) m)
    statesByMachineStore decls.

(** The store of one class: its own declarations, in order. *)
Definition states_of (target : Ctor) (decls : list declaration) : StatesStore :=
  foldl (λ st d, addState (decl_stateName d) (decl_parentState d) (decl_to d) st)
    new_StatesStore (filter (λ d, decl_target d = target) decls).

End Registry.

(** ** Further statements about the engine *)

(** A set of state names closed under [parentState] that does not hold the
    initial state: from a state of the set the walk up the parents never
    ends. *)
Definition rootless (registry : gmap string StateMachineMetadata)
  (names : string → Prop) : Prop :=
  ∀ name, names name →
    name ≠ "initial" ∧
    ∃ d, registry !! name = Some d ∧ names (parentState d).

(** A state whose walk up the parents meets a name without a declaration
    before it meets the initial state. *)
Inductive dangling (registry : gmap string StateMachineMetadata) : string → Prop :=
| dangling_here name :
    name ≠ "initial" → registry !! name = None → dangling registry name
| dangling_up name d :
    name ≠ "initial" → registry !! name = Some d →
    dangling registry (parentState d) → dangling registry name.

(** Statements that do not throw on a machine whose bag is an object:
    transitions tried inside a try, and writes to the bag. *)
Definition quiet (s : stmt) : bool :=
  match s with TryTransitTo _ _ | SetProp _ _ => true | _ => false end.

(** Callbacks that leave the bag alone; 2 throws. *)
Definition throwing_code (cb : CbId) : list stmt :=
  match cb with
  | 2 => [Throw "boom"]
  | _ => []
  end.

(** No array of callbacks sits under a name of [Object.prototype]. *)
Definition unshadowed (w : World) : Prop :=
  ∀ ph name, name ∈ Object_prototype_keys → callbacks ph w !! name = None.

(** The current state is the initial state or a declared one. *)
Definition current_declared (m : StateMachine) : Prop :=
  currentState (store m) = "initial" ∨ is_Some (metadata m !! currentState (store m)).

(** A state that is its own parent. *)
Definition Cyclic : MachineClass :=
  {| cls_fields := list_to_map [ ("Loop", obj [("n", VNum 1)]) ];
     cls_declarations := list_to_map [ ("Loop", declare "Loop" []) ] |}.

Definition Cyclic_opts : Options :=
  {| opt_initialTransitions := ["Loop"];
     opt_props := obj [("n", VNum 0)];
     opt_logging := None |}.

Definition cyclic_new : World := new_world (machine_of Cyclic Cyclic_opts).

(** A state field without a declaration, and a state whose parent has
    none. *)
Definition Undeclared : MachineClass :=
  {| cls_fields := list_to_map
       [ ("Ghost", obj [("n", VNum 1)]); ("Orphan", obj [("n", VNum 2)]) ];
     cls_declarations := list_to_map [ ("Orphan", declare "Nowhere" []) ] |}.

Definition Undeclared_opts : Options :=
  {| opt_initialTransitions := ["Ghost"; "Orphan"];
     opt_props := obj [("n", VNum 0)];
     opt_logging := None |}.

Definition undeclared_new : World := new_world (machine_of Undeclared Undeclared_opts).

(** A state named as a method of [Object.prototype]. *)
Definition Shadowed : MachineClass :=
  {| cls_fields := list_to_map [ ("valueOf", obj [("n", VNum 1)]) ];
     cls_declarations := list_to_map [ ("valueOf", declare "initial" []) ] |}.

Definition Shadowed_opts : Options :=
  {| opt_initialTransitions := ["valueOf"];
     opt_props := obj [("n", VNum 0)];
     opt_logging := None |}.

Definition shadowed_new : World := new_world (machine_of Shadowed Shadowed_opts).

Definition shadowed_thrown : World :=
  run no_code [OpTransitTo "valueOf" []] shadowed_new.

(** A handle used once: callback 0 is gone, callback 1 is left. *)
Definition stale_world : World :=
  run no_code [OpOnEnter "mainState" 0; OpOnEnter "mainState" 1;
               OpDrop (Handle Enter "mainState" 0)] test_new.

(** The test machine with an enter callback of [mainState] that throws. *)
Definition throw_hooked : World :=
  run throwing_code [OpOnLeave "initial" 0; OpOnEnter "mainState" 2;
                     OpOnEnter "mainState" 0] test_new.

Definition throw_thrown : World :=
  run throwing_code [OpTransitTo "mainState" []] throw_hooked.

(** Callbacks that call a handle: 5 calls the handle of its own
    registration as an enter callback of [mainState], as a handler meant to
    run once does; 6 calls the handle of callback 0. *)
Definition once_code (cb : CbId) : list stmt :=
  match cb with
  | 5 => [CallHandle Enter "mainState" 5]
  | 6 => [CallHandle Enter "mainState" 0]
  | _ => []
  end.

(** The test machine with the enter callbacks 5 and 0 of [mainState],
    registered in this order, and what entering [mainState] leaves. *)
Definition once_hooked : World :=
  run once_code [OpOnEnter "mainState" 5; OpOnEnter "mainState" 0] test_new.

Definition once_entered : World :=
  run once_code [OpTransitTo "mainState" []] once_hooked.

(** The test machine with the enter callbacks 0, 6, 2 and 3 of [mainState],
    and what entering [mainState] leaves. *)
Definition dropping_hooked : World :=
  run once_code [OpOnEnter "mainState" 0; OpOnEnter "mainState" 6;
                 OpOnEnter "mainState" 2; OpOnEnter "mainState" 3] test_new.

Definition dropping_entered : World :=
  run once_code [OpTransitTo "mainState" []] dropping_hooked.

(** A machine whose snapshot is the very object [this.props], as
    [rememberInitialState] would leave it without [cloneDeep]. *)
Definition uncopied (m : StateMachine) : StateMachine :=
  {| initialTransitions := initialTransitions m; logging := logging m;
     props := props m; props_ref := props_ref m; transitioning := transitioning m;
     store := {| initialState := props m; initialState_ref := Some (props_ref m);
                 currentState := currentState (store m);
                 onEnterCbs := onEnterCbs (store m);
                 onLeaveCbs := onLeaveCbs (store m) |};
     members := members m; metadata := metadata m |}.

Definition uncopied_new : World :=
  new_world (uncopied (machine_of TrafficLight (TrafficLight_opts None))).

Definition uncopied_green : World := run no_code [OpTransitTo "Green" []] uncopied_new.

(** The test machine with a method of [Object.prototype] among its initial
    transitions. *)
Definition Listed_opts : Options :=
  {| opt_initialTransitions := ["mainState"; "toString"];
     opt_props := opt_props TestMachine_opts;
     opt_logging := None |}.

Definition listed_new : World := new_world (machine_of TestMachine Listed_opts).

(** Two classes declared in turn, with a store of declarations kept as the
    list of what was added. *)
Definition two_classes : list declaration :=
  [ {| decl_target := 1; decl_stateName := "A"; decl_parentState := "initial";
       decl_to := inr ["B"] |};
    {| decl_target := 2; decl_stateName := "A"; decl_parentState := "initial";
       decl_to := inl "C" |};
    {| decl_target := 1; decl_stateName := "B"; decl_parentState := "A";
       decl_to := inr [] |} ].

Definition list_addState (stateName parentState : string) (to : string + list string)
  (st : list (string * string)) : list (string * string) :=
  st ++ [(stateName, parentState)].

Definition list_getState (stateName : string) (st : list (string * string))
  : option string :=
  (λ found, snd (snd found)) <$> list_find (λ e, fst e = stateName) st.

(** * Properties *)

(** ** Values and [merge] *)

Lemma map_fold_max_ge (m : gmap string nat) (key : string) (d : nat) :
  m !! key = Some d → (d ≤ map_fold (λ _ d acc, d `max` acc) 0 m)%nat.
Proof.
  revert key d.
  induction m as [|i x m Hi Hfirst IH] using map_first_key_ind; intros key d.
  - by rewrite lookup_empty.
  - rewrite map_fold_insert_first_key by done.
    destruct (decide (i = key)) as [->|Hne].
    + rewrite lookup_insert_eq. intros [= ->]. lia.
    + rewrite lookup_insert_ne by done. intros Hd. apply IH in Hd. lia.
Qed.

Lemma depth_field (fields : gmap string value) (key : string) (v : value) :
  fields !! key = Some v → (depth v < depth (VObj fields))%nat.
Proof.
  intros Hv. simpl. apply Nat.lt_succ_r.
  apply (map_fold_max_ge _ key). by rewrite lookup_fmap, Hv.
Qed.

(** Induction on values: an object has a property when all its fields do. *)
Lemma value_induction (P : value → Prop) :
  P VUndefined → P VNull → (∀ b, P (VBool b)) → (∀ n, P (VNum n)) →
  (∀ s, P (VStr s)) →
  (∀ fields, (∀ key v, fields !! key = Some v → P v) → P (VObj fields)) →
  (∀ what, P (VOpaque what)) →
  ∀ v, P v.
Proof.
  intros Hu Hn Hb Hz Hs Ho Hq v.
  remember (depth v) as d eqn:Hd. revert v Hd.
  induction d as [d IH] using lt_wf_ind. intros v ->.
  destruct v; auto.
  apply Ho. intros key v Hv. eapply IH; [|reflexivity].
  by eapply depth_field.
Qed.

Lemma cloneDeep_id (v : value) : cloneDeep v = v.
Proof.
  induction v as [| | | | |fields IH|] using value_induction; try reflexivity.
  simpl. f_equal. apply map_eq. intros key. rewrite lookup_fmap.
  destruct (fields !! key) as [v|] eqn:Hv; simpl; [|done].
  f_equal. by eapply IH.
Qed.

(** [merge] key by key. *)
Lemma merge_obj (t s : gmap string value) :
  ∃ r, merge (VObj t) (VObj s) = VObj r ∧
       ∀ key, r !! key = match s !! key with
                         | Some sv => Some (merge_field (t !! key) sv)
                         | None => t !! key
                         end.
Proof.
  eexists. split; [reflexivity|]. intros key.
  rewrite lookup_union, map_lookup_imap.
  destruct (s !! key) as [sv|] eqn:Hs; simpl.
  - unfold merge_field. by destruct (t !! key).
  - by destruct (t !! key).
Qed.

Lemma covers_obj (sf pf : gmap string value) :
  covers (VObj sf) (VObj pf) = true ↔
  ∀ key pv, pf !! key = Some pv → ∃ sv, sf !! key = Some sv ∧ covers sv pv = true.
Proof.
  simpl. rewrite bool_decide_eq_true. unfold map_Forall.
  split; intros H key pv Hpv; specialize (H key pv Hpv).
  - rewrite lookup_fmap in H. destruct (sf !! key) as [sv|]; simpl in H; [|done].
    by exists sv.
  - destruct H as (sv & Hsv & Hc). by rewrite lookup_fmap, Hsv.
Qed.

Lemma merge_field_covered (sv tv : value) :
  (∀ p, isObject sv = true → isObject p = true → covers sv p = true → merge p sv = sv) →
  covers sv tv = true → merge_field (Some tv) sv = sv.
Proof.
  intros IH Hc. unfold merge_field.
  destruct (isObject tv) eqn:Ht, (isObject sv) eqn:Hs; simpl; auto.
Qed.

(** Merging a snapshot onto a bag it covers gives the snapshot. *)
Lemma merge_covered (s p : value) :
  isObject s = true → isObject p = true → covers s p = true → merge p s = s.
Proof.
  revert p. induction s as [| | | | |sf IH|] using value_induction; try done.
  intros [| | | | |pf|]; try done. intros _ _ Hc.
  destruct (merge_obj pf sf) as (r & -> & Hr). f_equal.
  apply map_eq. intros key. rewrite Hr.
  rewrite covers_obj in Hc.
  destruct (sf !! key) as [sv|] eqn:Hsv.
  - f_equal. destruct (pf !! key) as [pv|] eqn:Hpv; [|done].
    destruct (Hc key pv Hpv) as (sv' & Hsv' & Hcov).
    assert (sv' = sv) as -> by congruence.
    apply merge_field_covered; [|done]. intros p. by eapply IH.
  - destruct (pf !! key) as [pv|] eqn:Hpv; [|done].
    destruct (Hc key pv Hpv) as (sv' & Hsv' & _). congruence.
Qed.

Lemma covers_refl (s : value) : covers s s = true.
Proof.
  induction s as [| | | | |sf IH|] using value_induction; try done.
  apply covers_obj. intros key v Hv. exists v. split; [done|]. by eapply IH.
Qed.

(** Merging an overlay the snapshot covers keeps the bag covered. *)
Lemma covers_merge (s p o : value) :
  covers s p = true → covers s o = true → covers s (merge p o) = true.
Proof.
  revert p o. induction s as [| | | | |sf IH|] using value_induction; try done.
  intros p o Hp Ho.
  destruct o as [| | | | |src|]; try done.
  destruct p as [| | | | |pf|]; try done.
  destruct (merge_obj pf src) as (r & -> & Hr).
  rewrite covers_obj in Hp, Ho. apply covers_obj. intros key rv Hrv.
  rewrite Hr in Hrv. destruct (src !! key) as [ov|] eqn:Hov.
  - injection Hrv as <-. destruct (Ho key ov Hov) as (sv & Hsv & Hcov).
    exists sv. split; [done|]. unfold merge_field.
    destruct (pf !! key) as [pv|] eqn:Hpv; [|done].
    destruct (isObject pv && isObject ov); [|done].
    destruct (Hp key pv Hpv) as (sv' & Hsv' & Hcov').
    assert (sv' = sv) as -> by congruence. by eapply IH.
  - by apply Hp.
Qed.

Lemma isObject_merge (t s : value) : isObject (merge t s) = isObject t.
Proof. by destruct s, t. Qed.

Lemma field_merge (key : string) (t s : value) :
  isObject t = true →
  field key (merge t s) = match field key s with
                          | Some sv => Some (merge_field (field key t) sv)
                          | None => field key t
                          end.
Proof.
  destruct t as [| | | | |tf|]; try done. intros _.
  destruct s as [| | | | |sf|]; try done.
  destruct (merge_obj tf sf) as (r & -> & Hr). simpl. apply Hr.
Qed.

Lemma merge_field_scalar (tv : option value) (sv : value) :
  isObject sv = false → merge_field tv sv = sv.
Proof.
  intros Hsv. unfold merge_field. destruct tv as [tv|]; [|done].
  by rewrite Hsv, andb_false_r.
Qed.

Lemma isObject_overlaid (base : value) (overlays : list value) :
  isObject (overlaid base overlays) = isObject base.
Proof.
  unfold overlaid. revert base.
  induction overlays as [|o overlays IH]; intros base; simpl; [done|].
  by rewrite IH, isObject_merge.
Qed.

Lemma covers_overlaid (s base : value) (overlays : list value) :
  covers s base = true → Forall (λ o, covers s o = true) overlays →
  covers s (overlaid base overlays) = true.
Proof.
  unfold overlaid. revert base.
  induction overlays as [|o overlays IH]; intros base Hbase Hall; simpl; [done|].
  inversion Hall as [|? ? Ho Hrest]; subst.
  apply IH; [by apply covers_merge|done].
Qed.

(** A key that no overlay has keeps the value of the base. *)
Lemma field_overlaid_untouched (key : string) (base : value) (overlays : list value) :
  isObject base = true →
  Forall (λ o, field key o = None) overlays →
  field key (overlaid base overlays) = field key base.
Proof.
  unfold overlaid. revert base.
  induction overlays as [|o overlays IH]; intros base Hbase Hnone; simpl; [done|].
  inversion Hnone as [|? ? Ho Hrest]; subst.
  rewrite IH; [|by rewrite isObject_merge|done].
  by rewrite field_merge, Ho.
Qed.

(** The last overlay wins. *)
Lemma field_overlaid_last (key : string) (base o v : value) (overlays : list value) :
  isObject base = true →
  last overlays = Some o → field key o = Some v →
  field key (overlaid base overlays) = Some (merge_field
    (field key (overlaid base (removelast overlays))) v).
Proof.
  intros Hbase Hlast Hv.
  apply last_Some in Hlast as [front ->].
  rewrite removelast_last. unfold overlaid at 1. rewrite fold_left_app. simpl.
  fold (overlaid base front).
  by rewrite field_merge, Hv by (by rewrite isObject_overlaid).
Qed.

(** ** The engine *)

(** *** Writes to the bag *)

Lemma same_object_separate (m : StateMachine) : same_object m = false ↔ separate m.
Proof. unfold same_object, separate. by rewrite bool_decide_eq_false. Qed.

Lemma store_set_props (p : value) (m : StateMachine) :
  store (set_props p m)
  = if same_object m then set_initialState p (store m) else store m.
Proof. reflexivity. Qed.

Lemma currentState_set_props (p : value) (m : StateMachine) :
  currentState (store (set_props p m)) = currentState (store m).
Proof. rewrite store_set_props. by destruct (same_object m). Qed.

Lemma onEnterCbs_set_props (p : value) (m : StateMachine) :
  onEnterCbs (store (set_props p m)) = onEnterCbs (store m).
Proof. rewrite store_set_props. by destruct (same_object m). Qed.

Lemma onLeaveCbs_set_props (p : value) (m : StateMachine) :
  onLeaveCbs (store (set_props p m)) = onLeaveCbs (store m).
Proof. rewrite store_set_props. by destruct (same_object m). Qed.

Lemma initialState_ref_set_props (p : value) (m : StateMachine) :
  initialState_ref (store (set_props p m)) = initialState_ref (store m).
Proof. rewrite store_set_props. by destruct (same_object m). Qed.

Lemma initialState_set_props (p : value) (m : StateMachine) :
  separate m → initialState (store (set_props p m)) = initialState (store m).
Proof.
  intros Hsep. rewrite store_set_props.
  by rewrite (proj2 (same_object_separate m) Hsep).
Qed.

Lemma set_props_same (m : StateMachine) :
  (same_object m = true → initialState (store m) = props m) →
  set_props (props m) m = m.
Proof.
  intros Hwf. unfold set_props. destruct (same_object m) eqn:Hsame.
  - specialize (Hwf eq_refl). destruct m as [? ? ? ? ? [] ? ?]. simpl in *. by subst.
  - by destruct m.
Qed.

Lemma configured_alike_refl (m : StateMachine) : configured_alike m m.
Proof. by split. Qed.

Lemma configured_alike_trans (m1 m2 m3 : StateMachine) :
  configured_alike m1 m2 → configured_alike m2 m3 → configured_alike m1 m3.
Proof. intros [] []. split; congruence. Qed.

Lemma configured_alike_props (p : value) (m : StateMachine) :
  configured_alike m (set_props p m).
Proof. split; try reflexivity. apply initialState_ref_set_props. Qed.

Lemma configured_alike_separate (m m' : StateMachine) :
  configured_alike m m' → separate m → separate m'.
Proof. intros [_ _ _ _ Hp Hs]. unfold separate. by rewrite Hp, Hs. Qed.

Lemma configured_alike_same_object (m m' : StateMachine) :
  configured_alike m m' → same_object m' = same_object m.
Proof. intros [_ _ _ _ Hp Hs]. unfold same_object. by rewrite Hp, Hs. Qed.

(** *** Callbacks of any kind *)

Section EngineProperties.

Variable code : CbId → list stmt.

(** A step that changes the logs only. *)
Lemma undisturbed_logs (w w' : World) :
  machine w' = machine w → console w' = console w →
  (∃ new, calls w' = calls w ++ new ∧ Forall (λ i, inv_transitioning i = true) new) →
  (∃ new, nested w' = nested w ++ new ∧
          Forall (λ r, r = NestedThrew RecursiveTransition) new) →
  undisturbed w w'.
Proof.
  intros Hm Hc Hcalls Hnested.
  split; rewrite ?Hm; done.
Qed.

Lemma undisturbed_refl (w : World) : undisturbed w w.
Proof. apply undisturbed_logs; try done; exists []; by rewrite app_nil_r. Qed.

Lemma undisturbed_trans (w1 w2 w3 : World) :
  undisturbed w1 w2 → undisturbed w2 w3 → undisturbed w1 w3.
Proof.
  intros [Hg1 Hf1 Hs1 Hi1 Hc1 (n1 & Hn1 & Ha1) (r1 & Hr1 & Hb1)]
         [Hg2 Hf2 Hs2 Hi2 Hc2 (n2 & Hn2 & Ha2) (r2 & Hr2 & Hb2)].
  split.
  - by eapply configured_alike_trans.
  - congruence.
  - congruence.
  - intros Hsep. rewrite Hi2, Hi1; [done..|]. by eapply configured_alike_separate.
  - congruence.
  - exists (n1 ++ n2). rewrite Hn2, Hn1, app_assoc. split; [done|].
    by apply Forall_app.
  - exists (r1 ++ r2). rewrite Hr2, Hr1, app_assoc. split; [done|].
    by apply Forall_app.
Qed.

Lemma undisturbed_flag (w w' : World) :
  undisturbed w w' → transitioning (machine w') = transitioning (machine w).
Proof. apply und_flag. Qed.

Lemma undisturbed_current (w w' : World) :
  undisturbed w w' →
  currentState (store (machine w')) = currentState (store (machine w)).
Proof. apply und_current. Qed.

(** A step that changes the machine only. *)
Lemma undisturbed_machine (w : World) (m : StateMachine) :
  configured_alike (machine w) m →
  transitioning m = transitioning (machine w) →
  currentState (store m) = currentState (store (machine w)) →
  (separate (machine w) → initialState (store m) = initialState (store (machine w))) →
  undisturbed w (set_machine m w).
Proof. intros. split; try done; exists []; by rewrite app_nil_r. Qed.

Lemma undisturbed_log_nested (w : World) :
  undisturbed w (log_nested (NestedThrew RecursiveTransition) w).
Proof.
  apply undisturbed_logs; try done.
  - exists []. by rewrite app_nil_r.
  - exists [NestedThrew RecursiveTransition]. split; [done|]. by repeat constructor.
Qed.

Lemma undisturbed_log_call (ph : phase) (args : list value) (cb : CbId) (w : World) :
  transitioning (machine w) = true → undisturbed w (log_call (seen ph args w cb) w).
Proof.
  intros Hflag. apply undisturbed_logs; try done.
  - exists [seen ph args w cb]. split; [done|]. by repeat constructor.
  - exists []. by rewrite app_nil_r.
Qed.

Lemma set_prop_undisturbed (key : string) (v : value) (w w' : World) :
  final_world (set_prop key v w) = Some w' → undisturbed w w'.
Proof.
  unfold set_prop. destruct (props (machine w)); simpl; intros [= <-];
    try apply undisturbed_refl.
  apply undisturbed_machine; [apply configured_alike_props|done| |].
  - apply currentState_set_props.
  - apply initialState_set_props.
Qed.

Lemma registerEnterCallback_undisturbed (stateName : string) (cb : CbId) (w w' : World) :
  final_world (registerEnterCallback stateName cb w) = Some w' → undisturbed w w'.
Proof.
  unfold registerEnterCallback. destruct (record_get _ _); simpl; intros [= <-];
    try apply undisturbed_refl; by apply undisturbed_machine.
Qed.

Lemma registerLeaveCallback_undisturbed (stateName : string) (cb : CbId) (w w' : World) :
  final_world (registerLeaveCallback stateName cb w) = Some w' → undisturbed w w'.
Proof.
  unfold registerLeaveCallback. destruct (record_get _ _); simpl; intros [= <-];
    try apply undisturbed_refl; by apply undisturbed_machine.
Qed.

Lemma drop_callback_undisturbed (h : handle) (w w' : World) :
  final_world (drop_callback h w) = Some w' → undisturbed w w'.
Proof.
  destruct h as [[] stateName cb]; simpl; intros [= <-]; by apply undisturbed_machine.
Qed.

(** The guard: a call made while a transition is in flight throws, and
    changes nothing. *)
Lemma transitTo_in_flight (fuel : nat) (targetState : string) (args : list value) (w : World) :
  transitioning (machine w) = true →
  transitTo code (S fuel) targetState args w = Thrown RecursiveTransition w.
Proof. intros Hflag. simpl. by rewrite Hflag. Qed.

Lemma transitTo_guarded (fuel : nat) : guarded (transitTo code fuel).
Proof.
  intros targetState args w Hflag. destruct fuel as [|fuel]; [by left|right].
  by apply transitTo_in_flight.
Qed.

(** One statement of a callback, then the rest of its body. *)
Lemma bind_undisturbed {A} (c : Eff A) (k : A → Eff unit) (w w' : World) :
  (∀ w1, final_world (c w) = Some w1 → undisturbed w w1) →
  (∀ a w1, undisturbed w w1 → final_world (k a w1) = Some w' → undisturbed w1 w') →
  final_world (bind c k w) = Some w' → undisturbed w w'.
Proof.
  intros Hc Hk. unfold bind. destruct (c w) as [a w1|e w1|]; simpl; [| |done].
  - intros Hrest. specialize (Hc w1 eq_refl).
    eapply undisturbed_trans; [done|]. by eapply Hk.
  - intros [= <-]. by apply Hc.
Qed.

(** A callback body run in flight leaves the machine undisturbed. *)
Lemma exec_undisturbed (self : Method) (body : list stmt) (w w' : World) :
  guarded self → transitioning (machine w) = true →
  final_world (exec self body w) = Some w' → undisturbed w w'.
Proof.
  intros Hself. revert w.
  induction body as [|s body IH]; intros w Hflag; cbn [exec].
  - intros [= <-]. apply undisturbed_refl.
  - destruct s as [t a|t a|msg|key v|name cb|name cb|ph name cb].
    + destruct (Hself t a w Hflag) as [->| ->]; simpl; [done|].
      intros [= <-]. apply undisturbed_log_nested.
    + destruct (Hself t a w Hflag) as [->| ->]; [done|].
      intros Hrest. eapply undisturbed_trans; [apply undisturbed_log_nested|].
      apply IH; [done|]. exact Hrest.
    + simpl. intros [= <-]. apply undisturbed_refl.
    + apply bind_undisturbed; [apply set_prop_undisturbed|].
      intros _ w1 Hu. apply IH. by rewrite (und_flag _ _ Hu).
    + apply bind_undisturbed; [apply registerEnterCallback_undisturbed|].
      intros _ w1 Hu. apply IH. by rewrite (und_flag _ _ Hu).
    + apply bind_undisturbed; [apply registerLeaveCallback_undisturbed|].
      intros _ w1 Hu. apply IH. by rewrite (und_flag _ _ Hu).
    + apply bind_undisturbed; [apply drop_callback_undisturbed|].
      intros _ w1 Hu. apply IH. by rewrite (und_flag _ _ Hu).
Qed.

Lemma call_undisturbed (self : Method) (ph : phase) (args : list value) (cb : CbId)
  (w w' : World) :
  guarded self → transitioning (machine w) = true →
  final_world (call code self ph args cb w) = Some w' → undisturbed w w'.
Proof.
  intros Hself Hflag Hrun. unfold call in Hrun.
  eapply undisturbed_trans; [by apply undisturbed_log_call|].
  by eapply exec_undisturbed.
Qed.

Lemma forEach_undisturbed (self : Method) (ph ph' : phase) (stateName : string)
  (args : list value) (k n : nat) (w w' : World) :
  guarded self → transitioning (machine w) = true →
  final_world (forEach ph' stateName (call code self ph args) k n w) = Some w' →
  undisturbed w w'.
Proof.
  intros Hself. revert k w.
  induction n as [|n IH]; intros k w Hflag; cbn [forEach].
  - intros [= <-]. apply undisturbed_refl.
  - destruct (_ !! k) as [cb|]; [|by apply IH].
    apply bind_undisturbed; [intros w1; by apply call_undisturbed|].
    intros _ w1 Hu. apply IH. by rewrite (und_flag _ _ Hu).
Qed.

Lemma callLeaveCbs_undisturbed (self : Method) (targetState : string) (w w' : World) :
  guarded self → transitioning (machine w) = true →
  final_world (callLeaveCbs code self targetState w) = Some w' → undisturbed w w'.
Proof.
  intros Hself Hflag. unfold callLeaveCbs.
  destruct (record_get _ _); simpl.
  - by apply forEach_undisturbed.
  - intros [= <-]. apply undisturbed_refl.
  - intros [= <-]. apply undisturbed_refl.
Qed.

Lemma callEnterCbs_undisturbed (self : Method) (prevState stateName : string)
  (args : list value) (w w' : World) :
  guarded self → transitioning (machine w) = true →
  final_world (callEnterCbs code self prevState stateName args w) = Some w' →
  undisturbed w w'.
Proof.
  intros Hself Hflag. unfold callEnterCbs.
  destruct (record_get _ _); simpl.
  - by apply forEach_undisturbed.
  - intros [= <-]. apply undisturbed_refl.
  - intros [= <-]. apply undisturbed_refl.
Qed.

(** [_transitTo], stage by stage. *)
Lemma _transitTo_stages (fuel : nat) (self : Method) (targetState : string)
  (args : list value) (w : World) :
  _transitTo code fuel self targetState args w =
  let this := machine w in
  let stateToApply := stateToApply_of this targetState in
  if negb (truthy stateToApply) then
    Returned (Some StateNotRegistered) (report (NOT_REGISTERED targetState) w)
  else
    match allowed this targetState with
    | Raises e => Thrown e w
    | Loops => Diverges
    | Value false =>
        Returned (Some InvalidTransition)
          (report (NEXT_STATE_RESTRICTED (currentState (store this)) targetState) w)
    | Value true =>
        match make_chain fuel this targetState stateToApply with
        | Raises e => Thrown e w
        | Loops => Diverges
        | Value stateChain =>
            match callLeaveCbs code self targetState w with
            | Thrown e w1 => Thrown e w1
            | Diverges => Diverges
            | Returned _ w1 =>
                match callEnterCbs code self (currentState (store (machine w1)))
                        targetState args (advance targetState (apply_chain stateChain w1)) with
                | Returned _ w2 => Returned None w2
                | Thrown e w2 => Thrown e w2
                | Diverges => Diverges
                end
            end
        end
    end.
Proof.
  unfold _transitTo. cbv zeta.
  destruct (negb (truthy _)); [reflexivity|].
  unfold bind at 1. unfold lift at 1.
  destruct (allowed (machine w) targetState) as [[|]|e|]; simpl; try reflexivity.
  unfold bind at 1. unfold lift at 1.
  destruct (make_chain _ _ _ _) as [stateChain|e|]; try reflexivity.
  unfold bind, update, ret.
  destruct (callLeaveCbs _ _ _ _) as [[] w1|e w1|]; try reflexivity.
  replace (currentState (store (machine (apply_chain stateChain w1))))
    with (currentState (store (machine w1))); [done|].
  symmetry. apply currentState_set_props.
Qed.

(** *** Who is called *)

Lemma exec_calls (self : Method) (body : list stmt) (w w' : World) :
  guarded self → transitioning (machine w) = true →
  final_world (exec self body w) = Some w' → calls w' = calls w.
Proof.
  intros Hself. revert w.
  induction body as [|s body IH]; intros w Hflag; cbn [exec].
  - by intros [= <-].
  - destruct s as [t a|t a|msg|key v|name cb|name cb|ph name cb].
    + destruct (Hself t a w Hflag) as [->| ->]; simpl; [done|]. by intros [= <-].
    + destruct (Hself t a w Hflag) as [->| ->]; [done|].
      intros Hrest. by apply IH in Hrest.
    + simpl. by intros [= <-].
    + unfold bind, set_prop.
      destruct (props (machine w)); simpl; try by intros [= <-].
      * intros Hrest. by apply IH in Hrest.
      * intros Hrest. by apply IH in Hrest.
    + unfold bind, registerEnterCallback.
      destruct (record_get _ _); simpl; try by intros [= <-].
      * intros Hrest. by apply IH in Hrest.
      * intros Hrest. by apply IH in Hrest.
    + unfold bind, registerLeaveCallback.
      destruct (record_get _ _); simpl; try by intros [= <-].
      * intros Hrest. by apply IH in Hrest.
      * intros Hrest. by apply IH in Hrest.
    + unfold bind. destruct ph; simpl; intros Hrest; by apply IH in Hrest.
Qed.

Lemma call_calls (self : Method) (ph : phase) (args : list value) (cb : CbId)
  (w w' : World) :
  guarded self → transitioning (machine w) = true →
  final_world (call code self ph args cb w) = Some w' →
  calls w' = calls w ++ [seen ph args w cb].
Proof.
  intros Hself Hflag Hrun. unfold call in Hrun.
  by apply exec_calls in Hrun.
Qed.

(** *** Callbacks that do not write the bag *)

Lemma exec_read_only (self : Method) (body : list stmt) (w w' : World) :
  guarded self → transitioning (machine w) = true →
  forallb (λ s, negb (writes_props s)) body = true →
  final_world (exec self body w) = Some w' →
  props (machine w') = props (machine w) ∧
  initialState (store (machine w')) = initialState (store (machine w)).
Proof.
  intros Hself. revert w.
  induction body as [|s body IH]; intros w Hflag Hro; cbn [exec].
  - by intros [= <-].
  - simpl in Hro. apply andb_true_iff in Hro as [Hs Hro].
    destruct s as [t a|t a|msg|key v|name cb|name cb|ph name cb]; [| | |done| | |].
    + destruct (Hself t a w Hflag) as [->| ->]; simpl; [done|]. by intros [= <-].
    + destruct (Hself t a w Hflag) as [->| ->]; [done|].
      intros Hrest. by apply IH in Hrest.
    + simpl. by intros [= <-].
    + unfold bind, registerEnterCallback.
      destruct (record_get _ _); simpl; try by intros [= <-].
      * intros Hrest. by apply IH in Hrest.
      * intros Hrest. by apply IH in Hrest.
    + unfold bind, registerLeaveCallback.
      destruct (record_get _ _); simpl; try by intros [= <-].
      * intros Hrest. by apply IH in Hrest.
      * intros Hrest. by apply IH in Hrest.
    + unfold bind. destruct ph; simpl; intros Hrest; by apply IH in Hrest.
Qed.

Lemma forEach_read_only (self : Method) (ph ph' : phase) (stateName : string)
  (args : list value) (k n : nat) (w w' : World) :
  read_only code → guarded self → transitioning (machine w) = true →
  final_world (forEach ph' stateName (call code self ph args) k n w) = Some w' →
  props (machine w') = props (machine w) ∧
  initialState (store (machine w')) = initialState (store (machine w)).
Proof.
  intros Hro Hself. revert k w.
  induction n as [|n IH]; intros k w Hflag; cbn [forEach]; [by intros [= <-]|].
  destruct (_ !! k) as [cb|]; [|by apply IH].
  unfold bind.
  pose proof (exec_read_only self (code cb) (log_call (seen ph args w cb) w)) as Hexec.
  pose proof (call_undisturbed self ph args cb w) as Hu.
  unfold call in *.
  destruct (exec self (code cb) _) as [[] w1|e w1|]; simpl; [| |done].
  - destruct (Hexec w1 Hself Hflag (Hro cb) eq_refl) as [Hp Hs].
    intros Hrest. apply IH in Hrest as [Hp' Hs'].
    + rewrite Hp', Hs'. exact (conj Hp Hs).
    + by rewrite (und_flag _ _ (Hu w1 Hself Hflag eq_refl)).
  - intros [= <-]. by apply Hexec.
Qed.

Lemma callLeaveCbs_read_only (self : Method) (targetState : string) (w w' : World) :
  read_only code → guarded self → transitioning (machine w) = true →
  final_world (callLeaveCbs code self targetState w) = Some w' →
  props (machine w') = props (machine w) ∧
  initialState (store (machine w')) = initialState (store (machine w)).
Proof.
  intros Hro Hself Hflag. unfold callLeaveCbs.
  destruct (record_get _ _); simpl; try by intros [= <-].
  by apply forEach_read_only.
Qed.

Lemma callEnterCbs_read_only (self : Method) (prevState stateName : string)
  (args : list value) (w w' : World) :
  read_only code → guarded self → transitioning (machine w) = true →
  final_world (callEnterCbs code self prevState stateName args w) = Some w' →
  props (machine w') = props (machine w) ∧
  initialState (store (machine w')) = initialState (store (machine w)).
Proof.
  intros Hro Hself Hflag. unfold callEnterCbs.
  destruct (record_get _ _); simpl; try by intros [= <-].
  by apply forEach_read_only.
Qed.

(** *** Callbacks that leave the arrays of callbacks alone *)

Lemma exec_fixed (self : Method) (body : list stmt) (w w' : World) :
  guarded self → transitioning (machine w) = true →
  forallb (λ s, negb (registers s)) body = true →
  final_world (exec self body w) = Some w' →
  onEnterCbs (store (machine w')) = onEnterCbs (store (machine w)) ∧
  onLeaveCbs (store (machine w')) = onLeaveCbs (store (machine w)).
Proof.
  intros Hself. revert w.
  induction body as [|s body IH]; intros w Hflag Hfixed; cbn [exec].
  - by intros [= <-].
  - simpl in Hfixed. apply andb_true_iff in Hfixed as [Hs Hfixed].
    destruct s as [t a|t a|msg|key v|name cb|name cb|ph name cb]; [| | | |done..].
    + destruct (Hself t a w Hflag) as [->| ->]; simpl; [done|]. by intros [= <-].
    + destruct (Hself t a w Hflag) as [->| ->]; [done|].
      intros Hrest. by apply IH in Hrest.
    + simpl. by intros [= <-].
    + unfold bind, set_prop.
      destruct (props (machine w)) as [| | | | |fields|]; simpl; try by intros [= <-].
      * intros Hrest. apply IH in Hrest as [-> ->]; [|done..].
        split; [apply onEnterCbs_set_props|apply onLeaveCbs_set_props].
      * intros Hrest. by apply IH in Hrest.
Qed.

Lemma call_fixed (self : Method) (ph : phase) (args : list value) (cb : CbId)
  (w w' : World) :
  fixed_callbacks code → guarded self → transitioning (machine w) = true →
  final_world (call code self ph args cb w) = Some w' →
  ∀ ph0, callbacks ph0 w' = callbacks ph0 w.
Proof.
  intros Hfixed Hself Hflag Hrun ph0. unfold call in Hrun.
  apply exec_fixed in Hrun as [He Hl]; [|done..]. by destruct ph0.
Qed.

(** With such callbacks [forEach] calls the callbacks of the array in
    turn. *)
Lemma forEach_in_turn (self : Method) (ph ph' : phase) (stateName : string)
  (args : list value) (k n : nat) (w : World) :
  fixed_callbacks code → guarded self → transitioning (machine w) = true →
  (k + n = length (registered (callbacks ph' w) stateName))%nat →
  forEach ph' stateName (call code self ph args) k n w
  = in_turn (call code self ph args) (drop k (registered (callbacks ph' w) stateName)) w.
Proof.
  intros Hfixed Hself. revert k w.
  induction n as [|n IH]; intros k w Hflag Hlen; cbn [forEach].
  - by rewrite drop_ge by lia.
  - destruct (lookup_lt_is_Some_2 (registered (callbacks ph' w) stateName) k)
      as [cb Hcb]; [lia|].
    rewrite Hcb, (drop_S _ _ _ Hcb). cbn [in_turn]. unfold bind.
    pose proof (call_undisturbed self ph args cb w) as Hu.
    pose proof (call_fixed self ph args cb w) as Hsame.
    destruct (call code self ph args cb w) as [[] w1|e w1|]; [|done..].
    specialize (Hu w1 Hself Hflag eq_refl).
    specialize (Hsame w1 Hfixed Hself Hflag eq_refl).
    rewrite <- (Hsame ph'). apply IH.
    + by rewrite (und_flag _ _ Hu).
    + rewrite (Hsame ph'). lia.
Qed.

Lemma in_turn_undisturbed (self : Method) (ph : phase) (args : list value)
  (cbs : list CbId) (w w' : World) :
  guarded self → transitioning (machine w) = true →
  final_world (in_turn (call code self ph args) cbs w) = Some w' → undisturbed w w'.
Proof.
  intros Hself. revert w.
  induction cbs as [|cb cbs IH]; intros w Hflag; cbn [in_turn].
  - intros [= <-]. apply undisturbed_refl.
  - apply bind_undisturbed; [intros w1; by apply call_undisturbed|].
    intros _ w1 Hu. apply IH. by rewrite (und_flag _ _ Hu).
Qed.

(** The callbacks called in turn, each with what it is given, in the state
    they are called in. *)
Lemma in_turn_calls (self : Method) (ph : phase) (args : list value)
  (cbs : list CbId) (w w' : World) :
  guarded self → transitioning (machine w) = true →
  in_turn (call code self ph args) cbs w = Returned tt w' →
  ∃ new, calls w' = calls w ++ new ∧
         Forall2 (call_of ph args (currentState (store (machine w)))) cbs new.
Proof.
  intros Hself. revert w.
  induction cbs as [|cb cbs IH]; intros w Hflag; simpl.
  - intros [= <-]. exists []. by rewrite app_nil_r.
  - unfold bind.
    destruct (call code self ph args cb w) as [[] w1|e w1|] eqn:Hcall; [|done..].
    intros Hrest.
    assert (undisturbed w w1) as Hu
      by (eapply call_undisturbed; [done..|by rewrite Hcall]).
    assert (calls w1 = calls w ++ [seen ph args w cb]) as Hc
      by (eapply call_calls; [done..|by rewrite Hcall]).
    apply IH in Hrest as (new & Hnew & Hall); [|by rewrite (undisturbed_flag _ _ Hu)].
    exists (seen ph args w cb :: new). split.
    + by rewrite Hnew, Hc, <- app_assoc.
    + constructor; [done|]. by rewrite <- (undisturbed_current _ _ Hu).
Qed.

(** The callbacks called in turn until one throws. *)
Lemma in_turn_prefix (self : Method) (ph : phase) (args : list value)
  (cbs : list CbId) (w w' : World) :
  guarded self → transitioning (machine w) = true →
  final_world (in_turn (call code self ph args) cbs w) = Some w' →
  ∃ new, calls w' = calls w ++ new ∧
         Forall2 (call_of ph args (currentState (store (machine w))))
           (take (length new) cbs) new.
Proof.
  intros Hself. revert w.
  induction cbs as [|cb cbs IH]; intros w Hflag; simpl.
  - intros [= <-]. exists []. split; [by rewrite app_nil_r|constructor].
  - unfold bind.
    destruct (call code self ph args cb w) as [[] w1|e w1|] eqn:Hcall; [| |done].
    + intros Hrest.
      assert (undisturbed w w1) as Hu
        by (eapply call_undisturbed; [done..|by rewrite Hcall]).
      assert (calls w1 = calls w ++ [seen ph args w cb]) as Hc
        by (eapply call_calls; [done..|by rewrite Hcall]).
      apply IH in Hrest as (new & Hnew & Hall); [|by rewrite (undisturbed_flag _ _ Hu)].
      exists (seen ph args w cb :: new). split.
      * by rewrite Hnew, Hc, <- app_assoc.
      * simpl. constructor; [done|]. by rewrite <- (undisturbed_current _ _ Hu).
    + simpl. intros [= <-]. exists [seen ph args w cb]. split.
      * eapply call_calls; [done..|by rewrite Hcall].
      * simpl. rewrite take_0. by repeat constructor.
Qed.

Lemma record_get_registered (r : gmap string (list CbId)) (key : string) :
  match record_get r key with
  | Own cbs => registered r key = cbs
  | Absent => registered r key = []
  | Inherited => True
  end.
Proof.
  unfold record_get, registered.
  destruct (r !! key); simpl; [done|]. by case_bool_decide.
Qed.

(** The two phases, for callbacks that leave the arrays alone. *)
Lemma callLeaveCbs_in_turn (self : Method) (targetState : string) (w : World) :
  fixed_callbacks code → guarded self → transitioning (machine w) = true →
  callLeaveCbs code self targetState w
  = match record_get (onLeaveCbs (store (machine w))) (currentState (store (machine w))) with
    | Inherited =>
        Thrown (TypeError "this.onLeaveCbs[stateName].forEach is not a function") w
    | _ => in_turn (call code self Leave [VStr targetState])
             (registered (onLeaveCbs (store (machine w))) (currentState (store (machine w))))
             w
    end.
Proof.
  intros Hfixed Hself Hflag. unfold callLeaveCbs.
  pose proof (record_get_registered (onLeaveCbs (store (machine w)))
                (currentState (store (machine w)))) as Hreg.
  destruct (record_get _ _) as [cbs| |]; [|done|by rewrite Hreg].
  rewrite (forEach_in_turn self Leave Leave); [|done..|by simpl; rewrite Hreg].
  by rewrite drop_0.
Qed.

Lemma callEnterCbs_in_turn (self : Method) (prevState stateName : string)
  (args : list value) (w : World) :
  fixed_callbacks code → guarded self → transitioning (machine w) = true →
  callEnterCbs code self prevState stateName args w
  = match record_get (onEnterCbs (store (machine w))) stateName with
    | Inherited =>
        Thrown (TypeError "this.onEnterCbs[stateName].forEach is not a function") w
    | _ => in_turn (call code self Enter ([VStr prevState] ++ args))
             (registered (onEnterCbs (store (machine w))) stateName) w
    end.
Proof.
  intros Hfixed Hself Hflag. unfold callEnterCbs.
  pose proof (record_get_registered (onEnterCbs (store (machine w))) stateName) as Hreg.
  destruct (record_get _ _) as [cbs| |]; [|done|by rewrite Hreg].
  rewrite (forEach_in_turn self Enter Enter); [|done..|by simpl; rewrite Hreg].
  by rewrite drop_0.
Qed.

Lemma callLeaveCbs_calls (self : Method) (targetState : string) (w w' : World) :
  fixed_callbacks code → guarded self → transitioning (machine w) = true →
  callLeaveCbs code self targetState w = Returned tt w' →
  ∃ new, calls w' = calls w ++ new ∧
         Forall2 (call_of Leave [VStr targetState] (currentState (store (machine w))))
           (registered (onLeaveCbs (store (machine w))) (currentState (store (machine w))))
           new.
Proof.
  intros Hfixed Hself Hflag. rewrite callLeaveCbs_in_turn by done.
  destruct (record_get _ _); [|done|]; by apply in_turn_calls.
Qed.

Lemma callEnterCbs_calls (self : Method) (prevState stateName : string)
  (args : list value) (w w' : World) :
  fixed_callbacks code → guarded self → transitioning (machine w) = true →
  callEnterCbs code self prevState stateName args w = Returned tt w' →
  ∃ new, calls w' = calls w ++ new ∧
         Forall2 (call_of Enter (VStr prevState :: args) (currentState (store (machine w))))
           (registered (onEnterCbs (store (machine w))) stateName) new.
Proof.
  intros Hfixed Hself Hflag. rewrite callEnterCbs_in_turn by done.
  destruct (record_get _ _); [|done|]; by apply in_turn_calls.
Qed.

Lemma callLeaveCbs_prefix (self : Method) (targetState : string) (w w' : World) :
  fixed_callbacks code → guarded self → transitioning (machine w) = true →
  final_world (callLeaveCbs code self targetState w) = Some w' →
  ∃ new, calls w' = calls w ++ new ∧
         Forall2 (call_of Leave [VStr targetState] (currentState (store (machine w))))
           (take (length new)
              (registered (onLeaveCbs (store (machine w))) (currentState (store (machine w)))))
           new.
Proof.
  intros Hfixed Hself Hflag. rewrite callLeaveCbs_in_turn by done.
  destruct (record_get _ _); try by apply in_turn_prefix.
  intros [= <-]. exists []. split; [by rewrite app_nil_r|]. rewrite take_0. constructor.
Qed.

Lemma callEnterCbs_prefix (self : Method) (prevState stateName : string)
  (args : list value) (w w' : World) :
  fixed_callbacks code → guarded self → transitioning (machine w) = true →
  final_world (callEnterCbs code self prevState stateName args w) = Some w' →
  ∃ new, calls w' = calls w ++ new ∧
         Forall2 (call_of Enter (VStr prevState :: args) (currentState (store (machine w))))
           (take (length new) (registered (onEnterCbs (store (machine w))) stateName))
           new.
Proof.
  intros Hfixed Hself Hflag. rewrite callEnterCbs_in_turn by done.
  destruct (record_get _ _); try by apply in_turn_prefix.
  intros [= <-]. exists []. split; [by rewrite app_nil_r|]. rewrite take_0. constructor.
Qed.

(** *** Callbacks that neither write the bag nor touch the arrays *)

Lemma seen_machine (ph : phase) (args : list value) (w1 w2 : World) (cb : CbId) :
  machine w1 = machine w2 → seen ph args w1 cb = seen ph args w2 cb.
Proof. unfold seen. by intros ->. Qed.

Lemma exec_still (self : Method) (body : list stmt) (w w' : World) :
  guarded self → transitioning (machine w) = true →
  forallb (λ s, negb (writes_props s)) body = true →
  forallb (λ s, negb (registers s)) body = true →
  final_world (exec self body w) = Some w' →
  machine w' = machine w.
Proof.
  intros Hself. revert w.
  induction body as [|s body IH]; intros w Hflag Hro Hfixed; cbn [exec].
  - by intros [= <-].
  - simpl in Hro, Hfixed.
    apply andb_true_iff in Hro as [Hs Hro].
    apply andb_true_iff in Hfixed as [Hs' Hfixed].
    destruct s as [t a|t a|msg|key v|name cb|name cb|ph name cb]; [| | |done..].
    + destruct (Hself t a w Hflag) as [->| ->]; simpl; [done|]. by intros [= <-].
    + destruct (Hself t a w Hflag) as [->| ->]; [done|].
      intros Hrest. by apply IH in Hrest.
    + simpl. by intros [= <-].
Qed.

Lemma in_turn_still (self : Method) (ph : phase) (args : list value)
  (cbs : list CbId) (w w' : World) :
  read_only code → fixed_callbacks code →
  guarded self → transitioning (machine w) = true →
  in_turn (call code self ph args) cbs w = Returned tt w' →
  machine w' = machine w ∧ calls w' = calls w ++ map (seen ph args w) cbs.
Proof.
  intros Hro Hfixed Hself. revert w.
  induction cbs as [|cb cbs IH]; intros w Hflag; simpl.
  - intros [= <-]. by rewrite app_nil_r.
  - unfold bind.
    destruct (call code self ph args cb w) as [[] w1|e w1|] eqn:Hcall; [|done..].
    intros Hrest.
    assert (machine w1 = machine w) as Hm.
    { unfold call in Hcall.
      apply (exec_still self (code cb) (log_call (seen ph args w cb) w) w1 Hself Hflag
               (Hro cb) (Hfixed cb)). by rewrite Hcall. }
    assert (calls w1 = calls w ++ [seen ph args w cb]) as Hc
      by (eapply call_calls; [done..|by rewrite Hcall]).
    apply IH in Hrest as [Hm' Hc']; [|by rewrite Hm].
    split; [congruence|].
    rewrite Hc', Hc, <- app_assoc. simpl. do 2 f_equal.
    apply map_ext. intros cb'. by apply seen_machine.
Qed.

Lemma callLeaveCbs_still (self : Method) (targetState : string) (w w' : World) :
  read_only code → fixed_callbacks code →
  guarded self → transitioning (machine w) = true →
  callLeaveCbs code self targetState w = Returned tt w' →
  machine w' = machine w ∧
  calls w' = calls w ++
    map (seen Leave [VStr targetState] w)
      (registered (onLeaveCbs (store (machine w))) (currentState (store (machine w)))).
Proof.
  intros Hro Hfixed Hself Hflag. rewrite callLeaveCbs_in_turn by done.
  destruct (record_get _ _); [|done|]; by apply in_turn_still.
Qed.

Lemma callEnterCbs_still (self : Method) (prevState stateName : string)
  (args : list value) (w w' : World) :
  read_only code → fixed_callbacks code →
  guarded self → transitioning (machine w) = true →
  callEnterCbs code self prevState stateName args w = Returned tt w' →
  machine w' = machine w ∧
  calls w' = calls w ++
    map (seen Enter (VStr prevState :: args) w)
      (registered (onEnterCbs (store (machine w))) stateName).
Proof.
  intros Hro Hfixed Hself Hflag. rewrite callEnterCbs_in_turn by done.
  destruct (record_get _ _); [|done|]; by apply in_turn_still.
Qed.

(** *** The chain of states *)

Lemma lineage_unique (registry : gmap string StateMachineMetadata) (name : string)
  (names1 names2 : list string) :
  lineage registry name names1 → lineage registry name names2 → names1 = names2.
Proof.
  intros H1. revert names2.
  induction H1 as [name d Hd Hroot|name d names Hd Hparent _ IH]; intros names2 H2;
    inversion H2 as [? d' Hd' Hroot'|? d' names' Hd' Hparent' Hrest]; subst;
    assert (d' = d) as -> by congruence; try done.
  f_equal. by apply IH.
Qed.

Lemma walk_initial (fuel : nat) (this : StateMachine) (acc : list value) :
  walk fuel this "initial" acc = Value acc.
Proof. by destruct fuel. Qed.

Lemma walk_lineage (fuel : nat) (this : StateMachine) (parentStateName : string)
  (acc chain : list value) :
  walk fuel this parentStateName acc = Value chain →
  (parentStateName = "initial" ∧ chain = acc) ∨
  (∃ names, lineage (metadata this) parentStateName names ∧
            chain = map (member this) names ++ acc).
Proof.
  revert parentStateName acc.
  induction fuel as [|fuel IH]; intros name acc; simpl.
  - case_bool_decide; [|done]. intros [= <-]. by left.
  - case_bool_decide as Hname; [intros [= <-]; by left|].
    unfold getMetadataByName, getByName.
    destruct (metadata this !! name) as [d|] eqn:Hd; simpl; [|done].
    intros Hwalk. right.
    destruct (decide (parentState d = "initial")) as [Hroot|Hparent].
    + exists [name]. split; [by eapply lineage_root|].
      rewrite Hroot, walk_initial in Hwalk. by injection Hwalk as <-.
    + apply IH in Hwalk as [[Hp _]|(names & Hlin & ->)]; [done|].
      exists (names ++ [name]). split; [by eapply lineage_child|].
      by rewrite map_app, <- app_assoc.
Qed.

(** *** [transitTo], outcome by outcome *)

Lemma transitTo_S (fuel : nat) (targetState : string) (args : list value) (w : World) :
  transitTo code (S fuel) targetState args w =
  if transitioning (machine w) then Thrown RecursiveTransition w
  else
    match _transitTo code fuel (transitTo code fuel) targetState args (set_flag true w) with
    | Returned r w' => Returned r (set_flag false w')
    | Thrown e w' => Thrown e w'
    | Diverges => Diverges
    end.
Proof. reflexivity. Qed.

Lemma member_flag (b : bool) (this : StateMachine) (name : string) :
  member (set_transitioning b this) name = member this name.
Proof. reflexivity. Qed.

Lemma walk_flag (fuel : nat) (b : bool) (this : StateMachine) (name : string)
  (acc : list value) :
  walk fuel (set_transitioning b this) name acc = walk fuel this name acc.
Proof.
  revert name acc. induction fuel as [|fuel IH]; intros name acc; simpl; [done|].
  case_bool_decide; [done|].
  unfold getMetadataByName. simpl.
  destruct (getByName (metadata this) name); simpl; [|done].
  rewrite member_flag. apply IH.
Qed.

Lemma make_chain_flag (fuel : nat) (b : bool) (this : StateMachine) (name : string)
  (v : value) :
  make_chain fuel (set_transitioning b this) name v = make_chain fuel this name v.
Proof.
  unfold make_chain. case_bool_decide; [|done].
  unfold getMetadataByName. simpl.
  destruct (getByName (metadata this) name); simpl; [apply walk_flag|done].
Qed.

Lemma stateToApply_of_flag (b : bool) (this : StateMachine) (targetState : string) :
  stateToApply_of (set_transitioning b this) targetState = stateToApply_of this targetState.
Proof. reflexivity. Qed.

Lemma set_flag_back (w : World) :
  transitioning (machine w) = false → machine (set_flag false (set_flag true w)) = machine w.
Proof. destruct w as [[]]. simpl. by intros ->. Qed.

Lemma allowed_permitted (this : StateMachine) (targetState : string) :
  allowed this targetState =
  match permitted this with
  | Some l => Value (includes l targetState)
  | None => Raises (TypeError "Cannot read properties of undefined")
  end.
Proof.
  unfold allowed, permitted. destruct (isInitialState _); [done|].
  by destruct (getMetadataByName _ _).
Qed.

(** A call that returns no error went through every stage. *)
Lemma transitTo_success (fuel : nat) (targetState : string) (args : list value)
  (w w' : World) :
  transitTo code fuel targetState args w = Returned None w' →
  ∃ n stateChain w1 w2,
    fuel = S n ∧
    transitioning (machine w) = false ∧
    truthy (stateToApply_of (machine w) targetState) = true ∧
    allowed (machine w) targetState = Value true ∧
    make_chain n (machine w) targetState (stateToApply_of (machine w) targetState)
      = Value stateChain ∧
    callLeaveCbs code (transitTo code n) targetState (set_flag true w) = Returned tt w1 ∧
    callEnterCbs code (transitTo code n) (currentState (store (machine w1)))
      targetState args (advance targetState (apply_chain stateChain w1)) = Returned tt w2 ∧
    w' = set_flag false w2.
Proof.
  destruct fuel as [|n]; [done|]. rewrite transitTo_S.
  destruct (transitioning (machine w)) eqn:Hflag; [done|].
  rewrite _transitTo_stages. cbv zeta.
  change (stateToApply_of (machine (set_flag true w)) targetState)
    with (stateToApply_of (machine w) targetState).
  change (allowed (machine (set_flag true w)) targetState)
    with (allowed (machine w) targetState).
  change (machine (set_flag true w)) with (set_transitioning true (machine w)).
  rewrite make_chain_flag.
  destruct (truthy _) eqn:Htruthy; cbn [negb]; [|done].
  destruct (allowed _ _) as [[|]|e|] eqn:Hallowed; [|done..].
  destruct (make_chain _ _ _ _) as [stateChain|e|] eqn:Hchain; [|done..].
  destruct (callLeaveCbs _ _ _ _) as [[] w1|e w1|] eqn:Hleave; [|done..].
  destruct (callEnterCbs _ _ _ _ _ _) as [[] w2|e w2|] eqn:Henter; [|done..].
  intros [= <-]. by exists n, stateChain, w1, w2.
Qed.

(** A call that returns an error stopped at a check. *)
Lemma transitTo_failure (fuel : nat) (targetState : string) (args : list value)
  (e : TransitionError) (w w' : World) :
  transitTo code fuel targetState args w = Returned (Some e) w' →
  transitioning (machine w) = false ∧
  ((e = StateNotRegistered ∧
    truthy (stateToApply_of (machine w) targetState) = false ∧
    w' = set_flag false (report (NOT_REGISTERED targetState) (set_flag true w))) ∨
   (e = InvalidTransition ∧
    truthy (stateToApply_of (machine w) targetState) = true ∧
    allowed (machine w) targetState = Value false ∧
    w' = set_flag false
           (report (NEXT_STATE_RESTRICTED (currentState (store (machine w))) targetState)
              (set_flag true w)))).
Proof.
  destruct fuel as [|n]; [done|]. rewrite transitTo_S.
  destruct (transitioning (machine w)) eqn:Hflag; [done|].
  rewrite _transitTo_stages. cbv zeta.
  change (stateToApply_of (machine (set_flag true w)) targetState)
    with (stateToApply_of (machine w) targetState).
  change (allowed (machine (set_flag true w)) targetState)
    with (allowed (machine w) targetState).
  destruct (truthy _) eqn:Htruthy; cbn [negb].
  - destruct (allowed _ _) as [[|]|e'|] eqn:Hallowed; [| |done..].
    + destruct (make_chain _ _ _ _) as [stateChain|e'|]; [|done..].
      destruct (callLeaveCbs _ _ _ _) as [[] w1|e' w1|]; [|done..].
      by destruct (callEnterCbs _ _ _ _ _ _) as [[] w2|e' w2|].
    + intros [= <- <-]. split; [done|]. by right.
  - intros [= <- <-]. split; [done|]. by left.
Qed.

Lemma report_machine (msg : string) (w : World) : machine (report msg w) = machine w.
Proof. unfold report. by destruct (logging _). Qed.

Lemma report_logs (msg : string) (w : World) :
  calls (report msg w) = calls w ∧ nested (report msg w) = nested w.
Proof. unfold report. by destruct (logging _). Qed.

Lemma report_flag (msg : string) (b : bool) (w : World) :
  report msg (set_flag b w) = set_flag b (report msg w).
Proof. unfold report. simpl. by destruct (logging _). Qed.

Lemma set_flag_back_world (w : World) :
  transitioning (machine w) = false → set_flag false (set_flag true w) = w.
Proof. destruct w as [[]]. simpl. by intros ->. Qed.

(** *** What every call keeps *)

Lemma logs_extended_refl (w w' : World) :
  calls w' = calls w → nested w' = nested w → logs_extended w w'.
Proof. intros Hc Hn. split; exists []; by rewrite app_nil_r. Qed.

Lemma logs_extended_trans (w1 w2 w3 : World) :
  logs_extended w1 w2 → logs_extended w2 w3 → logs_extended w1 w3.
Proof.
  intros [(c1 & Hc1 & Hf1) (n1 & Hn1 & Hg1)] [(c2 & Hc2 & Hf2) (n2 & Hn2 & Hg2)].
  split.
  - exists (c1 ++ c2). rewrite Hc2, Hc1, app_assoc. split; [done|]. by apply Forall_app.
  - exists (n1 ++ n2). rewrite Hn2, Hn1, app_assoc. split; [done|]. by apply Forall_app.
Qed.

Lemma framed_same (w w' : World) :
  configured_alike (machine w) (machine w') →
  initialState (store (machine w')) = initialState (store (machine w)) →
  calls w' = calls w → nested w' = nested w →
  framed w w'.
Proof. intros Hg Hs Hc Hn. split; [done..|]. by apply logs_extended_refl. Qed.

Lemma framed_refl (w : World) : framed w w.
Proof. by apply framed_same. Qed.

Lemma framed_trans (w1 w2 w3 : World) : framed w1 w2 → framed w2 w3 → framed w1 w3.
Proof.
  intros [Hg1 Hs1 Hlog1] [Hg2 Hs2 Hlog2]. split.
  - by eapply configured_alike_trans.
  - intros Hsep. rewrite Hs2, Hs1; [done..|]. by eapply configured_alike_separate.
  - by eapply logs_extended_trans.
Qed.

Lemma framed_set_flag (b : bool) (w : World) : framed w (set_flag b w).
Proof. by apply framed_same. Qed.

Lemma framed_report (msg : string) (w : World) : framed w (report msg w).
Proof.
  unfold report. destruct (logging _); by apply framed_same.
Qed.

Lemma framed_apply_chain (stateChain : list value) (w : World) :
  framed w (apply_chain stateChain w).
Proof.
  split; [apply configured_alike_props|apply initialState_set_props|].
  by apply logs_extended_refl.
Qed.

Lemma framed_advance (targetState : string) (w : World) :
  framed w (advance targetState w).
Proof. by apply framed_same. Qed.

Lemma undisturbed_framed (w w' : World) : undisturbed w w' → framed w w'.
Proof. intros [Hg _ _ Hs _ Hcalls Hnested]. by split. Qed.

(** However a call of [_transitTo] made in flight ends, the flag is still
    set, the configuration is as it was, and the current state is the old
    one or a permitted target. *)
Lemma _transitTo_frame (fuel : nat) (self : Method) (targetState : string)
  (args : list value) (w w' : World) :
  guarded self → transitioning (machine w) = true →
  final_world (_transitTo code fuel self targetState args w) = Some w' →
  transitioning (machine w') = true ∧
  framed w w' ∧
  (currentState (store (machine w')) = currentState (store (machine w)) ∨
   (currentState (store (machine w')) = targetState ∧
    allowed (machine w) targetState = Value true)).
Proof.
  intros Hself Hflag. rewrite _transitTo_stages. cbv zeta.
  destruct (truthy _); cbn [negb].
  2:{ cbn [final_world]. intros [= <-]. rewrite report_machine.
      split; [done|]. split; [apply framed_report|]. by left. }
  destruct (allowed _ _) as [[|]|e|] eqn:Hallowed; cbn [final_world]; [| |intros [= <-]|done].
  - destruct (make_chain _ _ _ _) as [stateChain|e|]; cbn [final_world]; [|intros [= <-]|done].
    2:{ split; [done|]. split; [apply framed_refl|by left]. }
    destruct (callLeaveCbs _ _ _ _) as [[] w1|e w1|] eqn:Hleave; cbn [final_world]; [| |done].
    2:{ intros [= <-].
        assert (undisturbed w w1) as Hu
          by (eapply callLeaveCbs_undisturbed; [done..|by rewrite Hleave]).
        split; [by rewrite (undisturbed_flag _ _ Hu)|].
        split; [by apply undisturbed_framed|]. left. by apply undisturbed_current. }
    assert (undisturbed w w1) as Hu1
      by (eapply callLeaveCbs_undisturbed; [done..|by rewrite Hleave]).
    set (w2 := advance targetState (apply_chain stateChain w1)).
    assert (transitioning (machine w2) = true) as Hflag2
      by (unfold w2; simpl; by rewrite (undisturbed_flag _ _ Hu1)).
    assert (currentState (store (machine w2)) = targetState) as Hcur2 by done.
    assert (∀ w3, final_world (callEnterCbs code self (currentState (store (machine w1)))
                                 targetState args w2) = Some w3 → undisturbed w2 w3) as Hu2'
      by (intros w3; by apply callEnterCbs_undisturbed).
    intros Henter.
    assert (undisturbed w2 w') as Hu2.
    { apply Hu2'. destruct (callEnterCbs _ _ _ _ _ _); cbn [final_world] in *; congruence. }
    clear Hu2'. split; [by rewrite (undisturbed_flag _ _ Hu2)|]. split.
    + eapply framed_trans; [by apply undisturbed_framed|].
      eapply framed_trans; [apply (framed_apply_chain stateChain)|].
      eapply framed_trans; [apply (framed_advance targetState)|].
      by apply undisturbed_framed.
    + right. by rewrite (undisturbed_current _ _ Hu2).
  - intros [= <-]. rewrite report_machine.
    split; [done|]. split; [apply framed_report|]. by left.
  - split; [done|]. split; [apply framed_refl|by left].
Qed.

Lemma allowed_flag (b : bool) (this : StateMachine) (targetState : string) :
  allowed (set_transitioning b this) targetState = allowed this targetState.
Proof. reflexivity. Qed.

(** However a call of [transitTo] ends. *)
Lemma transitTo_frame (fuel : nat) (targetState : string) (args : list value)
  (w w' : World) :
  final_world (transitTo code fuel targetState args w) = Some w' →
  framed w w' ∧
  (currentState (store (machine w')) = currentState (store (machine w)) ∨
   (currentState (store (machine w')) = targetState ∧
    allowed (machine w) targetState = Value true)).
Proof.
  destruct fuel as [|n]; [done|]. rewrite transitTo_S.
  destruct (transitioning (machine w)) eqn:Hflag.
  { simpl. intros [= <-]. split; [apply framed_refl|by left]. }
  intros Hrun.
  assert (∃ w1, final_world (_transitTo code n (transitTo code n) targetState args
                               (set_flag true w)) = Some w1 ∧
                (w' = w1 ∨ w' = set_flag false w1)) as (w1 & Hw1 & Hw').
  { destruct (_transitTo _ _ _ _ _ _) as [r w1|e w1|]; simpl in *; [| |done].
    - exists w1. split; [done|]. right. congruence.
    - exists w1. split; [done|]. left. congruence. }
  apply _transitTo_frame in Hw1 as (_ & Hframed & Hcur);
    [|apply transitTo_guarded|done].
  assert (framed w w1) as Hf by (eapply framed_trans; [apply (framed_set_flag true)|done]).
  destruct Hw' as [->| ->].
  - by split.
  - split; [eapply framed_trans; [done|apply framed_set_flag]|]. exact Hcur.
Qed.

Lemma transitTo_thrown_flag (fuel : nat) (targetState : string) (args : list value)
  (e : exn) (w w' : World) :
  transitTo code fuel targetState args w = Thrown e w' →
  transitioning (machine w') = true.
Proof.
  destruct fuel as [|n]; [done|]. rewrite transitTo_S.
  destruct (transitioning (machine w)) eqn:Hflag; [by intros [= _ <-]|].
  destruct (_transitTo _ _ _ _ _ _) as [r w1|e1 w1|] eqn:Hrun; [done| |done].
  intros [= _ <-].
  eapply (_transitTo_frame n (transitTo code n) targetState args (set_flag true w) w1);
    [apply transitTo_guarded|done|by rewrite Hrun].
Qed.

Lemma transitTo_returned_flag (fuel : nat) (targetState : string) (args : list value)
  (r : option TransitionError) (w w' : World) :
  transitTo code fuel targetState args w = Returned r w' →
  transitioning (machine w') = false.
Proof.
  destruct fuel as [|n]; [done|]. rewrite transitTo_S.
  destruct (transitioning (machine w)); [done|].
  destruct (_transitTo _ _ _ _ _ _) as [r1 w1|e1 w1|]; [|done..].
  by intros [= _ <-].
Qed.

(** *** Fuel *)

Lemma settles_refl {A} (o : outcome A) : settles o o.
Proof. by right. Qed.

Lemma settles_bind {A B} (c c' : Eff A) (k k' : A → Eff B) (w : World) :
  settles (c w) (c' w) → (∀ a w1, settles (k a w1) (k' a w1)) →
  settles (bind c k w) (bind c' k' w).
Proof.
  intros [Hc|Hc] Hk; unfold bind; rewrite Hc; [by left|].
  destruct (c' w); [apply Hk|by right..].
Qed.

Lemma walk_more_fuel (n m : nat) (this : StateMachine) (name : string)
  (acc : list value) :
  (n ≤ m)%nat → walk n this name acc = Loops ∨ walk n this name acc = walk m this name acc.
Proof.
  revert m name acc. induction n as [|n IH]; intros m name acc Hle.
  - simpl. case_bool_decide as Hname; [|by left]. right.
    subst name. by rewrite walk_initial.
  - destruct m as [|m]; [lia|]. simpl. case_bool_decide; [by right|].
    destruct (getMetadataByName this name); simpl; [|by right].
    apply IH. lia.
Qed.

Lemma make_chain_more_fuel (n m : nat) (this : StateMachine) (name : string) (v : value) :
  (n ≤ m)%nat →
  make_chain n this name v = Loops ∨ make_chain n this name v = make_chain m this name v.
Proof.
  intros Hle. unfold make_chain. case_bool_decide; [|by right].
  destruct (getMetadataByName this name); simpl; [|by right].
  by apply walk_more_fuel.
Qed.

Lemma exec_more_fuel (self self' : Method) (body : list stmt) (w : World) :
  (∀ t a w1, settles (self t a w1) (self' t a w1)) →
  settles (exec self body w) (exec self' body w).
Proof.
  intros Hself. revert w. induction body as [|s body IH]; intros w; [apply settles_refl|].
  destruct s as [t a|t a|msg|key v|name cb|name cb|ph name cb]; cbn [exec].
  - destruct (Hself t a w) as [->| ->]; [by left|].
    destruct (self' t a w); [apply IH|by right..].
  - destruct (Hself t a w) as [->| ->]; [by left|].
    destruct (self' t a w); [apply IH|apply IH|by right].
  - apply settles_refl.
  - apply settles_bind; [apply settles_refl|]. intros _ w1. apply IH.
  - apply settles_bind; [apply settles_refl|]. intros _ w1. apply IH.
  - apply settles_bind; [apply settles_refl|]. intros _ w1. apply IH.
  - apply settles_bind; [apply settles_refl|]. intros _ w1. apply IH.
Qed.

Lemma forEach_more_fuel (self self' : Method) (ph ph' : phase) (stateName : string)
  (args : list value) (k n : nat) (w : World) :
  (∀ t a w1, settles (self t a w1) (self' t a w1)) →
  settles (forEach ph' stateName (call code self ph args) k n w)
          (forEach ph' stateName (call code self' ph args) k n w).
Proof.
  intros Hself. revert k w. induction n as [|n IH]; intros k w; [apply settles_refl|].
  cbn [forEach]. destruct (_ !! k) as [cb|]; [|apply IH].
  apply settles_bind; [|intros _ w1; apply IH].
  unfold call. by apply exec_more_fuel.
Qed.

Lemma _transitTo_more_fuel (n m : nat) (self self' : Method) (targetState : string)
  (args : list value) (w : World) :
  (n ≤ m)%nat → (∀ t a w1, settles (self t a w1) (self' t a w1)) →
  settles (_transitTo code n self targetState args w)
          (_transitTo code m self' targetState args w).
Proof.
  intros Hle Hself. rewrite !_transitTo_stages. cbv zeta.
  destruct (negb _); [apply settles_refl|].
  destruct (allowed _ _) as [[|]|e|]; try apply settles_refl.
  destruct (make_chain_more_fuel n m (machine w) targetState
              (stateToApply_of (machine w) targetState) Hle) as [->| ->]; [by left|].
  destruct (make_chain m _ _ _) as [stateChain|e|]; try apply settles_refl.
  assert (settles (callLeaveCbs code self targetState w)
                  (callLeaveCbs code self' targetState w)) as [->| ->].
  { unfold callLeaveCbs. destruct (record_get _ _); try apply settles_refl.
    by apply forEach_more_fuel. }
  { by left. }
  destruct (callLeaveCbs code self' targetState w) as [[] w1|e w1|]; try apply settles_refl.
  assert (settles
            (callEnterCbs code self (currentState (store (machine w1))) targetState args
               (advance targetState (apply_chain stateChain w1)))
            (callEnterCbs code self' (currentState (store (machine w1))) targetState args
               (advance targetState (apply_chain stateChain w1)))) as [->| ->].
  { unfold callEnterCbs. destruct (record_get _ _); try apply settles_refl.
    by apply forEach_more_fuel. }
  { by left. }
  apply settles_refl.
Qed.

(** More fuel does not change what a call does. *)
Lemma transitTo_more_fuel (n m : nat) (targetState : string) (args : list value)
  (w : World) :
  (n ≤ m)%nat →
  settles (transitTo code n targetState args w) (transitTo code m targetState args w).
Proof.
  revert m targetState args w.
  induction n as [|n IH]; intros m targetState args w Hle; [by left|].
  destruct m as [|m]; [lia|]. rewrite !transitTo_S.
  destruct (transitioning (machine w)); [apply settles_refl|].
  destruct (_transitTo_more_fuel n m (transitTo code n) (transitTo code m) targetState
              args (set_flag true w)) as [->| ->]; [lia| |by left|apply settles_refl].
  intros t a w1. apply IH. lia.
Qed.

Lemma transitTo_enough_fuel (n k : nat) (targetState : string) (args : list value)
  (w : World) (o : outcome (option TransitionError)) :
  transitTo code n targetState args w = o → o ≠ Diverges →
  transitTo code (n + k) targetState args w = o.
Proof.
  intros Hrun Hends.
  destruct (transitTo_more_fuel n (n + k) targetState args w) as [Hout|Heq]; [lia| |].
  - congruence.
  - congruence.
Qed.

(** ** Failed transitions *)

(** C2.  A [transitTo] that fails a check returns the condition as a value
    and changes nothing: when the target has no truthy state on the
    instance the call returns [StateNotRegistered], when the target is not
    in the applicable list of permitted states it returns
    [InvalidTransition], in both cases with the world as it was but for the
    line [logError] may have written; and whenever a call returns a
    condition, the machine (current state, properties and all the rest) and
    the logs of callbacks are exactly as before the call. *)
Theorem C2_failed_transitTo_changes_nothing (fuel : nat) (targetState : string)
  (args : list value) (w : World) :
  transitioning (machine w) = false →
  (truthy (stateToApply_of (machine w) targetState) = false →
   transitTo code (S fuel) targetState args w
   = Returned (Some StateNotRegistered) (report (NOT_REGISTERED targetState) w)) ∧
  (∀ l, truthy (stateToApply_of (machine w) targetState) = true →
        permitted (machine w) = Some l → targetState ∉ l →
        transitTo code (S fuel) targetState args w
        = Returned (Some InvalidTransition)
            (report (NEXT_STATE_RESTRICTED (currentState (store (machine w))) targetState) w)) ∧
  (∀ fuel' e w',
     transitTo code fuel' targetState args w = Returned (Some e) w' →
     machine w' = machine w ∧ calls w' = calls w ∧ nested w' = nested w).
Proof.
  intros Hflag. split; [|split].
  - intros Htruthy. rewrite transitTo_S, Hflag, _transitTo_stages. cbv zeta.
    change (stateToApply_of (machine (set_flag true w)) targetState)
      with (stateToApply_of (machine w) targetState).
    rewrite Htruthy. cbn [negb].
    rewrite report_flag, set_flag_back_world; [done|by rewrite report_machine].
  - intros l Htruthy Hl Hnot. rewrite transitTo_S, Hflag, _transitTo_stages. cbv zeta.
    change (stateToApply_of (machine (set_flag true w)) targetState)
      with (stateToApply_of (machine w) targetState).
    change (allowed (machine (set_flag true w)) targetState)
      with (allowed (machine w) targetState).
    rewrite Htruthy, allowed_permitted, Hl. cbn [negb].
    unfold includes. rewrite bool_decide_eq_false_2 by done. cbn [negb].
    rewrite report_flag, set_flag_back_world; [done|by rewrite report_machine].
  - intros fuel' e w' Hrun.
    apply transitTo_failure in Hrun as [_ [(_ & _ & ->)|(_ & _ & _ & ->)]];
      rewrite report_flag, set_flag_back_world by (by rewrite report_machine);
      rewrite report_machine; (split; [done|apply report_logs]).
Qed.

(** ** The re-entrancy guard *)

(** A call made with the flag clear is not the guard's: what the guard
    throws, it throws in the world it found, where the flag is set. *)
Lemma transitTo_past_the_guard (fuel : nat) (targetState : string) (args : list value)
  (w : World) :
  transitioning (machine w) = false →
  transitTo code (S fuel) targetState args w
  = match _transitTo code fuel (transitTo code fuel) targetState args (set_flag true w) with
    | Returned r w' => Returned r (set_flag false w')
    | Thrown e w' => Thrown e w'
    | Diverges => Diverges
    end ∧
  transitTo code (S fuel) targetState args w ≠ Thrown RecursiveTransition w.
Proof.
  intros Hflag. split; [by rewrite transitTo_S, Hflag|].
  intros Hrun. apply transitTo_thrown_flag in Hrun. congruence.
Qed.

(** C3.  A [transitTo] called while a transition is in flight throws the
    error of the guard, which no check of [_transitTo] returns, and changes
    nothing.  During a top-level call every callback is called with the
    flag set, so every [transitTo] call a callback makes threw that error.
    When a call returns, with or without a condition, the flag is clear.
    A call made with the flag clear gets past the guard: it is the call of
    [_transitTo], made with the flag set, and it is not the guard that
    throws; so the call after one that returned is not rejected by the
    guard. *)
Theorem C3_reentrancy_guard (fuel : nat) (targetState : string) (args : list value)
  (w : World) :
  (transitioning (machine w) = true →
   ∀ t a, transitTo code (S fuel) t a w = Thrown RecursiveTransition w) ∧
  (∀ w', final_world (transitTo code fuel targetState args w) = Some w' →
         logs_extended w w') ∧
  (∀ r w', transitTo code fuel targetState args w = Returned r w' →
           transitioning (machine w') = false) ∧
  (transitioning (machine w) = false →
   ∀ t a,
     transitTo code (S fuel) t a w
     = match _transitTo code fuel (transitTo code fuel) t a (set_flag true w) with
       | Returned r w' => Returned r (set_flag false w')
       | Thrown e w' => Thrown e w'
       | Diverges => Diverges
       end ∧
     transitTo code (S fuel) t a w ≠ Thrown RecursiveTransition w) ∧
  (∀ r w', transitTo code fuel targetState args w = Returned r w' →
     ∀ fuel' t a,
       transitTo code (S fuel') t a w'
       = match _transitTo code fuel' (transitTo code fuel') t a (set_flag true w') with
         | Returned r' w2 => Returned r' (set_flag false w2)
         | Thrown e w2 => Thrown e w2
         | Diverges => Diverges
         end ∧
       transitTo code (S fuel') t a w' ≠ Thrown RecursiveTransition w').
Proof.
  split; [|split; [|split; [|split]]].
  - intros Hflag t a. by apply transitTo_in_flight.
  - intros w' Hrun. by apply transitTo_frame in Hrun as [[_ _ Hlogs] _].
  - intros r w'. apply transitTo_returned_flag.
  - intros Hflag t a. by apply transitTo_past_the_guard.
  - intros r w' Hrun fuel' t a. apply transitTo_past_the_guard.
    by eapply transitTo_returned_flag.
Qed.


(** ** The initial snapshot *)

Lemma final_world_discard {A} (c : Eff A) (w : World) :
  final_world (discard c w) = final_world (c w).
Proof. unfold discard, bind. by destruct (c w). Qed.

(** What an operation of user code does to the configuration, to the
    snapshot and to the current state. *)
Lemma run_op_keeps (fuel : nat) (o : op) (w w' : World) :
  final_world (run_op code fuel o w) = Some w' →
  configured_alike (machine w) (machine w') ∧
  (separate (machine w) →
   initialState (store (machine w')) = initialState (store (machine w))) ∧
  (currentState (store (machine w')) = currentState (store (machine w)) ∨
   ∃ targetState, currentState (store (machine w')) = targetState ∧
                  allowed (machine w) targetState = Value true).
Proof.
  destruct o as [t a|name cb|name cb|h|key v]; simpl.
  - rewrite final_world_discard. intros Hrun.
    apply transitTo_frame in Hrun as [[Hconfig Hsnap _] [Hcur|Hcur]].
    + split; [done|]. split; [done|by left].
    + split; [done|]. split; [done|right; by exists t].
  - rewrite final_world_discard. intros Hrun.
    apply registerEnterCallback_undisturbed in Hrun as [? _ ? ? _ _ _].
    split; [done|]. split; [done|by left].
  - rewrite final_world_discard. intros Hrun.
    apply registerLeaveCallback_undisturbed in Hrun as [? _ ? ? _ _ _].
    split; [done|]. split; [done|by left].
  - intros Hrun. apply drop_callback_undisturbed in Hrun as [? _ ? ? _ _ _].
    split; [done|]. split; [done|by left].
  - intros Hrun. apply set_prop_undisturbed in Hrun as [? _ ? ? _ _ _].
    split; [done|]. split; [done|by left].
Qed.

Lemma run_ops_reachable (fuel : nat) (ops : list op) (w w' : World) :
  run_ops code fuel ops w = Some w' → reachable code w w'.
Proof.
  assert (∀ w0, reachable code w0 w → run_ops code fuel ops w = Some w' →
                reachable code w0 w') as Hgen.
  { revert w. induction ops as [|o ops IH]; intros w w0 Hreach; simpl.
    - by intros [= <-].
    - destruct (final_world (run_op code fuel o w)) as [w1|] eqn:Hstep; [|done].
      apply IH. by eapply reachable_step. }
  apply Hgen. apply reachable_start.
Qed.

Lemma reachable_configured (w0 w : World) :
  reachable code w0 w → configured_alike (machine w0) (machine w).
Proof.
  induction 1 as [|w fuel o w' _ IH Hstep]; [apply configured_alike_refl|].
  apply run_op_keeps in Hstep as [Hconfig _].
  by eapply configured_alike_trans.
Qed.

(** The snapshot of a machine whose snapshot is an object of its own. *)
Lemma reachable_snapshot (w0 w : World) :
  separate (machine w0) → reachable code w0 w →
  initialState (store (machine w)) = initialState (store (machine w0)).
Proof.
  intros Hsep. induction 1 as [|w fuel o w' Hreach IH Hstep]; [done|].
  apply run_op_keeps in Hstep as (_ & Hsnap & _).
  rewrite Hsnap; [done|].
  eapply configured_alike_separate; [|done]. by apply reachable_configured.
Qed.

Lemma new_StateMachine_separate (cls : MachineClass) (opts : Options)
  (m : StateMachine) :
  new_StateMachine cls opts = inr m →
  separate m ∧ initialState (store m) = cloneDeep (opt_props opts).
Proof.
  unfold new_StateMachine. case_bool_decide; [done|]. intros [= <-].
  split; [|done]. unfold separate, cloned, passed. simpl. by intros [= ?].
Qed.


(** ** Successful transitions *)

(** The current state and the property bag after a call that returned no
    error, when callbacks leave the property bag alone. *)
Lemma transitTo_success_read_only (fuel : nat) (targetState : string)
  (args : list value) (w w' : World) :
  read_only code →
  transitTo code fuel targetState args w = Returned None w' →
  ∃ n stateChain,
    fuel = S n ∧
    make_chain n (machine w) targetState (stateToApply_of (machine w) targetState)
      = Value stateChain ∧
    currentState (store (machine w')) = targetState ∧
    props (machine w') =
      overlaid (merge (props (machine w)) (initialState (store (machine w)))) stateChain.
Proof.
  intros Hro Hrun.
  apply transitTo_success in Hrun
    as (n & stateChain & w1 & w2 & -> & Hflag & _ & _ & Hchain & Hleave & Henter & ->).
  exists n, stateChain. split; [done|]. split; [done|].
  assert (undisturbed (set_flag true w) w1) as Hu1
    by (eapply callLeaveCbs_undisturbed;
        [apply transitTo_guarded|done|by rewrite Hleave]).
  assert (transitioning (machine (advance targetState (apply_chain stateChain w1))) = true)
    as Hflag1 by (simpl; apply (undisturbed_flag _ _ Hu1)).
  assert (undisturbed (advance targetState (apply_chain stateChain w1)) w2) as Hu2
    by (eapply callEnterCbs_undisturbed;
        [apply transitTo_guarded|done|by rewrite Henter]).
  destruct (callLeaveCbs_read_only (transitTo code n) targetState (set_flag true w) w1)
    as [Hp1 Hs1]; [done|apply transitTo_guarded|done|by rewrite Hleave|].
  destruct (callEnterCbs_read_only (transitTo code n) (currentState (store (machine w1)))
              targetState args (advance targetState (apply_chain stateChain w1)) w2)
    as [Hp2 _]; [done|apply transitTo_guarded|done|by rewrite Henter|].
  split.
  - simpl. rewrite (und_current _ _ Hu2). simpl. by rewrite ?currentState_set_props.
  - simpl. rewrite Hp2. simpl. rewrite Hp1, Hs1. reflexivity.
Qed.

Lemma advance_current (targetState : string) (stateChain : list value) (w : World) :
  currentState (store (machine (advance targetState (apply_chain stateChain w))))
  = targetState.
Proof. reflexivity. Qed.

Lemma advance_onEnterCbs (targetState : string) (stateChain : list value) (w : World) :
  onEnterCbs (store (machine (advance targetState (apply_chain stateChain w))))
  = onEnterCbs (store (machine w)).
Proof. simpl. by destruct (same_object _). Qed.

Lemma advance_onLeaveCbs (targetState : string) (stateChain : list value) (w : World) :
  onLeaveCbs (store (machine (advance targetState (apply_chain stateChain w))))
  = onLeaveCbs (store (machine w)).
Proof. simpl. by destruct (same_object _). Qed.

Lemma advance_props (targetState : string) (stateChain : list value) (w : World) :
  props (machine (advance targetState (apply_chain stateChain w)))
  = overlaid (merge (props (machine w)) (initialState (store (machine w)))) stateChain.
Proof. reflexivity. Qed.

Lemma set_flag_advance_apply_chain (targetState : string) (stateChain : list value)
  (w : World) :
  transitioning (machine w) = false →
  set_transitioning false
    (machine (advance targetState (apply_chain stateChain (set_flag true w))))
  = machine (advance targetState (apply_chain stateChain w)).
Proof. destruct w as [[]]. simpl. by intros ->. Qed.

(** The machine and the log of calls after a call that returned no error,
    when callbacks leave the property bag and the arrays of callbacks
    alone. *)
Lemma transitTo_success_still (fuel : nat) (targetState : string)
  (args : list value) (w w' : World) :
  read_only code → fixed_callbacks code →
  transitTo code fuel targetState args w = Returned None w' →
  ∃ n stateChain,
    fuel = S n ∧
    make_chain n (machine w) targetState (stateToApply_of (machine w) targetState)
      = Value stateChain ∧
    machine w' = machine (advance targetState (apply_chain stateChain w)) ∧
    calls w' = calls w ++
      map (seen Leave [VStr targetState] (set_flag true w))
        (registered (onLeaveCbs (store (machine w))) (currentState (store (machine w)))) ++
      map (seen Enter (VStr (currentState (store (machine w))) :: args)
             (set_flag true w'))
        (registered (onEnterCbs (store (machine w))) targetState).
Proof.
  intros Hro Hfixed Hrun.
  apply transitTo_success in Hrun
    as (n & stateChain & w1 & w2 & -> & Hflag & _ & _ & Hchain & Hleave & Henter & ->).
  exists n, stateChain. split; [done|]. split; [done|].
  apply callLeaveCbs_still in Hleave as [Hm1 Hc1];
    [|done|done|apply transitTo_guarded|done].
  apply callEnterCbs_still in Henter as [Hm2 Hc2];
    [|done|done|apply transitTo_guarded|by simpl; rewrite Hm1].
  assert (machine w2 = machine (advance targetState (apply_chain stateChain (set_flag true w))))
    as Hm.
  { rewrite Hm2. simpl. by rewrite Hm1. }
  split.
  - change (machine (set_flag false w2)) with (set_transitioning false (machine w2)).
    rewrite Hm. by apply set_flag_advance_apply_chain.
  - simpl. rewrite Hc2. simpl. rewrite Hc1. simpl. rewrite <- app_assoc.
    f_equal. f_equal. rewrite Hm1. simpl.
    unfold seen.
    change (machine (set_flag true (set_flag false w2)))
      with (set_transitioning true (machine w2)).
    rewrite Hm. simpl. rewrite Hm1. simpl.
    by destruct (same_object _).
Qed.

Lemma make_chain_lineage (fuel : nat) (this : StateMachine) (targetState : string)
  (stateChain : list value) :
  make_chain fuel this targetState (stateToApply_of this targetState) = Value stateChain →
  (targetState = "initial" ∧ stateChain = [initialState (store this)]) ∨
  (targetState ≠ "initial" ∧
   ∃ names, lineage (metadata this) targetState names ∧
            stateChain = map (member this) names).
Proof.
  unfold make_chain, stateToApply_of.
  case_bool_decide as Htarget.
  - unfold getMetadataByName, getByName.
    destruct (metadata this !! targetState) as [d|] eqn:Hd; simpl; [|done].
    intros Hwalk. right. split; [done|].
    destruct (decide (parentState d = "initial")) as [Hroot|Hparent].
    + rewrite Hroot, walk_initial in Hwalk. injection Hwalk as <-.
      exists [targetState]. split; [by eapply lineage_root|done].
    + apply walk_lineage in Hwalk as [[Hp _]|(names & Hlin & ->)]; [done|].
      exists (names ++ [targetState]). split; [by eapply lineage_child|].
      by rewrite map_app.
  - intros [= <-]. left. split; [|done].
    by destruct (decide (targetState = "initial")).
Qed.

(** C1 (amended).  After a [transitTo] that returns no error, [currentState]
    is the target, and the property bag is the bag of before the call with
    the snapshot merged onto it and then the overlay of each state of the
    chain, from the root of the parent chain down to the target.  That is
    the snapshot overlaid with the chain when every key path of the bag of
    before the call is a key path of the snapshot.  In any case a field
    that the target sets to a value that is not an object has that value,
    and a field of the snapshot that is not an object and that no overlay
    of the chain sets has its snapshot value.  (Callbacks are taken not to
    write the property bag.) *)
Theorem C1_transitTo_applies_overlay_chain (fuel : nat) (targetState : string)
  (args : list value) (w w' : World) :
  read_only code →
  transitTo code fuel targetState args w = Returned None w' →
  currentState (store (machine w')) = targetState ∧
  ∃ overlays,
    ((targetState = "initial" ∧ overlays = [initialState (store (machine w))]) ∨
     (targetState ≠ "initial" ∧
      ∃ names, lineage (metadata (machine w)) targetState names ∧
               overlays = map (member (machine w)) names)) ∧
    props (machine w') =
      overlaid (merge (props (machine w)) (initialState (store (machine w)))) overlays ∧
    (isObject (props (machine w)) = true →
     isObject (initialState (store (machine w))) = true →
     covers (initialState (store (machine w))) (props (machine w)) = true →
     props (machine w') = overlaid (initialState (store (machine w))) overlays) ∧
    (isObject (props (machine w)) = true →
     ∀ key o v, last overlays = Some o → field key o = Some v → isObject v = false →
                field key (props (machine w')) = Some v) ∧
    (isObject (props (machine w)) = true →
     ∀ key v, field key (initialState (store (machine w))) = Some v →
              isObject v = false →
              Forall (λ o, field key o = None) overlays →
              field key (props (machine w')) = Some v).
Proof.
  intros Hro Hrun.
  apply transitTo_success_read_only in Hrun
    as (n & stateChain & _ & Hchain & Hcur & Hm); [|done].
  rewrite Hm. split; [done|]. exists stateChain.
  split; [by eapply make_chain_lineage|]. split; [done|].
  split; [|split].
  - intros Hp Hs Hcov. by rewrite merge_covered.
  - intros Hp key o v Hlast Ho Hv.
    erewrite field_overlaid_last; [|by rewrite isObject_merge|done..].
    by rewrite merge_field_scalar.
  - intros Hp key v Hs Hv Hnone.
    rewrite field_overlaid_untouched; [|by rewrite isObject_merge|done].
    rewrite field_merge, Hs by done. by rewrite merge_field_scalar.
Qed.

Lemma in_turn_fixed (self : Method) (ph : phase) (args : list value)
  (cbs : list CbId) (w w' : World) :
  fixed_callbacks code → guarded self → transitioning (machine w) = true →
  final_world (in_turn (call code self ph args) cbs w) = Some w' →
  ∀ ph0, callbacks ph0 w' = callbacks ph0 w.
Proof.
  intros Hfixed Hself. revert w.
  induction cbs as [|cb cbs IH]; intros w Hflag; cbn [in_turn].
  - by intros [= <-].
  - unfold bind.
    destruct (call code self ph args cb w) as [[] w1|e w1|] eqn:Hcall; simpl; [| |done].
    + intros Hrest ph0.
      assert (undisturbed w w1) as Hu
        by (eapply call_undisturbed; [done..|by rewrite Hcall]).
      rewrite (IH w1); [|by rewrite (und_flag _ _ Hu)|done].
      eapply call_fixed; [done..|by rewrite Hcall].
    + intros [= <-]. eapply call_fixed; [done..|by rewrite Hcall].
Qed.

Lemma callLeaveCbs_fixed (self : Method) (targetState : string) (w w' : World) :
  fixed_callbacks code → guarded self → transitioning (machine w) = true →
  final_world (callLeaveCbs code self targetState w) = Some w' →
  ∀ ph0, callbacks ph0 w' = callbacks ph0 w.
Proof.
  intros Hfixed Hself Hflag. rewrite callLeaveCbs_in_turn by done.
  destruct (record_get _ _); simpl; try (by intros [= <-]); by apply in_turn_fixed.
Qed.

Lemma callEnterCbs_fixed (self : Method) (prevState stateName : string)
  (args : list value) (w w' : World) :
  fixed_callbacks code → guarded self → transitioning (machine w) = true →
  final_world (callEnterCbs code self prevState stateName args w) = Some w' →
  ∀ ph0, callbacks ph0 w' = callbacks ph0 w.
Proof.
  intros Hfixed Hself Hflag. rewrite callEnterCbs_in_turn by done.
  destruct (record_get _ _); simpl; try (by intros [= <-]); by apply in_turn_fixed.
Qed.

(** The calls of a call that returned no error, when callbacks leave the
    arrays of callbacks alone. *)
Lemma transitTo_success_calls (fuel : nat) (targetState : string)
  (args : list value) (w w' : World) :
  fixed_callbacks code →
  transitTo code fuel targetState args w = Returned None w' →
  ∃ leaves enters,
    calls w' = calls w ++ leaves ++ enters ∧
    Forall2 (call_of Leave [VStr targetState] (currentState (store (machine w))))
      (registered (onLeaveCbs (store (machine w))) (currentState (store (machine w))))
      leaves ∧
    Forall2 (call_of Enter (VStr (currentState (store (machine w))) :: args) targetState)
      (registered (onEnterCbs (store (machine w))) targetState) enters.
Proof.
  intros Hfixed Hrun.
  apply transitTo_success in Hrun
    as (n & stateChain & w1 & w2 & -> & Hflag & _ & _ & _ & Hleave & Henter & ->).
  assert (undisturbed (set_flag true w) w1) as Hu
    by (eapply callLeaveCbs_undisturbed;
        [apply transitTo_guarded|done|by rewrite Hleave]).
  assert (onEnterCbs (store (machine w1)) = onEnterCbs (store (machine w))) as Hsame.
  { apply (callLeaveCbs_fixed (transitTo code n) targetState (set_flag true w) w1 Hfixed
             (transitTo_guarded n) eq_refl (f_equal final_world Hleave) Enter). }
  apply callLeaveCbs_calls in Hleave as (leaves & Hl & Hleaves);
    [|done|apply transitTo_guarded|done].
  apply callEnterCbs_calls in Henter as (enters & He & Henters);
    [|done|apply transitTo_guarded|by simpl; rewrite (undisturbed_flag _ _ Hu)].
  exists leaves, enters. split; [|split].
  - simpl. rewrite He. simpl. rewrite Hl. simpl. by rewrite app_assoc.
  - exact Hleaves.
  - rewrite advance_current, advance_onEnterCbs, Hsame in Henters.
    by rewrite (und_current _ _ Hu) in Henters.
Qed.

(** ** Machines whose states set only properties of the snapshot *)

(** The bag after a call, however the call ends: the bag of before the
    call, or that bag with the snapshot and the chain merged onto it. *)
Lemma transitTo_read_only_props (fuel : nat) (targetState : string)
  (args : list value) (w w' : World) :
  read_only code →
  final_world (transitTo code fuel targetState args w) = Some w' →
  props (machine w') = props (machine w) ∨
  ∃ n stateChain,
    make_chain n (machine w) targetState (stateToApply_of (machine w) targetState)
      = Value stateChain ∧
    props (machine w') =
      overlaid (merge (props (machine w)) (initialState (store (machine w)))) stateChain.
Proof.
  intros Hro. destruct fuel as [|n]; [done|]. rewrite transitTo_S.
  destruct (transitioning (machine w)) eqn:Hflag; [intros [= <-]; by left|].
  rewrite _transitTo_stages. cbv zeta.
  change (stateToApply_of (machine (set_flag true w)) targetState)
    with (stateToApply_of (machine w) targetState).
  change (allowed (machine (set_flag true w)) targetState)
    with (allowed (machine w) targetState).
  change (machine (set_flag true w)) with (set_transitioning true (machine w)).
  rewrite make_chain_flag.
  destruct (negb _).
  { cbn [final_world]. intros [= <-]. left. simpl. by rewrite report_machine. }
  destruct (allowed _ _) as [[|]|e|]; cbn [final_world]; [| |intros [= <-]; by left|done].
  2:{ intros [= <-]. left. simpl. by rewrite report_machine. }
  destruct (make_chain _ _ _ _) as [stateChain|e|] eqn:Hchain; cbn [final_world];
    [|intros [= <-]; by left|done].
  pose proof (callLeaveCbs_read_only (transitTo code n) targetState
                (set_flag true w)) as Hleave.
  pose proof (callLeaveCbs_undisturbed (transitTo code n) targetState
                (set_flag true w)) as Hu.
  destruct (callLeaveCbs _ _ _ _) as [[] w1|e w1|]; cbn [final_world]; [| |done].
  2:{ intros [= <-]. left.
      by destruct (Hleave w1 Hro (transitTo_guarded n) eq_refl eq_refl) as [-> _]. }
  destruct (Hleave w1 Hro (transitTo_guarded n) eq_refl eq_refl) as [Hp1 Hs1].
  specialize (Hu w1 (transitTo_guarded n) eq_refl eq_refl).
  pose proof (callEnterCbs_read_only (transitTo code n)
                (currentState (store (machine w1))) targetState args
                (advance targetState (apply_chain stateChain w1))) as Henter.
  assert (transitioning (machine (advance targetState (apply_chain stateChain w1))) = true)
    as Hflag1 by (simpl; apply (undisturbed_flag _ _ Hu)).
  intros Hend. right. exists n, stateChain. split; [done|].
  destruct (callEnterCbs _ _ _ _ _ _) as [[] w2|e w2|]; cbn [final_world] in *;
    [| |done]; injection Hend as <-;
    destruct (Henter w2 Hro (transitTo_guarded n) Hflag1 eq_refl) as [Hp2 _];
    [change (props (machine (set_flag false w2))) with (props (machine w2))|];
    rewrite Hp2, advance_props, Hp1, Hs1; reflexivity.
Qed.

(** What [this[name]] finds when no state field has the name is no plain
    object. *)
Lemma member_engine (this : StateMachine) (name : string) :
  members this !! name = None → isObject (member this name) = false.
Proof.
  intros Hname. unfold member. rewrite Hname.
  repeat case_bool_decide; try done.
  by destruct (isObject (props this)) eqn:Hobject.
Qed.

Lemma covers_scalar (snapshot o : value) : isObject o = false → covers snapshot o = true.
Proof. by destruct snapshot, o. Qed.

Lemma chain_covered (n : nat) (targetState : string) (stateChain : list value)
  (w : World) :
  tidy w →
  make_chain n (machine w) targetState (stateToApply_of (machine w) targetState)
    = Value stateChain →
  Forall (λ o, covers (initialState (store (machine w))) o = true) stateChain.
Proof.
  intros [_ Hs _ _ Hfields] Hchain.
  apply make_chain_lineage in Hchain as [[_ ->]|(_ & names & _ & ->)].
  - constructor; [apply covers_refl|constructor].
  - apply Forall_forall. intros o (name & -> & _)%list_elem_of_fmap.
    destruct (members (machine w) !! name) as [o|] eqn:Ho.
    + unfold member. rewrite Ho. by eapply Hfields.
    + apply covers_scalar. by apply member_engine.
Qed.

Lemma run_op_tidy (fuel : nat) (o : op) (w w' : World) :
  read_only code → op_reads o = true → tidy w →
  final_world (run_op code fuel o w) = Some w' → tidy w'.
Proof.
  intros Hro Hreads Htidy Hrun.
  assert (props (machine w') = props (machine w) ∨
          ∃ n targetState stateChain,
            make_chain n (machine w) targetState
              (stateToApply_of (machine w) targetState) = Value stateChain ∧
            props (machine w') =
              overlaid (merge (props (machine w)) (initialState (store (machine w))))
                stateChain) as Hprops.
  { destruct o as [t a|name cb|name cb|[ph name cb]|key v]; simpl in Hrun; [| | | |done].
    - rewrite final_world_discard in Hrun.
      apply transitTo_read_only_props in Hrun as [?|(n & c & ? & ?)]; [by left| |done].
      right. by exists n, t, c.
    - rewrite final_world_discard in Hrun. unfold onEnter, registerEnterCallback in Hrun.
      left. destruct (record_get _ _); simpl in Hrun; by injection Hrun as <-.
    - rewrite final_world_discard in Hrun. unfold onLeave, registerLeaveCallback in Hrun.
      left. destruct (record_get _ _); simpl in Hrun; by injection Hrun as <-.
    - left. destruct ph; simpl in Hrun; by injection Hrun as <-. }
  destruct Htidy as [Hsep Hs Hp Hbag Hfields].
  assert (tidy w) as Htidy by by split.
  apply run_op_keeps in Hrun as (Hconfig & Hsnap & _).
  specialize (Hsnap Hsep).
  pose proof (alike_members _ _ Hconfig) as Hmem.
  split; rewrite ?Hsnap, ?Hmem; try done.
  - by eapply configured_alike_separate.
  - destruct Hprops as [->|(n & t & c & _ & ->)]; [done|].
    by rewrite isObject_overlaid, isObject_merge.
  - destruct Hprops as [->|(n & t & c & Hchain & ->)]; [done|].
    apply covers_overlaid; [|by eapply chain_covered].
    apply covers_merge; [done|apply covers_refl].
Qed.

Lemma run_ops_tidy (fuel : nat) (ops : list op) (w w' : World) :
  read_only code → forallb op_reads ops = true → tidy w →
  run_ops code fuel ops w = Some w' → tidy w'.
Proof.
  intros Hro. revert w.
  induction ops as [|o ops IH]; intros w Hreads Htidy; simpl; [by intros [= <-]|].
  simpl in Hreads. apply andb_true_iff in Hreads as [Ho Hreads].
  destruct (final_world (run_op code fuel o w)) as [w1|] eqn:Hstep; [|done].
  apply IH; [done|]. by eapply run_op_tidy.
Qed.

Lemma new_world_tidy (cls : MachineClass) (opts : Options) (m : StateMachine) :
  new_StateMachine cls opts = inr m →
  isObject (opt_props opts) = true →
  map_Forall (λ _ o, covers (opt_props opts) o = true) (cls_fields cls) →
  tidy (new_world m).
Proof.
  intros Hnew. destruct (new_StateMachine_separate _ _ _ Hnew) as [Hsep _].
  revert Hnew Hsep.
  unfold new_StateMachine. case_bool_decide; [done|]. intros [= <-] Hsep Hobj Hfields.
  split; simpl; rewrite ?cloneDeep_id; try done. apply covers_refl.
Qed.

(** Where the specification is right about the bag: on a machine whose
    state fields set only key paths of the initial properties, with
    callbacks and user code that do not write the bag, the bag after a
    [transitTo] that returns no error is the snapshot overlaid with the
    chain of the target. *)
Lemma overlay_on_tidy_machines (cls : MachineClass) (opts : Options) (m : StateMachine)
  (fuel fuel' : nat) (ops : list op) (targetState : string) (args : list value)
  (w w' : World) (names : list string) :
  read_only code →
  new_StateMachine cls opts = inr m →
  isObject (opt_props opts) = true →
  map_Forall (λ _ o, covers (opt_props opts) o = true) (cls_fields cls) →
  forallb op_reads ops = true →
  run_ops code fuel ops (new_world m) = Some w →
  transitTo code fuel' targetState args w = Returned None w' →
  lineage (metadata (machine w)) targetState names →
  targetState ≠ "initial" →
  currentState (store (machine w')) = targetState ∧
  props (machine w') =
    overlaid (initialState (store (machine w))) (map (member (machine w)) names).
Proof.
  intros Hro Hnew Hobj Hfields Hreads Hops Hrun Hlineage Htarget.
  assert (tidy w) as [_ Hs Hp Hbag _].
  { eapply run_ops_tidy; [done..| |done]. by eapply new_world_tidy. }
  apply transitTo_success_read_only in Hrun
    as (n & stateChain & _ & Hchain & Hcur & Hm); [|done].
  rewrite Hm. split; [done|]. rewrite merge_covered by done.
  apply make_chain_lineage in Hchain as [[? _]|(_ & names' & Hlineage' & ->)]; [done|].
  by rewrite (lineage_unique _ _ _ _ Hlineage Hlineage').
Qed.

(** ** Logging *)

(** A call made while a transition is in flight does the same whatever
    [logging] and the console are. *)
Lemma transitTo_in_flight_relog (fuel : nat) (targetState : string) (args : list value)
  (b : bool) (out : list string) (w : World) :
  transitioning (machine w) = true →
  transitTo code fuel targetState args (relog b out w)
  = map_world (relog b out) (transitTo code fuel targetState args w).
Proof.
  intros Hflag. destruct fuel as [|fuel]; [done|].
  by rewrite !transitTo_in_flight.
Qed.

Section Relog.

Variable self : Method.
Hypothesis self_guarded : guarded self.
Hypothesis self_relog :
  ∀ targetState args b out w,
    transitioning (machine w) = true →
    self targetState args (relog b out w)
    = map_world (relog b out) (self targetState args w).

Local Ltac relog_step IH :=
  match goal with
  | |- exec _ _ ?w1 = map_world (relog ?b ?out) (exec _ _ ?w2) =>
      change w1 with (relog b out w2); apply IH; done
  end.

(** Callbacks print nothing and do not read [logging]. *)
Lemma exec_relog (body : list stmt) (b : bool) (out : list string) (w : World) :
  transitioning (machine w) = true →
  exec self body (relog b out w) = map_world (relog b out) (exec self body w).
Proof.
  revert w. induction body as [|s body IH]; intros w Hflag; [done|].
  destruct s as [t a|t a|msg|key v|name cb|name cb|ph name cb]; cbn [exec].
  - rewrite self_relog by done.
    destruct (self_guarded t a w Hflag) as [->| ->]; [done|]. reflexivity.
  - rewrite self_relog by done.
    destruct (self_guarded t a w Hflag) as [->| ->]; [done|]. simpl.
    apply (IH (log_nested (NestedThrew RecursiveTransition) w)). done.
  - done.
  - unfold bind, set_prop. simpl.
    destruct (props (machine w)) as [| | | | |fields|what] eqn:Hprops; simpl; try done.
    + apply (IH (set_machine (set_props (VObj (<[key:=v]> fields)) (machine w)) w)).
      exact Hflag.
    + by apply (IH w).
  - unfold bind, registerEnterCallback. simpl.
    destruct (record_get _ _); simpl; [|done|]; relog_step IH.
  - unfold bind, registerLeaveCallback. simpl.
    destruct (record_get _ _); simpl; [|done|]; relog_step IH.
  - unfold bind. destruct ph; simpl; relog_step IH.
Qed.

Lemma call_relog (ph : phase) (args : list value) (cb : CbId) (b : bool)
  (out : list string) (w : World) :
  transitioning (machine w) = true →
  call code self ph args cb (relog b out w)
  = map_world (relog b out) (call code self ph args cb w).
Proof.
  intros Hflag. unfold call.
  apply (exec_relog (code cb) b out (log_call (seen ph args w cb) w)). done.
Qed.

Lemma forEach_relog (ph ph' : phase) (stateName : string) (args : list value)
  (k n : nat) (b : bool) (out : list string) (w : World) :
  transitioning (machine w) = true →
  forEach ph' stateName (call code self ph args) k n (relog b out w)
  = map_world (relog b out) (forEach ph' stateName (call code self ph args) k n w).
Proof.
  revert k w. induction n as [|n IH]; intros k w Hflag; [done|]. cbn [forEach].
  change (callbacks ph' (relog b out w)) with (callbacks ph' w).
  destruct (registered (callbacks ph' w) stateName !! k) as [cb|]; [|by apply IH].
  unfold bind. rewrite call_relog by done.
  pose proof (call_undisturbed self ph args cb w) as Hu.
  destruct (call code self ph args cb w) as [[] w1|e w1|]; simpl; [|done..].
  apply IH. by rewrite (und_flag _ _ (Hu w1 self_guarded Hflag eq_refl)).
Qed.

Lemma callLeaveCbs_relog (targetState : string) (b : bool) (out : list string)
  (w : World) :
  transitioning (machine w) = true →
  callLeaveCbs code self targetState (relog b out w)
  = map_world (relog b out) (callLeaveCbs code self targetState w).
Proof.
  intros Hflag. unfold callLeaveCbs. simpl.
  destruct (record_get _ _); [|done..]. by apply forEach_relog.
Qed.

Lemma callEnterCbs_relog (prevState stateName : string) (args : list value) (b : bool)
  (out : list string) (w : World) :
  transitioning (machine w) = true →
  callEnterCbs code self prevState stateName args (relog b out w)
  = map_world (relog b out) (callEnterCbs code self prevState stateName args w).
Proof.
  intros Hflag. unfold callEnterCbs. simpl.
  destruct (record_get _ _); [|done..]. by apply forEach_relog.
Qed.

End Relog.

(** [this[name]] reads [logging] only for the name [logging]. *)
Lemma member_logging (b : bool) (this : StateMachine) (name : string) :
  name ≠ "logging" → member (set_logging b this) name = member this name.
Proof.
  intros Hname. unfold member. simpl.
  destruct (members this !! name); [done|].
  repeat case_bool_decide; done.
Qed.

Lemma walk_logging (fuel : nat) (b : bool) (this : StateMachine) (name : string)
  (acc : list value) :
  metadata this !! "logging" = None →
  walk fuel (set_logging b this) name acc = walk fuel this name acc.
Proof.
  intros Hnone. revert name acc.
  induction fuel as [|fuel IH]; intros name acc; simpl; [done|].
  case_bool_decide; [done|].
  unfold getMetadataByName, getByName. simpl.
  destruct (metadata this !! name) as [d|] eqn:Hd; simpl; [|done].
  rewrite member_logging by congruence. apply IH.
Qed.

Lemma make_chain_logging (fuel : nat) (b : bool) (this : StateMachine) (name : string)
  (v : value) :
  metadata this !! "logging" = None →
  make_chain fuel (set_logging b this) name v = make_chain fuel this name v.
Proof.
  intros Hnone. unfold make_chain. case_bool_decide; [|done].
  unfold getMetadataByName. simpl.
  destruct (getByName (metadata this) name); simpl; [by apply walk_logging|done].
Qed.

Lemma set_logging_same (m : StateMachine) : set_logging (logging m) m = m.
Proof. by destruct m. Qed.

(** With another [logging] and another console, a call returns or throws
    the same, and leaves the same world but for the console: when the
    target is not named [logging] and no state is declared by that name, or
    when [logging] is the same. *)
Lemma transitTo_relog (fuel : nat) (targetState : string) (args : list value)
  (b : bool) (out : list string) (w : World) :
  b = logging (machine w) ∨
  (targetState ≠ "logging" ∧ metadata (machine w) !! "logging" = None) →
  ∃ out', transitTo code fuel targetState args (relog b out w)
          = map_world (relog b out') (transitTo code fuel targetState args w).
Proof.
  intros Hcase. destruct fuel as [|fuel]; [by exists out|].
  rewrite !transitTo_S.
  change (transitioning (machine (relog b out w))) with (transitioning (machine w)).
  destruct (transitioning (machine w)) eqn:Hflag; [by exists out|].
  change (set_flag true (relog b out w)) with (relog b out (set_flag true w)).
  rewrite !_transitTo_stages. cbv zeta.
  change (machine (relog b out (set_flag true w)))
    with (set_logging b (machine (set_flag true w))).
  assert (stateToApply_of (set_logging b (machine (set_flag true w))) targetState
          = stateToApply_of (machine (set_flag true w)) targetState ∧
          make_chain fuel (set_logging b (machine (set_flag true w))) targetState
            (stateToApply_of (machine (set_flag true w)) targetState)
          = make_chain fuel (machine (set_flag true w)) targetState
              (stateToApply_of (machine (set_flag true w)) targetState)) as [-> Hchain].
  { destruct Hcase as [->|[Htarget Hnone]].
    - change (logging (machine w)) with (logging (machine (set_flag true w))).
      by rewrite set_logging_same.
    - split.
      + unfold stateToApply_of. by rewrite member_logging.
      + by apply make_chain_logging. }
  change (allowed (set_logging b (machine (set_flag true w))) targetState)
    with (allowed (machine (set_flag true w)) targetState).
  change (currentState (store (set_logging b (machine (set_flag true w)))))
    with (currentState (store (machine (set_flag true w)))).
  destruct (negb _).
  { simpl. unfold report. simpl. destruct b, (logging (machine w)); by eexists. }
  destruct (allowed _ _) as [[|]|e|]; [| |by exists out..].
  2:{ simpl. unfold report. simpl. destruct b, (logging (machine w)); by eexists. }
  rewrite Hchain. clear Hchain.
  destruct (make_chain _ _ _ _) as [stateChain|e|]; [|by exists out..].
  exists out.
  rewrite (callLeaveCbs_relog (transitTo code fuel) (transitTo_guarded fuel)
             (transitTo_in_flight_relog fuel)) by done.
  pose proof (callLeaveCbs_undisturbed (transitTo code fuel) targetState
                (set_flag true w)) as Hu.
  destruct (callLeaveCbs code (transitTo code fuel) targetState (set_flag true w))
    as [[] w1|e w1|]; simpl; [|done..].
  specialize (Hu w1 (transitTo_guarded fuel) eq_refl eq_refl).
  change (advance targetState (apply_chain stateChain (relog b out w1)))
    with (relog b out (advance targetState (apply_chain stateChain w1))).
  rewrite (callEnterCbs_relog (transitTo code fuel) (transitTo_guarded fuel)
             (transitTo_in_flight_relog fuel))
    by (simpl; apply (undisturbed_flag _ _ Hu)).
  by destruct (callEnterCbs code (transitTo code fuel) (currentState (store (machine w1)))
                 targetState args (advance targetState (apply_chain stateChain w1)))
       as [[] w2|e w2|].
Qed.

(** ** The initial state as a target *)

Lemma allowed_listed (this : StateMachine) (targetState : string) :
  allowed this targetState = Value true →
  ∃ l, permitted this = Some l ∧ targetState ∈ l.
Proof.
  rewrite allowed_permitted. destruct (permitted this) as [l|]; [|done].
  unfold includes. case_bool_decide; [|done]. intros _. by exists l.
Qed.

Lemma permitted_unlisted (this : StateMachine) (l : list string) :
  initial_unlisted this → permitted this = Some l → "initial" ∉ l.
Proof.
  intros [Hinit Hto]. unfold permitted.
  destruct (isInitialState _); [by intros [= <-]|].
  unfold getMetadataByName, getByName.
  destruct (metadata this !! currentState (store this)) as [d|] eqn:Hd; [|done].
  intros [= <-]. by eapply Hto.
Qed.

Lemma initial_unlisted_alike (m m' : StateMachine) :
  configured_alike m m' → initial_unlisted m → initial_unlisted m'.
Proof. intros [_ Hd Hi _ _ _] [Hinit Hto]. split; by rewrite ?Hd, ?Hi. Qed.

(** C6 (amended).  [transitTo('initial')] returns no error only when
    ['initial'] is in the applicable list of permitted states.  On a
    machine where neither [initialTransitions] nor the [to] of any declared
    state names ['initial'], no such call succeeds in any world user code
    can reach, and a machine that has left the initial state is never in it
    again. *)
Theorem C6_initial_is_a_target_only_when_listed (w : World) :
  (∀ fuel args w',
     transitTo code fuel "initial" args w = Returned None w' →
     ∃ l, permitted (machine w) = Some l ∧ "initial" ∈ l) ∧
  (initial_unlisted (machine w) →
   ∀ w1, reachable code w w1 →
     (∀ fuel args w2, transitTo code fuel "initial" args w1 ≠ Returned None w2) ∧
     (currentState (store (machine w)) ≠ "initial" →
      currentState (store (machine w1)) ≠ "initial")).
Proof.
  assert (∀ w0 fuel args w',
            transitTo code fuel "initial" args w0 = Returned None w' →
            ∃ l, permitted (machine w0) = Some l ∧ "initial" ∈ l) as Hlisted.
  { intros w0 fuel args w' Hrun.
    apply transitTo_success in Hrun as (n & c & w1 & w2 & _ & _ & _ & Hallowed & _).
    by apply allowed_listed. }
  split; [apply Hlisted|].
  intros Hunlisted w1 Hreach. split.
  - intros fuel args w2 Hrun. apply Hlisted in Hrun as (l & Hl & Hin).
    eapply permitted_unlisted in Hl; [done|].
    eapply initial_unlisted_alike; [|done]. by apply reachable_configured.
  - induction Hreach as [|w1 fuel o w2 Hreach IH Hstep]; [done|].
    intros Hleft. specialize (IH Hleft).
    apply run_op_keeps in Hstep as (_ & _ & [->|(t & -> & Hallowed)]); [done|].
    apply allowed_listed in Hallowed as (l & Hl & Hin).
    intros ->. eapply permitted_unlisted in Hl; [done|].
    eapply initial_unlisted_alike; [|done]. by apply reachable_configured.
Qed.

(** ** Removing callbacks *)

Lemma indexOf_from_first (i : Z) (cbs : list CbId) (cb : CbId) :
  cb ∈ cbs →
  ∃ before after,
    cbs = before ++ (cb :: after) ∧ (cb ∉ before) ∧
    indexOf_from i cbs cb = (i + Z.of_nat (length before))%Z.
Proof.
  revert i. induction cbs as [|x cbs IH]; intros i Hin; [by apply elem_of_nil in Hin|].
  simpl. case_bool_decide as Hx.
  - subst x. exists [], cbs. split; [done|]. split; [apply not_elem_of_nil|]. simpl. lia.
  - apply elem_of_cons in Hin as [->|Hin]; [done|].
    destruct (IH (i + 1)%Z Hin) as (before & after & -> & Hnot & Hidx).
    exists (x :: before), after. split; [done|]. split.
    + intros [->|?]%elem_of_cons; [done|by apply Hnot].
    + rewrite Hidx. simpl. lia.
Qed.

Lemma splice1_middle (before after : list CbId) (cb : CbId) :
  splice1 (before ++ cb :: after) (Z.of_nat (length before)) = before ++ after.
Proof.
  unfold splice1.
  assert ((Z.of_nat (length before) <? 0)%Z = false) as -> by (apply Z.ltb_ge; lia).
  rewrite Z.min_l by (rewrite length_app; simpl; lia).
  rewrite Nat2Z.id, take_app_length. f_equal.
  change (cb :: after) with ([cb] ++ after). rewrite app_assoc.
  apply drop_app_length'. rewrite length_app. simpl. lia.
Qed.

Lemma register_handle (ph : phase) (stateName : string) (cb : CbId) (h : handle)
  (w w1 : World) :
  register ph stateName cb w = Returned h w1 → h = Handle ph stateName cb.
Proof.
  destruct ph; simpl; unfold onEnter, onLeave, registerEnterCallback,
    registerLeaveCallback; destruct (record_get _ _); by intros [= <- _].
Qed.

(** C8 (amended).  The handle of a registration of [cb] for a state and a
    phase, called while [cb] is in the array of that state, removes the
    first [cb] of the array, which is the registered one when [cb] is
    registered once; the other entries of the array keep their order, and
    the arrays of the other states, the callbacks of the other phase and
    the rest of the machine are as they were. *)
Theorem C8_handle_removes_first_occurrence (ph : phase) (stateName : string)
  (cb : CbId) (w : World) :
  cb ∈ registered (callbacks ph w) stateName →
  ∃ w' before after,
    drop_callback (Handle ph stateName cb) w = Returned tt w' ∧
    registered (callbacks ph w) stateName = before ++ cb :: after ∧
    (cb ∉ before) ∧
    registered (callbacks ph w') stateName = before ++ after ∧
    (∀ name, name ≠ stateName →
             registered (callbacks ph w') name = registered (callbacks ph w) name) ∧
    callbacks (other ph) w' = callbacks (other ph) w ∧
    props (machine w') = props (machine w) ∧
    currentState (store (machine w')) = currentState (store (machine w)) ∧
    initialState (store (machine w')) = initialState (store (machine w)) ∧
    transitioning (machine w') = transitioning (machine w).
Proof.
  intros Hin.
  destruct (indexOf_from_first 0 _ _ Hin) as (before & after & Hsplit & Hnot & Hidx).
  assert (callbacks ph w !! stateName = Some (before ++ cb :: after)) as Hlookup.
  { unfold registered in Hsplit, Hin.
    destruct (callbacks ph w !! stateName) as [l|]; simpl in *; [by subst|].
    by apply elem_of_nil in Hin. }
  assert (splice1 (before ++ cb :: after) (indexOf (before ++ cb :: after) cb)
          = before ++ after) as Hsplice.
  { unfold indexOf. rewrite <- Hsplit, Hidx, Hsplit. apply splice1_middle. }
  destruct ph; (eexists _, before, after; split; [reflexivity|]);
    (split; [done|]); (split; [done|]); simpl in *; unfold registered;
    (split; [by rewrite lookup_alter_eq, Hlookup; simpl; rewrite Hsplice|]);
    (split; [|done]); intros name Hname; by rewrite lookup_alter_ne.
Qed.

End EngineProperties.

(** * The machines of the examples and tests *)

Lemma watch_code_read_only : read_only watch_code.
Proof. intros [|[|cb]]; reflexivity. Qed.

Lemma no_code_read_only : read_only no_code.
Proof. intros cb. reflexivity. Qed.

Lemma watch_code_fixed : fixed_callbacks watch_code.
Proof. intros [|[|cb]]; reflexivity. Qed.

Lemma no_code_fixed : fixed_callbacks no_code.
Proof. intros cb. reflexivity. Qed.

(** ** The tests of the repository, on the model *)

(** "must correct extend state" *)
Example test_extend_state :
  props (machine test_success)
  = obj [("text", VStr "done");
         ("alert", obj [("text", VStr "success"); ("visible", VBool true)])].
Proof. vm_compute. reflexivity. Qed.

(** "initial state is immutable" *)
Example test_initial_state_is_immutable :
  let w := run no_code [OpTransitTo "mainState" []; OpTransitTo "requestState" [];
                        OpTransitTo "successState" []; OpTransitTo "mainState" [];
                        OpTransitTo "requestState" []] test_new in
  currentState (store (machine w)) = "requestState" ∧
  field "alert" (props (machine w))
  = Some (obj [("text", VStr "alert"); ("visible", VBool false)]).
Proof. split; vm_compute; reflexivity. Qed.

(** "must not transit to incorrect state" *)
Example test_incorrect_state :
  transitTo no_code 2 "mainState" []
    (run no_code [OpTransitTo "mainState" []; OpTransitTo "requestState" []] test_new)
  = Returned (Some InvalidTransition)
      (run no_code [OpTransitTo "mainState" []; OpTransitTo "requestState" []] test_new).
Proof. vm_compute. reflexivity. Qed.

(** "must not transit to unregistered state from initial" *)
Example test_unregistered_state :
  transitTo no_code 2 "foobar" [] test_new = Returned (Some StateNotRegistered) test_new.
Proof. vm_compute. reflexivity. Qed.

(** ".can() correct" and ".transitions() correct" *)
Example test_can_and_transitions :
  can (machine test_new) "mainState" = Value true ∧
  can (machine test_new) "requestState" = Value false ∧
  transitions (machine test_new) = Value ["mainState"] ∧
  transitions (machine test_request) = Value ["successState"; "errorState"].
Proof. split_and!; vm_compute; reflexivity. Qed.

(** "should fail when trying to trigger transition from onEnter callback":
    the call the enter callback of [mainState] makes throws the error of
    the guard, and the transition goes through. *)
Example test_transition_from_callback :
  currentState (store (machine test_main)) = "mainState" ∧
  nested test_main = [NestedThrew RecursiveTransition].
Proof. split; vm_compute; reflexivity. Qed.

(** ".onEnter() unregister correct and dont touch another callbacks" *)
Example test_unregister :
  registered
    (callbacks Enter
       (run no_code [OpOnEnter "mainState" 0; OpOnEnter "mainState" 1;
                     OpDrop (Handle Enter "mainState" 0)] test_new)) "mainState"
  = [1].
Proof. vm_compute. reflexivity. Qed.

(** A handle called a second time: its callback is no longer in the array,
    [indexOf] gives -1 and [splice(-1, 1)] removes the last entry. *)
Example handle_called_twice :
  registered
    (callbacks Enter
       (run no_code [OpOnEnter "mainState" 0; OpOnEnter "mainState" 1;
                     OpDrop (Handle Enter "mainState" 0);
                     OpDrop (Handle Enter "mainState" 0)] test_new)) "mainState"
  = [].
Proof. vm_compute. reflexivity. Qed.

(** [this['props']] is the property bag, which is truthy: the target gets
    past the first check and fails the second. *)
Example transitTo_props_is_restricted :
  truthy (stateToApply_of (machine test_new) "props") = true ∧
  transitTo no_code 2 "props" [] test_new = Returned (Some InvalidTransition) test_new.
Proof. split; vm_compute; reflexivity. Qed.

(** [this['toString']] is a method of [Object.prototype]: listed among the
    initial transitions, the target gets past both checks, and the walk up
    its parents throws; nobody clears the flag. *)
Example transitTo_listed_method_throws :
  transitTo no_code 2 "toString" [] listed_new
  = Thrown (TypeError "Cannot read properties of undefined") (set_flag true listed_new).
Proof. vm_compute. reflexivity. Qed.

(** ** The test machine: witnesses *)

(** [requestState] to [successState], whose chain is [mainState],
    [doneState], [successState]. *)
Lemma C1_witness :
  read_only watch_code ∧
  transitTo watch_code 4 "successState" [] test_request = Returned None test_success ∧
  currentState (store (machine test_success)) = "successState" ∧
  ∃ overlays,
    props (machine test_success)
    = overlaid (merge (props (machine test_request))
                  (initialState (store (machine test_request)))) overlays.
Proof.
  assert (read_only watch_code) as Hro by exact watch_code_read_only.
  assert (transitTo watch_code 4 "successState" [] test_request
          = Returned None test_success) as Hrun by (vm_compute; reflexivity).
  split; [exact Hro|]. split; [exact Hrun|].
  destruct (C1_transitTo_applies_overlay_chain watch_code 4 "successState" []
              test_request test_success Hro Hrun) as (Hcur & overlays & _ & Hprops & _).
  split; [exact Hcur|]. exists overlays. exact Hprops.
Defined.

(** An unregistered target, from the initial state. *)
Lemma C2_witness :
  transitioning (machine test_hooked) = false ∧
  truthy (stateToApply_of (machine test_hooked) "foobar") = false ∧
  transitTo watch_code 1 "foobar" [] test_hooked
  = Returned (Some StateNotRegistered) (report (NOT_REGISTERED "foobar") test_hooked).
Proof.
  assert (transitioning (machine test_hooked) = false) as Hflag by reflexivity.
  assert (truthy (stateToApply_of (machine test_hooked) "foobar") = false) as Hnone
    by (vm_compute; reflexivity).
  split; [exact Hflag|]. split; [exact Hnone|].
  exact (proj1 (C2_failed_transitTo_changes_nothing watch_code 0 "foobar" []
                  test_hooked Hflag) Hnone).
Defined.

(** The enter callback 1 of [mainState] tries a transition; the call after
    the one that returned is not rejected. *)
Lemma C3_witness :
  transitTo watch_code 4 "mainState" [VNum 2] test_hooked = Returned None test_main ∧
  logs_extended test_hooked test_main ∧
  transitioning (machine test_main) = false ∧
  transitTo watch_code 4 "requestState" [] test_main
  ≠ Thrown RecursiveTransition test_main ∧
  transitTo watch_code 4 "requestState" [] test_main = Returned None test_request.
Proof.
  assert (transitTo watch_code 4 "mainState" [VNum 2] test_hooked
          = Returned None test_main) as Hrun by (vm_compute; reflexivity).
  split; [exact Hrun|].
  destruct (C3_reentrancy_guard watch_code 4 "mainState" [VNum 2] test_hooked)
    as (_ & Hlogs & Hclear & _ & Hnext).
  split; [|split; [|split]].
  - apply Hlogs. rewrite Hrun. reflexivity.
  - exact (Hclear None test_main Hrun).
  - exact (proj2 (Hnext None test_main Hrun 3 "requestState" [])).
  - vm_compute. reflexivity.
Defined.


(** What the copy is for: were the snapshot the object [this.props], the
    first transition would write it. *)
Example uncopied_snapshot_is_written :
  initialState_ref (store (machine uncopied_new)) = Some (props_ref (machine uncopied_new)) ∧
  field "message" (initialState (store (machine uncopied_new))) = Some (VStr "OFF") ∧
  transitTo no_code 4 "Green" [] uncopied_new = Returned None uncopied_green ∧
  field "message" (initialState (store (machine uncopied_green))) = Some (VStr "GO").
Proof. split_and!; vm_compute; reflexivity. Qed.

(** No state of the test machine lists the initial state. *)
Lemma C6_witness :
  initial_unlisted (machine test_new) ∧
  reachable watch_code test_new test_success ∧
  transitTo watch_code 4 "initial" [] test_success
  ≠ Returned None (run watch_code [OpTransitTo "initial" []] test_success).
Proof.
  assert (initial_unlisted (machine test_new)) as Hunlisted.
  { split; refine (bool_decide_unpack _ _); vm_compute; exact I. }
  assert (reachable watch_code test_new test_success) as Hreach.
  { apply (run_ops_reachable watch_code 4
             [OpOnLeave "initial" 0; OpOnEnter "mainState" 1; OpOnEnter "mainState" 0;
              OpTransitTo "mainState" [VNum 2]; OpTransitTo "requestState" [];
              OpTransitTo "successState" []]).
    vm_compute. reflexivity. }
  split; [exact Hunlisted|]. split; [exact Hreach|].
  exact (proj1 (proj2 (C6_initial_is_a_target_only_when_listed watch_code test_new)
                  Hunlisted test_success Hreach) 4 [] _).
Defined.

(** Callback 0 is registered twice for entering [mainState]. *)
Lemma C8_witness :
  0 ∈ registered (callbacks Enter (snd twice_hooked)) "mainState" ∧
  ∃ w' before after,
    drop_callback (Handle Enter "mainState" 0) (snd twice_hooked) = Returned tt w' ∧
    registered (callbacks Enter (snd twice_hooked)) "mainState" = before ++ 0 :: after ∧
    (0 ∉ before) ∧
    registered (callbacks Enter w') "mainState" = before ++ after.
Proof.
  assert (0 ∈ registered (callbacks Enter (snd twice_hooked)) "mainState") as Hin
    by (refine (bool_decide_unpack _ _); vm_compute; exact I).
  split; [exact Hin|].
  destruct (C8_handle_removes_first_occurrence Enter "mainState" 0 (snd twice_hooked) Hin)
    as (w' & before & after & Hdrop & Hsplit & Hnot & Hrest & _).
  exists w', before, after. repeat split; assumption.
Defined.


(** ** A property only one state sets *)

(** C1, as stated, fails on [Optional]: after [transitTo('A')] and then
    [transitTo('B')] the property [b] that [A] set is still in the bag,
    though neither the snapshot nor the overlay of [B] has it. *)
Lemma C1_counterexample : ¬ overlay_claim.
Proof.
  intros Hclaim.
  assert (reachable no_code optional_new optional_A) as Hreach.
  { apply (run_ops_reachable no_code 4 [OpTransitTo "A" []]). vm_compute. reflexivity. }
  assert (transitTo no_code 4 "B" [] optional_A = Returned None optional_B) as Hrun
    by (vm_compute; reflexivity).
  assert (lineage (metadata (machine optional_A)) "B" ["B"]) as Hlineage.
  { apply (lineage_root _ "B" (declare "initial" ["A"])); [|reflexivity].
    vm_compute. reflexivity. }
  destruct (Hclaim no_code Optional Optional_opts _ optional_A 4 "B" [] optional_B ["B"]
              no_code_read_only eq_refl Hreach Hrun Hlineage) as [_ Hprops].
  vm_compute in Hprops. discriminate Hprops.
Qed.

(** ** A state that lists the initial state *)

(** C6, as stated, fails on [Resettable]: its state [On] lists ['initial']
    among its next states, and [transitTo('initial')] from [On] returns no
    error. *)
Lemma C6_counterexample : ¬ initial_claim.
Proof.
  intros Hclaim.
  assert (reachable no_code resettable_new resettable_on) as Hreach.
  { apply (run_ops_reachable no_code 4 [OpTransitTo "On" []]). vm_compute. reflexivity. }
  apply (Hclaim no_code Resettable Resettable_opts _ resettable_on 4 []
           (run no_code [OpTransitTo "initial" []] resettable_on) eq_refl Hreach).
  vm_compute. reflexivity.
Qed.

(** ** The traffic light *)

Lemma traffic_run (fuel : nat) :
  transitTo no_code (2 + fuel) "Green" [] traffic_new = Returned None traffic_green ∧
  transitTo no_code (2 + fuel) "Orange" [] traffic_green = Returned None traffic_orange ∧
  transitTo no_code (2 + fuel) "Red" [] traffic_orange = Returned None traffic_red.
Proof.
  split_and!; (apply transitTo_enough_fuel; [vm_compute; reflexivity|discriminate]).
Qed.

(** C7, as stated, fails: [Orange] lists [Red] among its next states, so
    the third call returns no error. *)
Lemma C7_counterexample : ¬ traffic_claim.
Proof.
  intros (fuel & w1 & w2 & w3 & Hgreen & _ & Horange & _ & Hred & _).
  destruct (traffic_run fuel) as (Hgreen' & Horange' & Hred').
  apply (transitTo_enough_fuel no_code fuel 2) in Hgreen; [|discriminate].
  replace (fuel + 2) with (2 + fuel) in Hgreen by lia.
  rewrite Hgreen' in Hgreen. injection Hgreen as <-.
  apply (transitTo_enough_fuel no_code fuel 2) in Horange; [|discriminate].
  replace (fuel + 2) with (2 + fuel) in Horange by lia.
  rewrite Horange' in Horange. injection Horange as <-.
  apply (transitTo_enough_fuel no_code fuel 2) in Hred; [|discriminate].
  replace (fuel + 2) with (2 + fuel) in Hred by lia.
  rewrite Hred' in Hred. discriminate Hred.
Qed.

(** C7 (amended).  On the traffic light, [transitTo(Green)] and then
    [transitTo(Orange)] return no error and give the properties
    [{message: "GO", safe: true}] and then [{message: "CAUTION", safe:
    false}]; the following [transitTo(Red)] returns no error too, and gives
    [{message: "STOP", safe: false}] in state [Red]. *)
Theorem C7_traffic_light_run (fuel : nat) :
  transitTo no_code (2 + fuel) "Green" [] traffic_new = Returned None traffic_green ∧
  props (machine traffic_green) = obj [("message", VStr "GO"); ("safe", VBool true)] ∧
  transitTo no_code (2 + fuel) "Orange" [] traffic_green = Returned None traffic_orange ∧
  props (machine traffic_orange) = obj [("message", VStr "CAUTION"); ("safe", VBool false)] ∧
  transitTo no_code (2 + fuel) "Red" [] traffic_orange = Returned None traffic_red ∧
  props (machine traffic_red) = obj [("message", VStr "STOP"); ("safe", VBool false)] ∧
  currentState (store (machine traffic_red)) = "Red".
Proof.
  split_and!;
    try (apply transitTo_enough_fuel; [vm_compute; reflexivity|discriminate]);
    vm_compute; reflexivity.
Qed.

(** C9.  The constructor turns logging on for every [logging] that is not
    [undefined]: built with [logging: false], the traffic light has its
    [logging] field true, and a failed [transitTo] writes its message to
    the console; built without [logging], it has the field false. *)
Theorem C9_logging_false_turns_logging_on (fuel : nat) :
  logging (machine_of TrafficLight (TrafficLight_opts (Some false))) = true ∧
  transitTo no_code (1 + fuel) "Blue" []
    (new_world (machine_of TrafficLight (TrafficLight_opts (Some false))))
  = Returned (Some StateNotRegistered)
      (console_error "No state 'Blue' for navigation registered"
         (new_world (machine_of TrafficLight (TrafficLight_opts (Some false))))) ∧
  logging (machine_of TrafficLight (TrafficLight_opts None)) = false.
Proof.
  split_and!;
    try (apply transitTo_enough_fuel; [vm_compute; reflexivity|discriminate]);
    vm_compute; reflexivity.
Qed.

(** ** Callbacks registered twice *)

(** C8, as stated, fails when a callback is registered twice: with 0, 1, 0
    registered for entering a state, the handle of the third registration
    removes the first entry and leaves 1, 0, not 0, 1. *)
Lemma C8_counterexample : ¬ deregistration_claim.
Proof.
  intros Hclaim.
  specialize (Hclaim Enter "mainState" [0; 1; 0] test_new (fst twice_hooked)
                (snd twice_hooked) 2 (Handle Enter "mainState" 0)
                (run no_code [OpDrop (Handle Enter "mainState" 0)] (snd twice_hooked))).
  assert (registered (callbacks Enter test_new) "mainState" = []) as Hnone
    by (vm_compute; reflexivity).
  assert (register_all Enter "mainState" [0; 1; 0] test_new
          = (fst twice_hooked, snd twice_hooked)) as Hall by (vm_compute; reflexivity).
  assert (fst twice_hooked !! 2 = Some (Handle Enter "mainState" 0)) as Hh
    by (vm_compute; reflexivity).
  assert (drop_callback (Handle Enter "mainState" 0) (snd twice_hooked)
          = Returned tt (run no_code [OpDrop (Handle Enter "mainState" 0)]
                           (snd twice_hooked))) as Hdrop by (vm_compute; reflexivity).
  specialize (Hclaim Hnone Hall Hh Hdrop).
  vm_compute in Hclaim. discriminate Hclaim.
Qed.

(** * Further properties of the code *)

(** ** A callback that removes itself *)

(** C4.  The specification has the callbacks of a state called in the order
    of registration, with no reordering on removal, and the test of the
    repository is named "unregister correct and dont touch another
    callbacks".  The code does not keep this when a handle is called while
    the callbacks of its state are being called: [forEach] walks the array
    the handle splices.  With the enter callbacks 5 and 0 of [mainState]
    registered in this order, where 5 calls its own handle,
    [transitTo('mainState')] returns no error, calls 5 and does not call
    0, which is still registered. *)
Theorem C4_removal_during_dispatch_skips_a_callback (fuel : nat) :
  once_code 5 = [CallHandle Enter "mainState" 5] ∧
  once_code 0 = [] ∧
  registered (onEnterCbs (store (machine once_hooked))) "mainState" = [5; 0] ∧
  transitTo once_code (2 + fuel) "mainState" [] once_hooked = Returned None once_entered ∧
  currentState (store (machine once_entered)) = "mainState" ∧
  map inv_cb (calls once_entered) = [5] ∧
  registered (onEnterCbs (store (machine once_entered))) "mainState" = [0].
Proof.
  split_and!;
    try (apply transitTo_enough_fuel; [vm_compute; reflexivity|discriminate]);
    vm_compute; reflexivity.
Qed.

(** A callback that removes an earlier one: with the enter callbacks 0, 6,
    2 and 3, where 6 calls the handle of 0, the callback 2 is not called. *)
Example removal_of_an_earlier_callback :
  registered (onEnterCbs (store (machine dropping_hooked))) "mainState" = [0; 6; 2; 3] ∧
  transitTo once_code 4 "mainState" [] dropping_hooked = Returned None dropping_entered ∧
  map inv_cb (calls dropping_entered) = [0; 6; 3] ∧
  registered (onEnterCbs (store (machine dropping_entered))) "mainState" = [6; 2; 3].
Proof. split_and!; vm_compute; reflexivity. Qed.

(** * Further properties of the code *)

Section FurtherProperties.

Variable code : CbId → list stmt.

(** ** The queries [currentState], [is], [can] and [transitions] *)

Lemma make_chain_declared (n : nat) (this : StateMachine) (targetState : string)
  (v : value) (stateChain : list value) :
  make_chain n this targetState v = Value stateChain →
  targetState ≠ "initial" → is_Some (metadata this !! targetState).
Proof.
  unfold make_chain. intros Hchain Htarget.
  rewrite bool_decide_eq_true_2 in Hchain by done.
  unfold getMetadataByName, getByName in Hchain.
  by destruct (metadata this !! targetState).
Qed.

(** The current state after a call that returned no error, whatever the
    callbacks do. *)
Lemma transitTo_success_current (fuel : nat) (targetState : string)
  (args : list value) (w w' : World) :
  transitTo code fuel targetState args w = Returned None w' →
  currentState (store (machine w')) = targetState ∧
  (targetState ≠ "initial" → is_Some (metadata (machine w) !! targetState)).
Proof.
  intros Hrun.
  apply transitTo_success in Hrun
    as (n & stateChain & w1 & w2 & -> & Hflag & _ & _ & Hchain & Hleave & Henter & ->).
  assert (undisturbed (set_flag true w) w1) as Hu1
    by (eapply callLeaveCbs_undisturbed;
        [apply transitTo_guarded|done|by rewrite Hleave]).
  assert (undisturbed (advance targetState (apply_chain stateChain w1)) w2) as Hu2.
  { eapply callEnterCbs_undisturbed; [apply transitTo_guarded| |by rewrite Henter].
    simpl. by rewrite (undisturbed_flag _ _ Hu1). }
  split.
  - simpl. by rewrite (undisturbed_current _ _ Hu2).
  - by eapply make_chain_declared.
Qed.

(** X2.  After a [transitTo] that returns no error, with callbacks that
    call [transitTo], write the bag or throw inside a try, [currentState]
    is the target and [is(target)] holds; [transitions()]
    is then [initialTransitions] when the target is ['initial'] and else
    the [to] of the declaration of the target, and [can] answers from that
    list: neither throws. *)
Theorem X2_queries_after_a_transition (fuel : nat) (targetState : string)
  (args : list value) (w w' : World) :
  transitTo code fuel targetState args w = Returned None w' →
  currentState (store (machine w')) = targetState ∧
  is_ (machine w') targetState = true ∧
  (targetState = "initial" →
   transitions (machine w') = Value (initialTransitions (machine w)) ∧
   ∀ next, can (machine w') next
           = Value (bool_decide (next ∈ initialTransitions (machine w)))) ∧
  (targetState ≠ "initial" →
   ∃ d, metadata (machine w) !! targetState = Some d ∧
        transitions (machine w') = Value (to d) ∧
        ∀ next, can (machine w') next = Value (bool_decide (next ∈ to d))).
Proof.
  intros Hrun.
  destruct (transitTo_success_current _ _ _ _ _ Hrun) as [Hcur Hdecl].
  assert (framed w w') as [[_ Hmeta Hinit _ _ _] _ _]
    by (eapply transitTo_frame; by rewrite Hrun).
  split; [done|]. split; [unfold is_; by rewrite bool_decide_eq_true_2|].
  split.
  - intros ->. unfold can, allowed, transitions, isInitialState.
    rewrite Hcur, Hinit. by rewrite bool_decide_eq_true_2.
  - intros Htarget. destruct (Hdecl Htarget) as [d Hd]. exists d. split; [done|].
    unfold can, allowed, transitions, isInitialState, getMetadataByName, getByName.
    rewrite Hcur, Hmeta, Hd. by rewrite bool_decide_eq_false_2.
Qed.

Lemma _transitTo_current (fuel : nat) (self : Method) (targetState : string)
  (args : list value) (w w' : World) :
  guarded self → transitioning (machine w) = true →
  final_world (_transitTo code fuel self targetState args w) = Some w' →
  currentState (store (machine w')) = currentState (store (machine w)) ∨
  (currentState (store (machine w')) = targetState ∧
   ∃ stateChain,
     make_chain fuel (machine w) targetState (stateToApply_of (machine w) targetState)
     = Value stateChain).
Proof.
  intros Hself Hflag. rewrite _transitTo_stages. cbv zeta.
  destruct (negb _); cbn [final_world].
  { intros [= <-]. left. by rewrite report_machine. }
  destruct (allowed _ _) as [[|]|e|]; cbn [final_world]; [| |intros [= <-]; by left|done].
  2:{ intros [= <-]. left. by rewrite report_machine. }
  destruct (make_chain _ _ _ _) as [stateChain|e|]; cbn [final_world];
    [|intros [= <-]; by left|done].
  destruct (callLeaveCbs _ _ _ _) as [[] w1|e w1|] eqn:Hleave; cbn [final_world];
    [| |done].
  2:{ intros [= <-]. left. apply undisturbed_current.
      eapply callLeaveCbs_undisturbed; [done..|by rewrite Hleave]. }
  assert (undisturbed w w1) as Hu1
    by (eapply callLeaveCbs_undisturbed; [done..|by rewrite Hleave]).
  intros Hend. right. split; [|by exists stateChain].
  assert (undisturbed (advance targetState (apply_chain stateChain w1)) w') as Hu2.
  { eapply (callEnterCbs_undisturbed code self (currentState (store (machine w1)))
              targetState args); [done| |].
    - simpl. by rewrite (undisturbed_flag _ _ Hu1).
    - destruct (callEnterCbs _ _ _ _ _ _); cbn [final_world] in *; congruence. }
  by rewrite (undisturbed_current _ _ Hu2).
Qed.

Lemma run_op_current_declared (fuel : nat) (o : op) (w w' : World) :
  current_declared (machine w) →
  final_world (run_op code fuel o w) = Some w' → current_declared (machine w').
Proof.
  intros Hdecl Hrun.
  assert (configured_alike (machine w) (machine w')) as [_ Hmeta _ _ _ _]
    by (by eapply run_op_keeps).
  unfold current_declared. rewrite Hmeta.
  destruct o as [t a|name cb|name cb|[ph name cb]|key v]; simpl in Hrun.
  - rewrite final_world_discard in Hrun.
    destruct fuel as [|n]; [done|]. rewrite transitTo_S in Hrun.
    destruct (transitioning (machine w)) eqn:Hflag; [by injection Hrun as <-|].
    assert (∃ w1, final_world (_transitTo code n (transitTo code n) t a
                                 (set_flag true w)) = Some w1 ∧
                  currentState (store (machine w')) = currentState (store (machine w1)))
      as (w1 & Hw1 & ->).
    { destruct (_transitTo _ _ _ _ _ _) as [r w1|e w1|]; simpl in *; [| |done].
      - exists w1. split; [done|]. by injection Hrun as <-.
      - exists w1. split; [done|]. by injection Hrun as <-. }
    apply _transitTo_current in Hw1 as [->|[-> [c Hc]]];
      [done| |apply transitTo_guarded|done].
    destruct (decide (t = "initial")) as [->|Ht]; [by left|right].
    change (machine (set_flag true w)) with (set_transitioning true (machine w)) in Hc.
    rewrite make_chain_flag in Hc. by eapply make_chain_declared.
  - rewrite final_world_discard in Hrun.
    apply registerEnterCallback_undisturbed in Hrun. by rewrite (und_current _ _ Hrun).
  - rewrite final_world_discard in Hrun.
    apply registerLeaveCallback_undisturbed in Hrun. by rewrite (und_current _ _ Hrun).
  - apply (drop_callback_undisturbed (Handle ph name cb)) in Hrun.
    by rewrite (und_current _ _ Hrun).
  - apply set_prop_undisturbed in Hrun. by rewrite (und_current _ _ Hrun).
Qed.

(** X3.  On a machine built by the constructor and then driven by any
    transitions, registrations, removals of callbacks and writes to the
    bag, the current state is the initial state or a declared state, so [transitions()] and [can(name)] never throw: [transitions()]
    returns a list and [can(name)] is membership in it. *)
Theorem X3_queries_never_throw (cls : MachineClass) (opts : Options)
  (m : StateMachine) (w : World) :
  new_StateMachine cls opts = inr m →
  reachable code (new_world m) w →
  current_declared (machine w) ∧
  ∃ l, transitions (machine w) = Value l ∧
       ∀ name, can (machine w) name = Value (bool_decide (name ∈ l)).
Proof.
  intros Hnew Hreach.
  assert (current_declared (machine w)) as Hdecl.
  { induction Hreach as [|w fuel o w' _ IH Hstep].
    - left. unfold new_StateMachine in Hnew. case_bool_decide; [done|].
      by injection Hnew as <-.
    - by eapply run_op_current_declared. }
  split; [done|].
  unfold transitions, can, allowed, isInitialState, getMetadataByName, getByName.
  destruct Hdecl as [Hinit|[d Hd]].
  - rewrite Hinit, bool_decide_eq_true_2 by done. by eexists.
  - case_bool_decide; [by eexists|]. rewrite Hd. by eexists.
Qed.

(** X1.  [can] decides the second check of [transitTo].  For a target the
    instance has a truthy field for, on a machine that is not in a
    transition: when [can(target)] is false, [transitTo(target)] returns
    [InvalidTransition] and changes nothing but the console; when it is
    true, [transitTo(target)] returns no condition (it returns no error, or
    throws, or does not end). *)
Theorem X1_can_decides_the_check (fuel : nat) (targetState : string)
  (args : list value) (w : World) :
  transitioning (machine w) = false →
  truthy (stateToApply_of (machine w) targetState) = true →
  (can (machine w) targetState = Value false →
   transitTo code (S fuel) targetState args w
   = Returned (Some InvalidTransition)
       (report (NEXT_STATE_RESTRICTED (currentState (store (machine w))) targetState) w)) ∧
  (can (machine w) targetState = Value true →
   ∀ fuel' e w', transitTo code fuel' targetState args w ≠ Returned (Some e) w').
Proof.
  intros Hflag Htruthy. unfold can. split.
  - intros Hcan. rewrite transitTo_S, Hflag, _transitTo_stages. cbv zeta.
    change (stateToApply_of (machine (set_flag true w)) targetState)
      with (stateToApply_of (machine w) targetState).
    change (allowed (machine (set_flag true w)) targetState)
      with (allowed (machine w) targetState).
    rewrite Htruthy, Hcan. cbn [negb].
    rewrite report_flag, set_flag_back_world; [done|by rewrite report_machine].
  - intros Hcan fuel' e w' Hrun.
    apply transitTo_failure in Hrun as [_ [(_ & Hnone & _)|(_ & _ & Hno & _)]];
      congruence.
Qed.

(** ** The constructor *)

(** X4.  The constructor throws when [opts.initialTransitions] is empty and
    builds no machine; otherwise the machine is in the initial state and
    not in a transition, its bag and its snapshot are [opts.props], it has
    no callbacks, and [transitions()] and [can] answer from
    [opts.initialTransitions]. *)
Theorem X4_constructor (cls : MachineClass) (opts : Options) :
  (opt_initialTransitions opts = [] →
   new_StateMachine cls opts = inl NoInitialTransitions) ∧
  (opt_initialTransitions opts ≠ [] →
   ∃ m, new_StateMachine cls opts = inr m ∧
        currentState (store m) = "initial" ∧
        is_ m "initial" = true ∧
        transitioning m = false ∧
        props m = opt_props opts ∧
        initialState (store m) = opt_props opts ∧
        onEnterCbs (store m) = ∅ ∧ onLeaveCbs (store m) = ∅ ∧
        transitions m = Value (opt_initialTransitions opts) ∧
        ∀ name, can m name = Value (bool_decide (name ∈ opt_initialTransitions opts))).
Proof.
  unfold new_StateMachine. split.
  - intros ->. by rewrite bool_decide_eq_true_2.
  - intros Hne. rewrite bool_decide_eq_false_2
      by (by destruct (opt_initialTransitions opts)).
    eexists. split; [done|]. simpl. rewrite cloneDeep_id. by repeat split.
Qed.

(** ** Registering and removing callbacks *)

Lemma unshadowed_records (w : World) :
  unshadowed w ↔
  ∀ key, key ∈ Object_prototype_keys →
         onEnterCbs (store (machine w)) !! key = None ∧
         onLeaveCbs (store (machine w)) !! key = None.
Proof.
  split.
  - intros Hw key Hkey. split; [apply (Hw Enter key Hkey)|apply (Hw Leave key Hkey)].
  - intros Hw [] key Hkey; simpl; by destruct (Hw key Hkey).
Qed.

Lemma record_get_shadow (r : gmap string (list CbId)) (key : string) :
  key ∈ Object_prototype_keys → r !! key = None → record_get r key = Inherited.
Proof.
  intros Hkey Hnone. unfold record_get. by rewrite Hnone, bool_decide_eq_true_2.
Qed.

Lemma unshadowed_alike (w w' : World) :
  (∀ ph, callbacks ph w' = callbacks ph w) → unshadowed w → unshadowed w'.
Proof. intros Hsame Hw ph name Hname. rewrite Hsame. by apply Hw. Qed.

Lemma registerEnterCallback_unshadowed (name : string) (cb : CbId) (w w' : World) :
  unshadowed w → final_world (registerEnterCallback name cb w) = Some w' → unshadowed w'.
Proof.
  rewrite !unshadowed_records. intros Hw Hrun key Hkey.
  destruct (Hw key Hkey) as [Henter Hleave]. unfold registerEnterCallback in Hrun.
  destruct (decide (name = key)) as [->|Hne].
  - rewrite record_get_shadow in Hrun by done. by injection Hrun as <-.
  - destruct (record_get _ _); simpl in Hrun; injection Hrun as <-; simpl;
      by rewrite ?lookup_insert_ne.
Qed.

Lemma registerLeaveCallback_unshadowed (name : string) (cb : CbId) (w w' : World) :
  unshadowed w → final_world (registerLeaveCallback name cb w) = Some w' → unshadowed w'.
Proof.
  rewrite !unshadowed_records. intros Hw Hrun key Hkey.
  destruct (Hw key Hkey) as [Henter Hleave]. unfold registerLeaveCallback in Hrun.
  destruct (decide (name = key)) as [->|Hne].
  - rewrite record_get_shadow in Hrun by done. by injection Hrun as <-.
  - destruct (record_get _ _); simpl in Hrun; injection Hrun as <-; simpl;
      by rewrite ?lookup_insert_ne.
Qed.

Lemma drop_callback_unshadowed (h : handle) (w w' : World) :
  unshadowed w → final_world (drop_callback h w) = Some w' → unshadowed w'.
Proof.
  rewrite !unshadowed_records. intros Hw Hrun key Hkey.
  destruct (Hw key Hkey) as [Henter Hleave]. destruct h as [ph name cb].
  destruct ph; simpl in Hrun; injection Hrun as <-; simpl.
  - split; [|done]. destruct (decide (name = key)) as [->|Hne];
      [rewrite lookup_alter_eq|rewrite lookup_alter_ne by done]; by rewrite Henter.
  - split; [done|]. destruct (decide (name = key)) as [->|Hne];
      [rewrite lookup_alter_eq|rewrite lookup_alter_ne by done]; by rewrite Hleave.
Qed.

Lemma set_prop_unshadowed (key : string) (v : value) (w w' : World) :
  unshadowed w → final_world (set_prop key v w) = Some w' → unshadowed w'.
Proof.
  intros Hw Hrun. revert Hw. apply unshadowed_alike. intros ph. unfold set_prop in Hrun.
  destruct (props (machine w)); simpl in Hrun; injection Hrun as <-; try done;
    destruct ph; simpl; by destruct (same_object _).
Qed.

Lemma bind_unshadowed {A} (c : Eff A) (k : A → Eff unit) (w w' : World) :
  (∀ w1, final_world (c w) = Some w1 → undisturbed w w1 ∧ unshadowed w1) →
  (∀ a w1, transitioning (machine w1) = true → unshadowed w1 →
           final_world (k a w1) = Some w' → unshadowed w') →
  transitioning (machine w) = true →
  final_world (bind c k w) = Some w' → unshadowed w'.
Proof.
  intros Hc Hk Hflag. unfold bind. destruct (c w) as [a w1|e w1|]; simpl; [| |done].
  - destruct (Hc w1 eq_refl) as [Hu Hw1]. apply Hk; [|done].
    by rewrite (und_flag _ _ Hu).
  - intros [= <-]. by destruct (Hc w1 eq_refl).
Qed.

(** Callbacks cannot put an array under a name of [Object.prototype]
    either. *)
Lemma exec_unshadowed (self : Method) (body : list stmt) (w w' : World) :
  guarded self → transitioning (machine w) = true → unshadowed w →
  final_world (exec self body w) = Some w' → unshadowed w'.
Proof.
  intros Hself. revert w.
  induction body as [|s body IH]; intros w Hflag Hw; cbn [exec].
  - by intros [= <-].
  - destruct s as [t a|t a|msg|key v|name cb|name cb|ph name cb].
    + destruct (Hself t a w Hflag) as [->| ->]; simpl; [done|]. by intros [= <-].
    + destruct (Hself t a w Hflag) as [->| ->]; [done|]. by apply IH.
    + simpl. by intros [= <-].
    + apply bind_unshadowed; [|intros _ w1 ? ?; by apply IH|done].
      intros w1 H1. split; [by eapply set_prop_undisturbed|by eapply set_prop_unshadowed].
    + apply bind_unshadowed; [|intros _ w1 ? ?; by apply IH|done].
      intros w1 H1. split; [by eapply registerEnterCallback_undisturbed
                           |by eapply registerEnterCallback_unshadowed].
    + apply bind_unshadowed; [|intros _ w1 ? ?; by apply IH|done].
      intros w1 H1. split; [by eapply registerLeaveCallback_undisturbed
                           |by eapply registerLeaveCallback_unshadowed].
    + apply bind_unshadowed; [|intros _ w1 ? ?; by apply IH|done].
      intros w1 H1. split; [by eapply drop_callback_undisturbed
                           |by eapply drop_callback_unshadowed].
Qed.

Lemma forEach_unshadowed (self : Method) (ph ph' : phase) (stateName : string)
  (args : list value) (k n : nat) (w w' : World) :
  guarded self → transitioning (machine w) = true → unshadowed w →
  final_world (forEach ph' stateName (call code self ph args) k n w) = Some w' →
  unshadowed w'.
Proof.
  intros Hself. revert k w.
  induction n as [|n IH]; intros k w Hflag Hw; cbn [forEach]; [by intros [= <-]|].
  destruct (registered (callbacks ph' w) stateName !! k) as [cb|]; [|by apply IH].
  apply bind_unshadowed; [|intros _ w1 ? ?; by apply IH|done].
  intros w1 H1. split; [exact (call_undisturbed code self ph args cb w w1 Hself Hflag H1)|].
  unfold call in H1. by apply (exec_unshadowed self (code cb) _ w1 Hself) in H1.
Qed.

Lemma callLeaveCbs_unshadowed (self : Method) (targetState : string) (w w' : World) :
  guarded self → transitioning (machine w) = true → unshadowed w →
  final_world (callLeaveCbs code self targetState w) = Some w' → unshadowed w'.
Proof.
  intros Hself Hflag Hw. unfold callLeaveCbs.
  destruct (record_get _ _); simpl; try by intros [= <-].
  by apply forEach_unshadowed.
Qed.

Lemma callEnterCbs_unshadowed (self : Method) (prevState stateName : string)
  (args : list value) (w w' : World) :
  guarded self → transitioning (machine w) = true → unshadowed w →
  final_world (callEnterCbs code self prevState stateName args w) = Some w' →
  unshadowed w'.
Proof.
  intros Hself Hflag Hw. unfold callEnterCbs.
  destruct (record_get _ _); simpl; try by intros [= <-].
  by apply forEach_unshadowed.
Qed.

Lemma transitTo_unshadowed (fuel : nat) (targetState : string) (args : list value)
  (w w' : World) :
  unshadowed w → final_world (transitTo code fuel targetState args w) = Some w' →
  unshadowed w'.
Proof.
  intros Hw. destruct fuel as [|n]; [done|]. rewrite transitTo_S.
  destruct (transitioning (machine w)) eqn:Hflag; [by intros [= <-]|].
  rewrite _transitTo_stages. cbv zeta.
  destruct (negb _).
  { cbn [final_world]. intros [= <-]. revert Hw. apply unshadowed_alike.
    intros ph. unfold callbacks. simpl. by rewrite report_machine. }
  destruct (allowed _ _) as [[|]|e|]; cbn [final_world]; [| |by intros [= <-]|done].
  2:{ intros [= <-]. revert Hw. apply unshadowed_alike.
      intros ph. unfold callbacks. simpl. by rewrite report_machine. }
  destruct (make_chain _ _ _ _) as [stateChain|e|]; cbn [final_world];
    [|by intros [= <-]|done].
  pose proof (callLeaveCbs_unshadowed (transitTo code n) targetState
                (set_flag true w)) as Hleave.
  pose proof (callLeaveCbs_undisturbed code (transitTo code n) targetState
                (set_flag true w)) as Hu.
  destruct (callLeaveCbs _ _ _ _) as [[] w1|e w1|]; cbn [final_world]; [| |done].
  2:{ intros [= <-]. by apply (Hleave w1 (transitTo_guarded code n)). }
  specialize (Hleave w1 (transitTo_guarded code n) eq_refl Hw eq_refl).
  specialize (Hu w1 (transitTo_guarded code n) eq_refl eq_refl).
  assert (unshadowed (advance targetState (apply_chain stateChain w1))) as Hw1.
  { revert Hleave. apply unshadowed_alike. intros [].
    - apply advance_onEnterCbs.
    - apply advance_onLeaveCbs. }
  pose proof (callEnterCbs_unshadowed (transitTo code n)
                (currentState (store (machine w1))) targetState args
                (advance targetState (apply_chain stateChain w1))) as Henter.
  assert (transitioning (machine (advance targetState (apply_chain stateChain w1))) = true)
    as Hflag1 by (simpl; apply (undisturbed_flag _ _ Hu)).
  destruct (callEnterCbs _ _ _ _ _ _) as [[] w2|e w2|]; cbn [final_world];
    [| |done]; intros [= <-];
    specialize (Henter w2 (transitTo_guarded code n) Hflag1 Hw1 eq_refl);
    [revert Henter; by apply unshadowed_alike|done].
Qed.

Lemma run_op_unshadowed (fuel : nat) (o : op) (w w' : World) :
  unshadowed w → final_world (run_op code fuel o w) = Some w' → unshadowed w'.
Proof.
  intros Hw Hrun.
  destruct o as [t a|name cb|name cb|h|k v]; simpl in Hrun.
  - rewrite final_world_discard in Hrun. by eapply transitTo_unshadowed.
  - rewrite final_world_discard in Hrun. by eapply registerEnterCallback_unshadowed.
  - rewrite final_world_discard in Hrun. by eapply registerLeaveCallback_unshadowed.
  - by eapply drop_callback_unshadowed.
  - by eapply set_prop_unshadowed.
Qed.

Lemma reachable_unshadowed (cls : MachineClass) (opts : Options) (m : StateMachine)
  (w : World) :
  new_StateMachine cls opts = inr m → reachable code (new_world m) w → unshadowed w.
Proof.
  intros Hnew Hreach. induction Hreach as [|w fuel o w' _ IH Hstep].
  - unfold new_StateMachine in Hnew. case_bool_decide; [done|]. injection Hnew as <-.
    by intros [] key _.
  - by eapply run_op_unshadowed.
Qed.

(** X5.  On a machine built by the constructor and then used in any way,
    no array of callbacks sits under a name of [Object.prototype]; so
    [onEnter] and [onLeave] for such a name ('constructor', 'toString',
    'valueOf', ...) throw a [TypeError] and change nothing, and for any
    other name they return a handle and put the callback at the end of the
    array of that name, leaving the other arrays, the other phase, the bag,
    the current state, the flag and the logs as they are. *)
Theorem X5_registration (cls : MachineClass) (opts : Options) (m : StateMachine)
  (w : World) (ph : phase) (stateName : string) (cb : CbId) :
  new_StateMachine cls opts = inr m →
  reachable code (new_world m) w →
  (stateName ∈ Object_prototype_keys →
   ∃ msg, register ph stateName cb w = Thrown (TypeError msg) w) ∧
  (stateName ∉ Object_prototype_keys →
   ∃ w', register ph stateName cb w = Returned (Handle ph stateName cb) w' ∧
         callbacks ph w'
         = <[stateName := registered (callbacks ph w) stateName ++ [cb]]> (callbacks ph w) ∧
         callbacks (other ph) w' = callbacks (other ph) w ∧
         props (machine w') = props (machine w) ∧
         currentState (store (machine w')) = currentState (store (machine w)) ∧
         transitioning (machine w') = transitioning (machine w) ∧
         console w' = console w ∧ calls w' = calls w).
Proof.
  intros Hnew Hreach.
  assert (unshadowed w) as Hw by (by eapply reachable_unshadowed).
  split.
  - intros Hkey. pose proof (Hw ph stateName Hkey) as Hnone.
    destruct ph; simpl in *; unfold onEnter, onLeave, registerEnterCallback,
      registerLeaveCallback, record_get; rewrite Hnone, bool_decide_eq_true_2 by done;
      by eexists.
  - intros Hkey.
    destruct ph; simpl; unfold onEnter, onLeave, registerEnterCallback,
      registerLeaveCallback, record_get, registered;
      (destruct (_ !! stateName) as [cbs|];
       [|rewrite bool_decide_eq_false_2 by done]; by eexists).
Qed.

Lemma indexOf_from_absent (i : Z) (cbs : list CbId) (cb : CbId) :
  cb ∉ cbs → indexOf_from i cbs cb = (-1)%Z.
Proof.
  revert i. induction cbs as [|x cbs IH]; intros i Hnot; [done|].
  simpl. apply not_elem_of_cons in Hnot as [Hx Hnot].
  rewrite bool_decide_eq_false_2 by done. by apply IH.
Qed.

Lemma indexOf_from_split (i : Z) (before after : list CbId) (cb : CbId) :
  cb ∉ before →
  indexOf_from i (before ++ cb :: after) cb = (i + Z.of_nat (length before))%Z.
Proof.
  revert i. induction before as [|x before IH]; intros i Hnot; simpl.
  - rewrite bool_decide_eq_true_2 by done. lia.
  - apply not_elem_of_cons in Hnot as [Hx Hnot].
    rewrite bool_decide_eq_false_2 by done. rewrite IH by done. lia.
Qed.

Lemma splice1_last (cbs : list CbId) :
  splice1 cbs (-1) = take (length cbs - 1) cbs.
Proof.
  unfold splice1. change (-1 <? 0)%Z with true. cbv iota.
  destruct cbs as [|x cbs]; [done|].
  rewrite Z.max_l by (simpl; lia).
  replace (Z.to_nat (Z.of_nat (length (x :: cbs)) + -1)) with (length (x :: cbs) - 1)%nat
    by (simpl; lia).
  replace (S (length (x :: cbs) - 1)) with (length (x :: cbs)) by (simpl; lia).
  by rewrite drop_all, app_nil_r.
Qed.

Lemma drop_callback_registered (ph : phase) (stateName : string) (cb : CbId)
  (w : World) :
  ∃ w', drop_callback (Handle ph stateName cb) w = Returned tt w' ∧
        registered (callbacks ph w') stateName
        = splice1 (registered (callbacks ph w) stateName)
            (indexOf (registered (callbacks ph w) stateName) cb) ∧
        (∀ name, name ≠ stateName →
                 registered (callbacks ph w') name = registered (callbacks ph w) name) ∧
        callbacks (other ph) w' = callbacks (other ph) w.
Proof.
  destruct ph; (eexists; split; [reflexivity|]); simpl; unfold registered;
    (split; [rewrite lookup_alter_eq; by destruct (_ !! stateName)|]);
    (split; [|done]); intros name Hname; by rewrite lookup_alter_ne.
Qed.

(** X6.  A handle called while its callback is not in the array of its
    state (it was removed already) removes the last callback of that
    array, whichever it is: [indexOf] gives -1 and [splice(-1, 1)] counts
    from the end.  The arrays of the other states and the callbacks of the
    other phase stay. *)
Theorem X6_stale_handle_removes_last (ph : phase) (stateName : string) (cb : CbId)
  (w : World) :
  cb ∉ registered (callbacks ph w) stateName →
  ∃ w', drop_callback (Handle ph stateName cb) w = Returned tt w' ∧
        registered (callbacks ph w') stateName
        = take (length (registered (callbacks ph w) stateName) - 1)
            (registered (callbacks ph w) stateName) ∧
        (∀ name, name ≠ stateName →
                 registered (callbacks ph w') name = registered (callbacks ph w) name) ∧
        callbacks (other ph) w' = callbacks (other ph) w.
Proof.
  intros Hnot.
  destruct (drop_callback_registered ph stateName cb w) as (w' & Hrun & Hreg & Hrest).
  exists w'. split; [done|]. split; [|done].
  rewrite Hreg. unfold indexOf. rewrite indexOf_from_absent by done. apply splice1_last.
Qed.

Lemma register_registered (ph : phase) (stateName : string) (cb : CbId) (h : handle)
  (w w1 : World) :
  register ph stateName cb w = Returned h w1 →
  registered (callbacks ph w1) stateName = registered (callbacks ph w) stateName ++ [cb].
Proof.
  destruct ph; simpl; unfold onEnter, onLeave, registerEnterCallback,
    registerLeaveCallback, record_get, registered;
    (destruct (_ !! stateName) as [cbs|] eqn:Hcbs;
     [|case_bool_decide; [done|]]); intros [= _ <-]; simpl;
    by rewrite lookup_insert_eq.
Qed.

(** X7.  Registering a callback and calling the handle at once gives back
    the arrays of before when the callback was not registered for that
    state yet.  When it was, the call removes the earlier registration and
    keeps the new one: the callback moves to the end of the array. *)
Theorem X7_register_then_remove (ph : phase) (stateName : string) (cb : CbId)
  (h : handle) (w w1 : World) :
  register ph stateName cb w = Returned h w1 →
  ∃ w2, drop_callback h w1 = Returned tt w2 ∧
        (cb ∉ registered (callbacks ph w) stateName →
         registered (callbacks ph w2) stateName = registered (callbacks ph w) stateName) ∧
        (∀ before after,
           registered (callbacks ph w) stateName = before ++ cb :: after →
           cb ∉ before →
           registered (callbacks ph w2) stateName = before ++ after ++ [cb]).
Proof.
  intros Hreg. rewrite (register_handle _ _ _ _ _ _ Hreg).
  apply register_registered in Hreg.
  destruct (drop_callback_registered ph stateName cb w1) as (w2 & Hrun & Hdrop & _).
  exists w2. split; [done|]. rewrite Hdrop, Hreg. unfold indexOf. split.
  - intros Hnot. rewrite indexOf_from_split by done.
    rewrite Z.add_0_l, splice1_middle. apply app_nil_r.
  - intros before after -> Hnot. rewrite <- app_assoc. simpl.
    rewrite indexOf_from_split by done.
    by rewrite Z.add_0_l, splice1_middle.
Qed.

(** ** Declarations that do not lead to the initial state *)

Lemma walk_rootless (fuel : nat) (this : StateMachine) (names : string → Prop)
  (parentStateName : string) (acc : list value) :
  rootless (metadata this) names → names parentStateName →
  walk fuel this parentStateName acc = Loops.
Proof.
  intros Hroot. revert parentStateName acc.
  induction fuel as [|fuel IH]; intros p acc Hp;
    destruct (Hroot p Hp) as (Hne & d & Hd & Hparent); simpl;
    rewrite bool_decide_eq_false_2 by done; [done|].
  unfold getMetadataByName, getByName. rewrite Hd. simpl. by apply IH.
Qed.

(** X8.  When the [parentState] declarations from the target on never
    reach the initial state (a state that is its own parent, or a cycle of
    parents), a [transitTo] that passes both checks does not return: the
    loop that makes the chain of states never ends, and no callback is
    called. *)
Theorem X8_cyclic_parents_never_return (fuel : nat) (targetState : string)
  (args : list value) (w : World) (names : string → Prop) :
  rootless (metadata (machine w)) names → names targetState →
  transitioning (machine w) = false →
  truthy (member (machine w) targetState) = true →
  can (machine w) targetState = Value true →
  transitTo code fuel targetState args w = Diverges.
Proof.
  intros Hroot Htarget Hflag Htruthy Hcan.
  destruct (Hroot _ Htarget) as (Hne & d & Hd & Hparent).
  destruct fuel as [|fuel]; [done|].
  rewrite transitTo_S, Hflag, _transitTo_stages. cbv zeta.
  change (stateToApply_of (machine (set_flag true w)) targetState)
    with (stateToApply_of (machine w) targetState).
  change (allowed (machine (set_flag true w)) targetState)
    with (allowed (machine w) targetState).
  unfold can in Hcan. rewrite Hcan.
  unfold stateToApply_of. rewrite bool_decide_eq_true_2 by done.
  rewrite Htruthy. cbn [negb].
  change (machine (set_flag true w)) with (set_transitioning true (machine w)).
  rewrite make_chain_flag. unfold make_chain.
  rewrite bool_decide_eq_true_2 by done.
  unfold getMetadataByName, getByName. rewrite Hd. simpl.
  by rewrite (walk_rootless _ _ names).
Qed.

Lemma walk_dangling (this : StateMachine) (parentStateName : string) :
  dangling (metadata this) parentStateName →
  ∃ n, ∀ fuel acc, (n ≤ fuel)%nat →
    walk fuel this parentStateName acc
    = Raises (TypeError "Cannot read properties of undefined").
Proof.
  induction 1 as [name Hne Hnone|name d Hne Hd _ [n IH]].
  - exists 1. intros [|fuel] acc Hfuel; [lia|]. simpl.
    rewrite bool_decide_eq_false_2 by done.
    unfold getMetadataByName, getByName. by rewrite Hnone.
  - exists (S n). intros [|fuel] acc Hfuel; [lia|]. simpl.
    rewrite bool_decide_eq_false_2 by done.
    unfold getMetadataByName, getByName. rewrite Hd. simpl. apply IH. lia.
Qed.

(** X9.  When the target, or a state on the way up its parents, has no
    declaration, a [transitTo] that passes both checks throws a
    [TypeError] (a property of [undefined] is read) before any callback is
    called and before the bag is written; the machine is left as it was
    but with [transitioning] set, as after any exception. *)
Theorem X9_missing_declaration_throws (targetState : string) (args : list value)
  (w : World) :
  dangling (metadata (machine w)) targetState →
  transitioning (machine w) = false →
  truthy (member (machine w) targetState) = true →
  can (machine w) targetState = Value true →
  ∃ n, ∀ fuel, (n ≤ fuel)%nat →
    transitTo code fuel targetState args w
    = Thrown (TypeError "Cannot read properties of undefined") (set_flag true w).
Proof.
  intros Hdangling Hflag Htruthy Hcan.
  assert (targetState ≠ "initial") as Hne by (by destruct Hdangling).
  assert (∃ n, ∀ fuel, (n ≤ fuel)%nat →
            make_chain fuel (machine w) targetState (member (machine w) targetState)
            = Raises (TypeError "Cannot read properties of undefined")) as [n Hchain].
  { unfold make_chain. rewrite bool_decide_eq_true_2 by done.
    unfold getMetadataByName, getByName.
    destruct Hdangling as [name _ Hnone|name d _ Hd Hup].
    - exists 0. intros fuel _. by rewrite Hnone.
    - rewrite Hd. simpl. destruct (walk_dangling _ _ Hup) as [n Hn].
      exists n. intros fuel Hfuel. by apply Hn. }
  exists (S n). intros [|fuel] Hfuel; [lia|].
  rewrite transitTo_S, Hflag, _transitTo_stages. cbv zeta.
  change (stateToApply_of (machine (set_flag true w)) targetState)
    with (stateToApply_of (machine w) targetState).
  change (allowed (machine (set_flag true w)) targetState)
    with (allowed (machine w) targetState).
  unfold can in Hcan. rewrite Hcan.
  unfold stateToApply_of. rewrite bool_decide_eq_true_2 by done.
  rewrite Htruthy. cbn [negb].
  change (machine (set_flag true w)) with (set_transitioning true (machine w)).
  rewrite make_chain_flag, Hchain by lia. done.
Qed.


(** ** What [transitTo] writes, outcome by outcome *)

(** X10.  [logging] and the console are a side channel of [transitTo] for
    every target but the name [logging] itself: on two machines that differ
    in [logging] and in what is on the console only, a call to a target
    that is not named [logging], on a machine with no state declared by
    that name, ends the same way, with the same return value or exception
    and the same machine but for [logging]; only the console differs.  (The
    lookup [this[targetState]] of the name [logging] reads the field
    [logging].)  What is on the console alone never matters, whatever the
    target. *)
Theorem X10_logging_is_a_side_channel (fuel : nat) (targetState : string)
  (args : list value) (out : list string) (w : World) :
  (targetState ≠ "logging" → metadata (machine w) !! "logging" = None →
   ∀ b, ∃ out',
     transitTo code fuel targetState args (relog b out w)
     = map_world (relog b out') (transitTo code fuel targetState args w)) ∧
  (∃ out',
     transitTo code fuel targetState args (relog (logging (machine w)) out w)
     = map_world (relog (logging (machine w)) out')
         (transitTo code fuel targetState args w)).
Proof.
  split.
  - intros Htarget Hnone b. apply transitTo_relog. by right.
  - apply transitTo_relog. by left.
Qed.

Lemma _transitTo_console (fuel : nat) (self : Method) (targetState : string)
  (args : list value) (w : World) :
  guarded self → transitioning (machine w) = true →
  match _transitTo code fuel self targetState args w with
  | Returned None w' | Thrown _ w' => console w' = console w
  | _ => True
  end.
Proof.
  intros Hself Hflag. rewrite _transitTo_stages. cbv zeta.
  destruct (negb _); [done|].
  destruct (allowed _ _) as [[|]|e|]; [|done..].
  destruct (make_chain _ _ _ _) as [stateChain|e|]; [|done..].
  destruct (callLeaveCbs _ _ _ _) as [[] w1|e w1|] eqn:Hleave; [| |done].
  2:{ apply und_console. eapply callLeaveCbs_undisturbed; [done..|by rewrite Hleave]. }
  assert (undisturbed w w1) as Hu1
    by (eapply callLeaveCbs_undisturbed; [done..|by rewrite Hleave]).
  pose proof (callEnterCbs_undisturbed code self (currentState (store (machine w1)))
                targetState args (advance targetState (apply_chain stateChain w1))) as Hu2.
  destruct (callEnterCbs _ _ _ _ _ _) as [[] w2|e w2|]; [| |done];
    (rewrite (und_console _ _ (Hu2 w2 Hself
       ltac:(simpl; by rewrite (undisturbed_flag _ _ Hu1)) eq_refl));
     apply (und_console _ _ Hu1)).
Qed.

(** X11.  The console is written by a returned condition only, and only
    when [logging] is on: a call that returns no error or throws leaves the
    console as it is, for callbacks that call [transitTo], write the bag or
    throw; a call that returns a condition writes one line, the
    message of that condition, when [logging] is on and nothing when it is
    off. *)
Theorem X11_console_lines (fuel : nat) (targetState : string) (args : list value)
  (w : World) :
  match transitTo code fuel targetState args w with
  | Returned None w' | Thrown _ w' => console w' = console w
  | Returned (Some e) w' =>
      console w' =
      if logging (machine w) then
        console w ++
        [match e with
         | StateNotRegistered => NOT_REGISTERED targetState
         | InvalidTransition =>
             NEXT_STATE_RESTRICTED (currentState (store (machine w))) targetState
         end]
      else console w
  | Diverges => True
  end.
Proof.
  destruct (transitTo code fuel targetState args w) as [[e|] w'|e w'|] eqn:Hrun; [| | |done].
  - apply transitTo_failure in Hrun as [_ [(-> & _ & ->)|(-> & _ & _ & ->)]];
      simpl; unfold report; simpl; by destruct (logging (machine w)).
  - destruct fuel as [|n]; [done|]. rewrite transitTo_S in Hrun.
    destruct (transitioning (machine w)) eqn:Hflag; [done|].
    pose proof (_transitTo_console n (transitTo code n) targetState args (set_flag true w)
                  (transitTo_guarded code n) eq_refl) as Hc.
    destruct (_transitTo _ _ _ _ _ _) as [[e|] w1|e w1|]; try done.
    by injection Hrun as <-.
  - destruct fuel as [|n]; [done|]. rewrite transitTo_S in Hrun.
    destruct (transitioning (machine w)) eqn:Hflag; [by injection Hrun as _ <-|].
    pose proof (_transitTo_console n (transitTo code n) targetState args (set_flag true w)
                  (transitTo_guarded code n) eq_refl) as Hc.
    destruct (_transitTo _ _ _ _ _ _) as [[e1|] w1|e1 w1|]; try done.
    by injection Hrun as _ <-.
Qed.

(** Callbacks that leave the arrays of callbacks alone: so does the call. *)
Lemma transitTo_fixed (fuel : nat) (targetState : string) (args : list value)
  (w w' : World) :
  fixed_callbacks code →
  final_world (transitTo code fuel targetState args w) = Some w' →
  ∀ ph, callbacks ph w' = callbacks ph w.
Proof.
  intros Hfixed. destruct fuel as [|n]; [done|]. rewrite transitTo_S.
  destruct (transitioning (machine w)) eqn:Hflag; [by intros [= <-]|].
  rewrite _transitTo_stages. cbv zeta.
  destruct (negb _).
  { cbn [final_world]. intros [= <-] ph. unfold callbacks. simpl.
    by rewrite report_machine. }
  destruct (allowed _ _) as [[|]|e|]; cbn [final_world]; [| |by intros [= <-]|done].
  2:{ intros [= <-] ph. unfold callbacks. simpl. by rewrite report_machine. }
  destruct (make_chain _ _ _ _) as [stateChain|e|]; cbn [final_world];
    [|by intros [= <-]|done].
  pose proof (callLeaveCbs_fixed code (transitTo code n) targetState
                (set_flag true w)) as Hleave.
  pose proof (callLeaveCbs_undisturbed code (transitTo code n) targetState
                (set_flag true w)) as Hu.
  destruct (callLeaveCbs _ _ _ _) as [[] w1|e w1|]; cbn [final_world]; [| |done].
  2:{ intros [= <-]. by apply (Hleave w1 Hfixed (transitTo_guarded code n)). }
  specialize (Hleave w1 Hfixed (transitTo_guarded code n) eq_refl eq_refl).
  specialize (Hu w1 (transitTo_guarded code n) eq_refl eq_refl).
  pose proof (callEnterCbs_fixed code (transitTo code n)
                (currentState (store (machine w1))) targetState args
                (advance targetState (apply_chain stateChain w1))) as Henter.
  assert (transitioning (machine (advance targetState (apply_chain stateChain w1))) = true)
    as Hflag1 by (simpl; apply (undisturbed_flag _ _ Hu)).
  assert (∀ ph, callbacks ph (advance targetState (apply_chain stateChain w1))
                = callbacks ph w) as Hsame.
  { intros ph. transitivity (callbacks ph w1); [|apply Hleave]. destruct ph.
    - apply advance_onEnterCbs.
    - apply advance_onLeaveCbs. }
  destruct (callEnterCbs _ _ _ _ _ _) as [[] w2|e w2|]; cbn [final_world];
    [| |done]; intros [= <-] ph;
    specialize (Henter w2 Hfixed (transitTo_guarded code n) Hflag1 eq_refl ph);
    rewrite <- Hsame, <- Henter; done.
Qed.

(** X15.  However a call of [transitTo] ends, it leaves the state fields,
    the declarations, [initialTransitions] and [logging] as they were; the
    snapshot too, when it is an object of its own, as the constructor makes
    it; and the arrays of registered callbacks, when no callback registers
    a callback or calls a handle.  The callbacks may call [transitTo],
    write the bag or throw. *)
Theorem X15_transitTo_keeps_configuration (fuel : nat) (targetState : string)
  (args : list value) (w w' : World) :
  final_world (transitTo code fuel targetState args w) = Some w' →
  members (machine w') = members (machine w) ∧
  metadata (machine w') = metadata (machine w) ∧
  initialTransitions (machine w') = initialTransitions (machine w) ∧
  logging (machine w') = logging (machine w) ∧
  (initialState_ref (store (machine w)) ≠ Some (props_ref (machine w)) →
   initialState (store (machine w')) = initialState (store (machine w))) ∧
  (fixed_callbacks code →
   onEnterCbs (store (machine w')) = onEnterCbs (store (machine w)) ∧
   onLeaveCbs (store (machine w')) = onLeaveCbs (store (machine w))).
Proof.
  intros Hrun.
  pose proof (transitTo_fixed fuel targetState args w w') as Hfixed.
  apply transitTo_frame in Hrun as Hframe. destruct Hframe as [[[] Hsnap _] _].
  split_and!; try done.
  intros Hf. split; [apply (Hfixed Hf Hrun Enter)|apply (Hfixed Hf Hrun Leave)].
Qed.

Lemma in_turn_machine (self : Method) (ph : phase) (args : list value)
  (cbs : list CbId) (w w' : World) :
  read_only code → fixed_callbacks code →
  guarded self → transitioning (machine w) = true →
  final_world (in_turn (call code self ph args) cbs w) = Some w' →
  machine w' = machine w.
Proof.
  intros Hro Hfixed Hself. revert w.
  induction cbs as [|cb cbs IH]; intros w Hflag; cbn [in_turn]; [by intros [= <-]|].
  unfold bind.
  pose proof (exec_still self (code cb) (log_call (seen ph args w cb) w)) as Hexec.
  unfold call at 1.
  destruct (exec self (code cb) _) as [[] w1|e w1|]; simpl; [| |done].
  - specialize (Hexec w1 Hself Hflag (Hro cb) (Hfixed cb) eq_refl).
    intros Hrest. apply IH in Hrest; [|by rewrite Hexec]. by rewrite Hrest.
  - intros [= <-]. by apply Hexec.
Qed.

Lemma callLeaveCbs_machine (self : Method) (targetState : string) (w w' : World) :
  read_only code → fixed_callbacks code →
  guarded self → transitioning (machine w) = true →
  final_world (callLeaveCbs code self targetState w) = Some w' →
  machine w' = machine w.
Proof.
  intros Hro Hfixed Hself Hflag. rewrite callLeaveCbs_in_turn by done.
  destruct (record_get _ _); simpl; try (by intros [= <-]); by apply in_turn_machine.
Qed.

Lemma callEnterCbs_machine (self : Method) (prevState stateName : string)
  (args : list value) (w w' : World) :
  read_only code → fixed_callbacks code →
  guarded self → transitioning (machine w) = true →
  final_world (callEnterCbs code self prevState stateName args w) = Some w' →
  machine w' = machine w.
Proof.
  intros Hro Hfixed Hself Hflag. rewrite callEnterCbs_in_turn by done.
  destruct (record_get _ _); simpl; try (by intros [= <-]); by apply in_turn_machine.
Qed.

Lemma advance_machine (targetState : string) (stateChain : list value) (w1 w : World) :
  machine w1 = machine w →
  machine (advance targetState (apply_chain stateChain w1))
  = machine (advance targetState (apply_chain stateChain w)).
Proof. simpl. by intros ->. Qed.

(** X13.  With callbacks that do not write the bag, an exception out of
    [transitTo] leaves the machine in one of two states, never in between:
    in the state and with the bag of before the call (with [transitioning]
    set unless the guard threw), when a check of a declaration or a leave
    callback threw; or in the target state with the whole chain applied to
    the bag, when an enter callback threw.  When moreover no callback
    registers a callback or calls a handle, the whole machine is the one of
    before the call with [transitioning] set, or the one the merges and the
    assignment of the current state make of it, with [transitioning]
    set. *)
Theorem X13_exception_leaves_old_or_new_state (fuel : nat) (targetState : string)
  (args : list value) (e : exn) (w w' : World) :
  read_only code →
  transitTo code fuel targetState args w = Thrown e w' →
  (transitioning (machine w) = true ∧ e = RecursiveTransition ∧ w' = w) ∨
  (transitioning (machine w) = false ∧
   transitioning (machine w') = true ∧
   ((currentState (store (machine w')) = currentState (store (machine w)) ∧
     props (machine w') = props (machine w) ∧
     (fixed_callbacks code → machine w' = set_transitioning true (machine w))) ∨
    ∃ n stateChain,
      make_chain n (machine w) targetState (stateToApply_of (machine w) targetState)
        = Value stateChain ∧
      currentState (store (machine w')) = targetState ∧
      props (machine w') =
        overlaid (merge (props (machine w)) (initialState (store (machine w))))
          stateChain ∧
      (fixed_callbacks code →
       machine w' =
         set_transitioning true
           (machine (advance targetState (apply_chain stateChain w)))))).
Proof.
  intros Hro Hrun.
  pose proof (transitTo_thrown_flag _ _ _ _ _ _ _ Hrun) as Hset.
  destruct fuel as [|n]; [done|]. rewrite transitTo_S in Hrun.
  destruct (transitioning (machine w)) eqn:Hflag; [left; by injection Hrun as <- <-|].
  right. split; [done|]. split; [done|].
  assert (_transitTo code n (transitTo code n) targetState args (set_flag true w)
          = Thrown e w') as Hinner
    by (by destruct (_transitTo _ _ _ _ _ _)).
  clear Hrun. rewrite _transitTo_stages in Hinner. cbv zeta in Hinner.
  destruct (negb _); [done|].
  destruct (allowed _ _) as [[|]|e0|]; [|done|by injection Hinner as _ <-; left|done].
  change (machine (set_flag true w)) with (set_transitioning true (machine w)) in Hinner.
  change (stateToApply_of (set_transitioning true (machine w)) targetState)
    with (stateToApply_of (machine w) targetState) in Hinner.
  rewrite make_chain_flag in Hinner.
  destruct (make_chain _ _ _ _) as [stateChain|e0|] eqn:Hchain;
    [|by injection Hinner as _ <-; left|done].
  pose proof (callLeaveCbs_read_only code (transitTo code n) targetState
                (set_flag true w)) as Hleave_ro.
  pose proof (callLeaveCbs_undisturbed code (transitTo code n) targetState
                (set_flag true w)) as Hleave_u.
  pose proof (callLeaveCbs_machine (transitTo code n) targetState
                (set_flag true w)) as Hleave_m.
  destruct (callLeaveCbs _ _ _ _) as [[] w1|e1 w1|]; [| |done].
  2:{ injection Hinner as _ <-. left.
      destruct (Hleave_ro w1 Hro (transitTo_guarded code n) eq_refl eq_refl) as [Hp _].
      specialize (Hleave_u w1 (transitTo_guarded code n) eq_refl eq_refl).
      split; [apply (und_current _ _ Hleave_u)|]. split; [exact Hp|].
      intros Hfixed. by apply (Hleave_m w1 Hro Hfixed (transitTo_guarded code n)). }
  destruct (Hleave_ro w1 Hro (transitTo_guarded code n) eq_refl eq_refl) as [Hp1 Hs1].
  specialize (Hleave_u w1 (transitTo_guarded code n) eq_refl eq_refl).
  specialize (λ Hfixed, Hleave_m w1 Hro Hfixed (transitTo_guarded code n) eq_refl eq_refl).
  assert (transitioning (machine (advance targetState (apply_chain stateChain w1))) = true)
    as Hflag1 by (simpl; apply (undisturbed_flag _ _ Hleave_u)).
  pose proof (callEnterCbs_read_only code (transitTo code n)
                (currentState (store (machine w1))) targetState args
                (advance targetState (apply_chain stateChain w1))) as Henter_ro.
  pose proof (callEnterCbs_undisturbed code (transitTo code n)
                (currentState (store (machine w1))) targetState args
                (advance targetState (apply_chain stateChain w1))) as Henter_u.
  pose proof (callEnterCbs_machine (transitTo code n)
                (currentState (store (machine w1))) targetState args
                (advance targetState (apply_chain stateChain w1))) as Henter_m.
  destruct (callEnterCbs _ _ _ _ _ _) as [[] w2|e2 w2|]; [done| |done].
  injection Hinner as _ <-. right. exists n, stateChain. split; [done|].
  destruct (Henter_ro w2 Hro (transitTo_guarded code n) Hflag1 eq_refl) as [Hp2 _].
  specialize (Henter_u w2 (transitTo_guarded code n) Hflag1 eq_refl).
  split; [by rewrite (und_current _ _ Henter_u), advance_current|].
  split; [by rewrite Hp2, advance_props, Hp1, Hs1|].
  intros Hfixed.
  rewrite (Henter_m w2 Hro Hfixed (transitTo_guarded code n) Hflag1 eq_refl).
  by rewrite (advance_machine _ _ w1 (set_flag true w) (Hleave_m Hfixed)).
Qed.

(** *** The callbacks called, when a call does not return *)

(** X14.  When no callback registers a callback or calls a handle, however
    a call of [transitTo] ends (it returns, with or without a condition, or
    an exception comes out of it), the callbacks it has called are a prefix
    of the sequence a successful call runs, the leave callbacks of the
    current state in array order and then the enter callbacks of the
    target: the callbacks after one that throws are not called, and an
    enter callback is called only after every leave callback returned. *)
Theorem X14_callbacks_called_are_a_prefix (fuel : nat) (targetState : string)
  (args : list value) (w w' : World) :
  fixed_callbacks code →
  transitioning (machine w) = false →
  final_world (transitTo code fuel targetState args w) = Some w' →
  ∃ leaves enters,
    calls w' = calls w ++ leaves ++ enters ∧
    Forall2 (call_of Leave [VStr targetState] (currentState (store (machine w))))
      (take (length leaves)
         (registered (onLeaveCbs (store (machine w))) (currentState (store (machine w)))))
      leaves ∧
    Forall2 (call_of Enter (VStr (currentState (store (machine w))) :: args) targetState)
      (take (length enters) (registered (onEnterCbs (store (machine w))) targetState))
      enters ∧
    (enters ≠ [] →
     length leaves
     = length (registered (onLeaveCbs (store (machine w)))
                 (currentState (store (machine w))))).
Proof.
  intros Hfixed Hflag Hrun.
  assert (∀ v : World, calls v = calls w →
            ∃ leaves enters : list invocation,
              calls v = calls w ++ leaves ++ enters ∧
              Forall2 (call_of Leave [VStr targetState] (currentState (store (machine w))))
                (take (length leaves)
                   (registered (onLeaveCbs (store (machine w)))
                      (currentState (store (machine w))))) leaves ∧
              Forall2 (call_of Enter (VStr (currentState (store (machine w))) :: args)
                         targetState)
                (take (length enters)
                   (registered (onEnterCbs (store (machine w))) targetState)) enters ∧
              (enters ≠ [] →
               length leaves
               = length (registered (onLeaveCbs (store (machine w)))
                           (currentState (store (machine w)))))) as Hnone.
  { intros v Hv. exists [], []. rewrite Hv, app_nil_r, !take_0.
    by repeat split; try constructor. }
  destruct fuel as [|n]; [done|]. rewrite transitTo_S, Hflag in Hrun.
  assert (∃ w1, final_world (_transitTo code n (transitTo code n) targetState args
                               (set_flag true w)) = Some w1 ∧ calls w' = calls w1)
    as (w1 & Hinner & ->).
  { destruct (_transitTo _ _ _ _ _ _) as [r w1|e w1|]; simpl in *; [| |done];
      exists w1; (split; [done|]); by injection Hrun as <-. }
  clear Hrun. rewrite _transitTo_stages in Hinner. cbv zeta in Hinner.
  destruct (negb _); [injection Hinner as <-; apply Hnone; exact (proj1 (report_logs _ (set_flag true w)))|].
  destruct (allowed _ _) as [[|]|e0|];
    [|injection Hinner as <-; apply Hnone; exact (proj1 (report_logs _ (set_flag true w)))
     |injection Hinner as <-; by apply Hnone|done].
  destruct (make_chain _ _ _ _) as [stateChain|e0|];
    [|injection Hinner as <-; by apply Hnone|done].
  pose proof (callLeaveCbs_prefix code (transitTo code n) targetState (set_flag true w))
    as Hprefix.
  destruct (callLeaveCbs _ _ _ _) as [[] w2|e2 w2|] eqn:Hleave; [| |done].
  2:{ injection Hinner as <-.
      destruct (Hprefix w2 Hfixed (transitTo_guarded code n) eq_refl eq_refl)
        as (leaves & Hcalls & Hall).
      exists leaves, []. rewrite app_nil_r, take_0.
      split; [done|]. split; [done|]. split; [constructor|done]. }
  clear Hprefix.
  assert (undisturbed (set_flag true w) w2) as Hu
    by (eapply callLeaveCbs_undisturbed;
        [apply transitTo_guarded|done|by rewrite Hleave]).
  pose proof (callLeaveCbs_fixed code (transitTo code n) targetState (set_flag true w) w2
                Hfixed (transitTo_guarded code n) eq_refl (f_equal final_world Hleave) Enter)
    as Hsame.
  apply callLeaveCbs_calls in Hleave as (leaves & Hcalls & Hall);
    [|done|apply transitTo_guarded|done].
  assert (final_world (callEnterCbs code (transitTo code n)
                         (currentState (store (machine w2))) targetState args
                         (advance targetState (apply_chain stateChain w2))) = Some w1)
    as Henter by (by destruct (callEnterCbs _ _ _ _ _ _)).
  clear Hinner.
  apply callEnterCbs_prefix in Henter as (enters & Hcalls' & Hall');
    [|done|apply transitTo_guarded|simpl; by rewrite (undisturbed_flag _ _ Hu)].
  exists leaves, enters.
  pose proof (Forall2_length _ _ _ Hall) as Hlen.
  split; [|split; [|split]].
  - rewrite Hcalls'. simpl. by rewrite Hcalls, <- app_assoc.
  - simpl in Hlen. rewrite <- Hlen, firstn_all. exact Hall.
  - rewrite advance_current, advance_onEnterCbs in Hall'.
    simpl in Hsame. rewrite Hsame, (und_current _ _ Hu) in Hall'. exact Hall'.
  - intros _. by rewrite <- Hlen.
Qed.

(** X21.  When no callback registers a callback or calls a handle, in a
    [transitTo] that returns no error the leave callbacks of the state the
    machine was in run first, in the order of their array, each given the
    target, while that state is still the current one; then the enter
    callbacks of the target, in the order of their array, each given the
    previous state followed by the extra arguments, with the target as
    current state.  When callbacks do not write the property bag either,
    each leave callback sees the bag of before the call and each enter
    callback the bag the call leaves.  A registration appends to the array
    of its state, so the order of an array is the order of registration. *)
Theorem X21_callbacks_run_in_order (fuel : nat) (targetState : string)
  (args : list value) (w w' : World) :
  fixed_callbacks code →
  transitTo code fuel targetState args w = Returned None w' →
  (∃ leaves enters,
     calls w' = calls w ++ leaves ++ enters ∧
     Forall2 (call_of Leave [VStr targetState] (currentState (store (machine w))))
       (registered (onLeaveCbs (store (machine w))) (currentState (store (machine w))))
       leaves ∧
     Forall2 (call_of Enter (VStr (currentState (store (machine w))) :: args) targetState)
       (registered (onEnterCbs (store (machine w))) targetState) enters) ∧
  (read_only code →
   calls w' = calls w ++
     map (λ cb, {| inv_phase := Leave; inv_cb := cb;
                   inv_args := [VStr targetState];
                   inv_props := props (machine w);
                   inv_state := currentState (store (machine w));
                   inv_transitioning := true |})
       (registered (onLeaveCbs (store (machine w))) (currentState (store (machine w)))) ++
     map (λ cb, {| inv_phase := Enter; inv_cb := cb;
                   inv_args := VStr (currentState (store (machine w))) :: args;
                   inv_props := props (machine w');
                   inv_state := targetState;
                   inv_transitioning := true |})
       (registered (onEnterCbs (store (machine w))) targetState)) ∧
  (∀ name cb h w1,
     onEnter name cb w = Returned h w1 →
     registered (onEnterCbs (store (machine w1))) name
     = registered (onEnterCbs (store (machine w))) name ++ [cb]) ∧
  (∀ name cb h w1,
     onLeave name cb w = Returned h w1 →
     registered (onLeaveCbs (store (machine w1))) name
     = registered (onLeaveCbs (store (machine w))) name ++ [cb]).
Proof.
  intros Hfixed Hrun. split; [|split; [|split]].
  - by eapply transitTo_success_calls.
  - intros Hro. apply transitTo_success_still in Hrun
      as (n & stateChain & _ & _ & Hm & Hcalls); [|done..].
    rewrite Hcalls. do 2 f_equal.
    apply map_ext. intros cb. unfold seen. simpl. rewrite Hm.
    by rewrite advance_current.
  - intros name cb h w1. unfold onEnter, registerEnterCallback.
    pose proof (record_get_registered (onEnterCbs (store (machine w))) name) as Hreg.
    destruct (record_get _ _); [| done |]; intros [= _ <-]; simpl;
      unfold registered in *; by rewrite lookup_insert_eq, Hreg.
  - intros name cb h w1. unfold onLeave, registerLeaveCallback.
    pose proof (record_get_registered (onLeaveCbs (store (machine w))) name) as Hreg.
    destruct (record_get _ _); [| done |]; intros [= _ <-]; simpl;
      unfold registered in *; by rewrite lookup_insert_eq, Hreg.
Qed.

(** ** A state named as a member of [Object.prototype] *)



(** ** When [transitTo] succeeds *)

Lemma walk_complete (this : StateMachine) (parentStateName : string)
  (names : list string) :
  lineage (metadata this) parentStateName names →
  parentStateName ≠ "initial" →
  ∀ fuel acc, (length names ≤ fuel)%nat →
    walk fuel this parentStateName acc = Value (map (member this) names ++ acc).
Proof.
  induction 1 as [name d Hd Hroot|name d names Hd Hparent _ IH];
    intros Hne [|fuel] acc Hfuel;
    try (rewrite ?length_app in Hfuel; simpl in Hfuel; lia);
    simpl; rewrite bool_decide_eq_false_2 by done;
    unfold getMetadataByName, getByName; rewrite Hd; simpl.
  - rewrite Hroot. apply walk_initial.
  - rewrite IH; [|done|rewrite length_app in Hfuel; simpl in Hfuel; lia].
    by rewrite map_app, <- app_assoc.
Qed.

Lemma make_chain_complete (this : StateMachine) (targetState : string)
  (names : list string) (fuel : nat) :
  lineage (metadata this) targetState names →
  targetState ≠ "initial" → (length names ≤ fuel)%nat →
  make_chain fuel this targetState (member this targetState)
  = Value (map (member this) names).
Proof.
  intros Hlineage Hne Hfuel. unfold make_chain.
  rewrite bool_decide_eq_true_2 by done. unfold getMetadataByName, getByName.
  destruct Hlineage as [name d Hd Hroot|name d names Hd Hparent Hlineage];
    rewrite Hd; simpl.
  - rewrite Hroot. apply walk_initial.
  - rewrite (walk_complete _ _ _ Hlineage Hparent);
      [by rewrite map_app|rewrite length_app in Hfuel; simpl in Hfuel; lia].
Qed.

Lemma record_get_plain (r : gmap string (list CbId)) (key : string) :
  key ∉ Object_prototype_keys →
  record_get r key = Own (registered r key) ∨
  (record_get r key = Absent ∧ registered r key = []).
Proof.
  intros Hkey. unfold record_get, registered.
  destruct (r !! key); [by left|right]. by rewrite bool_decide_eq_false_2.
Qed.

Lemma quiet_fixed (body : list stmt) :
  forallb quiet body = true → forallb (λ s, negb (registers s)) body = true.
Proof.
  induction body as [|s body IH]; [done|]. simpl.
  intros [Hs Hbody]%andb_true_iff. rewrite IH by done. by destruct s.
Qed.

Section Quiet.

(** [machine.transitTo] as callbacks find it: the guard throws. *)
Variable self : Method.
Hypothesis self_throws :
  ∀ targetState args w,
    transitioning (machine w) = true →
    self targetState args w = Thrown RecursiveTransition w.

Lemma self_throws_guarded : guarded self.
Proof. intros t a w Hflag. right. by apply self_throws. Qed.

Lemma exec_quiet (body : list stmt) (w : World) :
  transitioning (machine w) = true → isObject (props (machine w)) = true →
  forallb quiet body = true →
  ∃ w', exec self body w = Returned tt w' ∧ isObject (props (machine w')) = true.
Proof.
  revert w.
  induction body as [|[t a|t a|msg|key v|name cb|name cb|ph name cb] body IH];
    intros w Hflag Hobj Hquiet; simpl in Hquiet; try done.
  - by exists w.
  - cbn [exec]. rewrite self_throws by done. by apply IH.
  - cbn [exec]. unfold bind, set_prop.
    destruct (props (machine w)) eqn:Hprops; try done. by apply IH.
Qed.

Lemma forEach_quiet (ph ph' : phase) (stateName : string) (args : list value)
  (k n : nat) (w : World) :
  transitioning (machine w) = true → isObject (props (machine w)) = true →
  (∀ cb, cb ∈ registered (callbacks ph' w) stateName → forallb quiet (code cb) = true) →
  ∃ w', forEach ph' stateName (call code self ph args) k n w = Returned tt w' ∧
        isObject (props (machine w')) = true ∧
        ∀ ph0, callbacks ph0 w' = callbacks ph0 w.
Proof.
  revert k w. induction n as [|n IH]; intros k w Hflag Hobj Hquiet; cbn [forEach].
  - by exists w.
  - destruct (registered (callbacks ph' w) stateName !! k) as [cb|] eqn:Hcb;
      [|by apply IH].
    unfold bind.
    assert (forallb quiet (code cb) = true) as Hbody
      by (eapply Hquiet, list_elem_of_lookup_2, Hcb).
    destruct (exec_quiet (code cb) (log_call (seen ph args w cb) w))
      as (w1 & Hcall & Hobj1); [done..|].
    change (call code self ph args cb w)
      with (exec self (code cb) (log_call (seen ph args w cb) w)).
    rewrite Hcall.
    assert (undisturbed (log_call (seen ph args w cb) w) w1) as Hu
      by (eapply exec_undisturbed; [apply self_throws_guarded|done|by rewrite Hcall]).
    assert (∀ ph0, callbacks ph0 w1 = callbacks ph0 w) as Hsame.
    { destruct (exec_fixed self (code cb) (log_call (seen ph args w cb) w) w1)
        as [He Hl]; [apply self_throws_guarded|done|by apply quiet_fixed
                    |by rewrite Hcall|].
      by intros []. }
    destruct (IH (S k) w1) as (w' & Hrest & Hobj' & Hsame');
      [by rewrite (undisturbed_flag _ _ Hu)|done|by rewrite Hsame|].
    exists w'. split; [done|]. split; [done|].
    intros ph0. by rewrite Hsame'.
Qed.

Lemma callLeaveCbs_quiet (targetState : string) (w : World) :
  transitioning (machine w) = true → isObject (props (machine w)) = true →
  (currentState (store (machine w)) ∉ Object_prototype_keys) →
  (∀ cb, cb ∈ registered (onLeaveCbs (store (machine w))) (currentState (store (machine w))) →
         forallb quiet (code cb) = true) →
  ∃ w', callLeaveCbs code self targetState w = Returned tt w' ∧
        isObject (props (machine w')) = true ∧
        ∀ ph0, callbacks ph0 w' = callbacks ph0 w.
Proof.
  intros Hflag Hobj Hcur Hquiet. unfold callLeaveCbs.
  destruct (record_get_plain (onLeaveCbs (store (machine w))) _ Hcur) as [->|[-> _]].
  - by apply forEach_quiet.
  - by eexists.
Qed.

Lemma callEnterCbs_quiet (prevState stateName : string) (args : list value) (w : World) :
  transitioning (machine w) = true → isObject (props (machine w)) = true →
  (stateName ∉ Object_prototype_keys) →
  (∀ cb, cb ∈ registered (onEnterCbs (store (machine w))) stateName →
         forallb quiet (code cb) = true) →
  ∃ w', callEnterCbs code self prevState stateName args w = Returned tt w' ∧
        isObject (props (machine w')) = true ∧
        ∀ ph0, callbacks ph0 w' = callbacks ph0 w.
Proof.
  intros Hflag Hobj Hname Hquiet. unfold callEnterCbs.
  destruct (record_get_plain (onEnterCbs (store (machine w))) _ Hname) as [->|[-> _]].
  - by apply forEach_quiet.
  - by eexists.
Qed.

End Quiet.

(** X16.  Conditions under which [transitTo] does succeed.  On a machine
    that is not in a transition and whose bag is an object, when the
    target has a truthy state field (or is 'initial'), [can(target)] is
    true, the parents of the target lead to the initial state, neither the
    current state nor the target is named as a member of
    [Object.prototype], and the leave callbacks of the current state and
    the enter callbacks of the target do nothing but try transitions inside
    a try and write the bag, the call returns no error and the machine is
    in the target state. *)
Theorem X16_transitTo_succeeds (targetState : string) (args : list value) (w : World) :
  transitioning (machine w) = false →
  isObject (props (machine w)) = true →
  truthy (stateToApply_of (machine w) targetState) = true →
  can (machine w) targetState = Value true →
  (targetState = "initial" ∨ ∃ names, lineage (metadata (machine w)) targetState names) →
  (currentState (store (machine w)) ∉ Object_prototype_keys) →
  (targetState ∉ Object_prototype_keys) →
  (∀ cb, cb ∈ registered (onLeaveCbs (store (machine w))) (currentState (store (machine w)))
              ++ registered (onEnterCbs (store (machine w))) targetState →
         forallb quiet (code cb) = true) →
  ∃ n w', (∀ fuel, (n ≤ fuel)%nat →
             transitTo code fuel targetState args w = Returned None w') ∧
          currentState (store (machine w')) = targetState ∧
          transitioning (machine w') = false.
Proof.
  intros Hflag Hobj Htruthy Hcan Hlineage Hcur Htarget Hquiet.
  assert (∃ k stateChain,
            make_chain k (machine w) targetState (stateToApply_of (machine w) targetState)
            = Value stateChain) as (k & stateChain & Hchain).
  { destruct Hlineage as [->|[names Hnames]].
    - by exists 0, [initialState (store (machine w))].
    - destruct (decide (targetState = "initial")) as [->|Hne].
      + by exists 0, [initialState (store (machine w))].
      + exists (length names), (map (member (machine w)) names).
        unfold stateToApply_of. rewrite bool_decide_eq_true_2 by done.
        by apply make_chain_complete. }
  assert (∃ w', transitTo code (S (S k)) targetState args w = Returned None w')
    as [w' Hrun].
  { rewrite transitTo_S, Hflag, _transitTo_stages. cbv zeta.
    change (machine (set_flag true w)) with (set_transitioning true (machine w)).
    change (stateToApply_of (set_transitioning true (machine w)) targetState)
      with (stateToApply_of (machine w) targetState).
    change (allowed (set_transitioning true (machine w)) targetState)
      with (allowed (machine w) targetState).
    unfold can in Hcan. rewrite Htruthy, Hcan. cbn [negb].
    rewrite make_chain_flag.
    assert (make_chain (S k) (machine w) targetState
              (stateToApply_of (machine w) targetState) = Value stateChain) as ->.
    { destruct (make_chain_more_fuel k (S k) (machine w) targetState
                  (stateToApply_of (machine w) targetState)) as [Hloops| <-];
        [lia|congruence|done]. }
    destruct (callLeaveCbs_quiet (transitTo code (S k)) (transitTo_in_flight code k)
                targetState (set_flag true w)) as (w1 & Hleave & Hobj1 & Hcbs);
      [done|done|done|intros cb Hcb; apply Hquiet, elem_of_app; by left|].
    rewrite Hleave.
    assert (undisturbed (set_flag true w) w1) as Hu
      by (eapply callLeaveCbs_undisturbed;
          [apply transitTo_guarded|done|by rewrite Hleave]).
    pose proof (Hcbs Enter) as Hsame. simpl in Hsame.
    destruct (callEnterCbs_quiet (transitTo code (S k)) (transitTo_in_flight code k)
                (currentState (store (machine w1))) targetState args
                (advance targetState (apply_chain stateChain w1))) as (w2 & Henter & _).
    { cbn. by rewrite (undisturbed_flag _ _ Hu). }
    { rewrite advance_props. by rewrite isObject_overlaid, isObject_merge. }
    { done. }
    { intros cb Hcb. apply Hquiet, elem_of_app. right.
      rewrite advance_onEnterCbs in Hcb. by rewrite Hsame in Hcb. }
    rewrite Henter. by eexists. }
  exists (S (S k)), w'. split.
  - intros fuel Hfuel. replace fuel with (S (S k) + (fuel - S (S k)))%nat by lia.
    by apply transitTo_enough_fuel.
  - split; [by apply (transitTo_success_current _ _ _ _ _ Hrun)|].
    by eapply transitTo_returned_flag.
Qed.

(** X19.  A [transitTo] that returned a condition is invisible to the
    calls after it: any later call ends as it would have ended without the
    failed one, with the same return value or exception and the same
    machine, but for the lines on the console. *)
Theorem X19_failed_call_is_invisible (fuel : nat) (targetState : string)
  (args : list value) (e : TransitionError) (w w' : World) :
  transitTo code fuel targetState args w = Returned (Some e) w' →
  ∀ fuel' targetState' args',
    ∃ out',
      transitTo code fuel' targetState' args' w'
      = map_world (relog (logging (machine w)) out')
          (transitTo code fuel' targetState' args' w).
Proof.
  intros Hrun fuel' targetState' args'.
  apply transitTo_failure in Hrun as [Hflag Hw'].
  assert (∃ out, w' = relog (logging (machine w)) out w) as [out ->].
  { destruct Hw' as [(_ & _ & ->)|(_ & _ & _ & ->)];
      (rewrite report_flag, set_flag_back_world; [|by rewrite report_machine]);
      unfold report, relog; destruct w as [[it lg pr tr st mb md] co ca ne];
      simpl in *; destruct lg; by eexists. }
  apply transitTo_relog. by left.
Qed.

Lemma merge_scalar (p o : value) : isObject o = false → merge p o = p.
Proof. by destruct o. Qed.

(** In a chain of overlays, what [this[name]] finds beyond the state fields
    counts for nothing: it is no plain object, and [merge] passes over
    it. *)
Lemma overlaid_member (this : StateMachine) (base : value) (names : list string) :
  overlaid base (map (member this) names)
  = overlaid base (map (λ name, read (members this !! name)) names).
Proof.
  unfold overlaid. revert base.
  induction names as [|name names IH]; intros base; simpl; [done|].
  rewrite <- IH. f_equal.
  destruct (members this !! name) as [o|] eqn:Ho; simpl.
  - unfold member. by rewrite Ho.
  - by rewrite merge_scalar by by apply member_engine.
Qed.

(** ** Machines whose states set only properties of the snapshot, again *)

(** X12.  On a machine whose initial [props] is an object and whose state
    fields set only key paths of it, built by the constructor and then
    driven by any transitions, registrations and removals, with callbacks
    that do not write the bag, a successful [transitTo] leaves the bag
    equal to the snapshot overlaid with the states from the root of the
    parents of the target down to the target: nothing of the states left
    behind remains. *)
Theorem X12_overlay_on_tidy_machines (cls : MachineClass) (opts : Options)
  (m : StateMachine) (fuel fuel' : nat) (ops : list op) (targetState : string)
  (args : list value) (w w' : World) (names : list string) :
  read_only code →
  new_StateMachine cls opts = inr m →
  isObject (opt_props opts) = true →
  map_Forall (λ _ o, covers (opt_props opts) o = true) (cls_fields cls) →
  forallb op_reads ops = true →
  run_ops code fuel ops (new_world m) = Some w →
  transitTo code fuel' targetState args w = Returned None w' →
  lineage (cls_declarations cls) targetState names →
  targetState ≠ "initial" →
  currentState (store (machine w')) = targetState ∧
  props (machine w')
  = overlaid (opt_props opts) (map (λ name, read (cls_fields cls !! name)) names).
Proof.
  intros Hro Hnew Hobj Hfields Hops Hreach Hrun Hlineage Hne.
  pose proof (run_ops_reachable _ _ _ _ _ Hreach) as Hreachable.
  pose proof (reachable_configured _ _ _ Hreachable) as [Hmem Hmeta _ _ _ _].
  destruct (new_StateMachine_separate _ _ _ Hnew) as [Hsep _].
  pose proof (reachable_snapshot code (new_world m) w Hsep Hreachable) as Hsnap.
  assert (initialState (store m) = opt_props opts ∧ members m = cls_fields cls ∧
          metadata m = cls_declarations cls) as (Hm1 & Hm2 & Hm3).
  { unfold new_StateMachine in Hnew. case_bool_decide; [done|].
    injection Hnew as <-. simpl. by rewrite cloneDeep_id. }
  simpl in Hsnap, Hmem, Hmeta. rewrite Hm1 in Hsnap. rewrite Hm2 in Hmem.
  rewrite Hm3 in Hmeta. rewrite <- Hmeta in Hlineage.
  destruct (overlay_on_tidy_machines code cls opts m fuel fuel' ops targetState args
              w w' names) as [Hcur Hprops]; try done.
  split; [done|]. rewrite Hprops, Hsnap, overlaid_member. by rewrite Hmem.
Qed.

(** ** Termination *)

Section Ends.

Variable self : Method.
Hypothesis self_throws :
  ∀ targetState args w,
    transitioning (machine w) = true →
    self targetState args w = Thrown RecursiveTransition w.

Lemma exec_ends (body : list stmt) (w : World) :
  transitioning (machine w) = true → exec self body w ≠ Diverges.
Proof.
  revert w.
  induction body as [|[t a|t a|msg|key v|name cb|name cb|ph name cb] body IH];
    intros w Hflag; cbn [exec]; try done.
  - by rewrite self_throws.
  - rewrite self_throws by done. by apply IH.
  - unfold bind, set_prop. destruct (props (machine w)); try done; by apply IH.
  - unfold bind, registerEnterCallback.
    destruct (record_get _ _); try done; by apply IH.
  - unfold bind, registerLeaveCallback.
    destruct (record_get _ _); try done; by apply IH.
  - unfold bind. destruct ph; simpl; by apply IH.
Qed.

Lemma forEach_ends (ph ph' : phase) (stateName : string) (args : list value)
  (k n : nat) (w : World) :
  transitioning (machine w) = true →
  forEach ph' stateName (call code self ph args) k n w ≠ Diverges.
Proof.
  revert k w. induction n as [|n IH]; intros k w Hflag; cbn [forEach]; [done|].
  destruct (registered (callbacks ph' w) stateName !! k) as [cb|]; [|by apply IH].
  unfold bind.
  destruct (call code self ph args cb w) as [[] w1|e w1|] eqn:Hcall; [|done|].
  - apply IH.
    assert (undisturbed w w1) as Hu
      by (eapply call_undisturbed;
          [apply (self_throws_guarded self self_throws)|done|by rewrite Hcall]).
    by rewrite (undisturbed_flag _ _ Hu).
  - exfalso. by apply (exec_ends (code cb) (log_call (seen ph args w cb) w)).
Qed.

Lemma callLeaveCbs_ends (targetState : string) (w : World) :
  transitioning (machine w) = true → callLeaveCbs code self targetState w ≠ Diverges.
Proof.
  intros Hflag. unfold callLeaveCbs. destruct (record_get _ _); [|done..].
  by apply forEach_ends.
Qed.

Lemma callEnterCbs_ends (prevState stateName : string) (args : list value) (w : World) :
  transitioning (machine w) = true →
  callEnterCbs code self prevState stateName args w ≠ Diverges.
Proof.
  intros Hflag. unfold callEnterCbs. destruct (record_get _ _); [|done..].
  by apply forEach_ends.
Qed.

End Ends.

(** X20.  [transitTo] ends when the parents of the target lead to the
    initial state or to a name without a declaration, whatever the
    callbacks do of calling [transitTo], writing the bag and throwing: it
    returns or throws.  With X8, a call that passes both checks fails to
    end exactly when the parents of the target never leave a cycle. *)
Theorem X20_transitTo_ends (targetState : string) (args : list value) (w : World) :
  (targetState = "initial" ∨
   (∃ names, lineage (metadata (machine w)) targetState names) ∨
   dangling (metadata (machine w)) targetState) →
  ∃ n, ∀ fuel, (n ≤ fuel)%nat → transitTo code fuel targetState args w ≠ Diverges.
Proof.
  intros Hparents.
  assert (∃ k, ∀ fuel, (k ≤ fuel)%nat →
            make_chain fuel (machine w) targetState
              (stateToApply_of (machine w) targetState) ≠ Loops) as [k Hchain].
  { destruct (decide (targetState = "initial")) as [->|Hne]; [by exists 0|].
    unfold stateToApply_of. rewrite bool_decide_eq_true_2 by done.
    destruct Hparents as [?|[[names Hnames]|Hdangling]]; [done| |].
    - exists (length names). intros fuel Hfuel.
      by rewrite (make_chain_complete _ _ names).
    - unfold make_chain. rewrite bool_decide_eq_true_2 by done.
      unfold getMetadataByName, getByName.
      destruct Hdangling as [name _ Hnone|name d _ Hd Hup].
      + exists 0. intros fuel _. by rewrite Hnone.
      + rewrite Hd. simpl. destruct (walk_dangling _ _ Hup) as [n Hn].
        exists n. intros fuel Hfuel. by rewrite Hn. }
  exists (S (S k)). intros [|[|fuel]] Hfuel; [lia..|].
  rewrite transitTo_S. destruct (transitioning (machine w)) eqn:Hflag; [done|].
  rewrite _transitTo_stages. cbv zeta.
  change (machine (set_flag true w)) with (set_transitioning true (machine w)).
  change (stateToApply_of (set_transitioning true (machine w)) targetState)
    with (stateToApply_of (machine w) targetState).
  change (allowed (set_transitioning true (machine w)) targetState)
    with (allowed (machine w) targetState).
  destruct (negb _); [done|].
  rewrite allowed_permitted. destruct (permitted (machine w)) as [l|]; [|done].
  destruct (includes l targetState); [|done].
  rewrite make_chain_flag.
  destruct (make_chain _ _ _ _) as [stateChain|e|] eqn:Hmake;
    [|done|by apply Hchain in Hmake; [|lia]].
  pose proof (callLeaveCbs_ends (transitTo code (S fuel)) (transitTo_in_flight code fuel)
                targetState (set_flag true w) eq_refl) as Hleave.
  destruct (callLeaveCbs _ _ _ _) as [[] w1|e w1|] eqn:Hl; [|done..].
  assert (undisturbed (set_flag true w) w1) as Hu
    by (eapply callLeaveCbs_undisturbed; [apply transitTo_guarded|done|by rewrite Hl]).
  pose proof (callEnterCbs_ends (transitTo code (S fuel)) (transitTo_in_flight code fuel)
                (currentState (store (machine w1))) targetState args
                (advance targetState (apply_chain stateChain w1))) as Henter.
  destruct (callEnterCbs _ _ _ _ _ _) as [[] w2|e w2|]; [done..|].
  intros _. apply Henter; [|done]. cbn. by rewrite (undisturbed_flag _ _ Hu).
Qed.


End FurtherProperties.

(** ** The registry of machine types *)

Section RegistryProperties.

Variable StatesStore : Type.
Variable new_StatesStore : StatesStore.
Variable addState : string → string → string + list string → StatesStore → StatesStore.
Variable IStateMetadata : Type.
Variable StatesStore_getState : string → StatesStore → IStateMetadata.

Lemma defineState_lookup (d : declaration) (target : Ctor)
  (statesByMachineStore : gmap Ctor StatesStore) :
  defineState StatesStore new_StatesStore addState (decl_target d) (decl_stateName d)
    (decl_parentState d) (decl_to d) statesByMachineStore !! target
  = if decide (decl_target d = target) then
      Some (addState (decl_stateName d) (decl_parentState d) (decl_to d)
              (default new_StatesStore (statesByMachineStore !! target)))
    else statesByMachineStore !! target.
Proof.
  unfold defineState. case_decide as Htarget.
  - subst target. rewrite lookup_alter_eq.
    destruct (statesByMachineStore !! decl_target d) as [st|] eqn:Hst.
    + by rewrite Hst.
    + by rewrite lookup_insert_eq.
  - rewrite lookup_alter_ne by done.
    destruct (statesByMachineStore !! decl_target d); [done|].
    by rewrite lookup_insert_ne.
Qed.

Lemma defineStates_lookup (decls : list declaration) (target : Ctor)
  (statesByMachineStore : gmap Ctor StatesStore) :
  defineStates StatesStore new_StatesStore addState decls statesByMachineStore !! target
  = match filter (λ d, decl_target d = target) decls with
    | [] => statesByMachineStore !! target
    | own =>
        Some (foldl (λ st d, addState (decl_stateName d) (decl_parentState d) (decl_to d) st)
                (default new_StatesStore (statesByMachineStore !! target)) own)
    end.
Proof.
  revert statesByMachineStore.
  induction decls as [|d decls IH]; intros statesByMachineStore; [done|].
  unfold defineStates in *. simpl. rewrite IH, defineState_lookup.
  rewrite filter_cons. case_decide as Htarget.
  - by destruct (filter _ decls).
  - done.
Qed.

(** X17.  [StateMachineStore] keeps the declarations of each machine type
    apart.  After any sequence of [defineState] calls on an empty map, the
    store of a type holds the declarations made for that type, in the order
    they were made, and none made for another type; a type nothing was
    declared for has no store, and [getState] for it throws a [TypeError]
    (a method of [undefined] is called) instead of returning.  The class
    [StatesStore] is not among the sources: its methods are parameters,
    taken to change the one store they are called on. *)
Theorem X17_states_are_kept_by_machine_type (decls : list declaration) (target : Ctor)
  (stateName : string) :
  (target ∈ decl_target <$> decls →
   defineStates StatesStore new_StatesStore addState decls ∅ !! target
   = Some (states_of StatesStore new_StatesStore addState target decls) ∧
   getState StatesStore IStateMetadata StatesStore_getState target stateName
     (defineStates StatesStore new_StatesStore addState decls ∅)
   = Value (StatesStore_getState stateName
              (states_of StatesStore new_StatesStore addState target decls))) ∧
  (target ∉ decl_target <$> decls →
   defineStates StatesStore new_StatesStore addState decls ∅ !! target = None ∧
   getState StatesStore IStateMetadata StatesStore_getState target stateName
     (defineStates StatesStore new_StatesStore addState decls ∅)
   = Raises (TypeError "Cannot read properties of undefined")).
Proof.
  unfold getState, states_of. rewrite defineStates_lookup, lookup_empty. simpl.
  split; intros Htarget.
  - destruct (filter _ decls) as [|d own] eqn:Hown; [|done].
    exfalso. apply list_elem_of_fmap in Htarget as (d & -> & Hd).
    assert (d ∈ filter (λ d', decl_target d' = decl_target d) decls) as Hin
      by (by apply list_elem_of_filter).
    rewrite Hown in Hin. by apply elem_of_nil in Hin.
  - destruct (filter _ decls) as [|d own] eqn:Hown; [done|].
    exfalso. apply Htarget.
    assert (d ∈ filter (λ d', decl_target d' = target) decls) as Hin
      by (rewrite Hown; by left).
    apply list_elem_of_filter in Hin as [<- Hin].
    apply list_elem_of_fmap. by exists d.
Qed.

End RegistryProperties.

(** * Further properties: witnesses *)

Lemma throwing_code_read_only : read_only throwing_code.
Proof. intros [|[|[|cb]]]; reflexivity. Qed.

Lemma throwing_code_fixed : fixed_callbacks throwing_code.
Proof. intros [|[|[|cb]]]; reflexivity. Qed.

Lemma test_new_constructed :
  new_StateMachine TestMachine TestMachine_opts
  = inr (machine_of TestMachine TestMachine_opts).
Proof. reflexivity. Qed.

Lemma test_success_reachable : reachable watch_code test_new test_success.
Proof.
  apply (run_ops_reachable watch_code 4
           [OpOnLeave "initial" 0; OpOnEnter "mainState" 1; OpOnEnter "mainState" 0;
            OpTransitTo "mainState" [VNum 2]; OpTransitTo "requestState" [];
            OpTransitTo "successState" []]).
  vm_compute. reflexivity.
Qed.

Lemma successState_lineage :
  lineage (cls_declarations TestMachine) "successState"
    ["mainState"; "doneState"; "successState"].
Proof.
  apply (lineage_child _ "successState" (declare "doneState" ["mainState"])
           ["mainState"; "doneState"]); [vm_compute; reflexivity|done|].
  apply (lineage_child _ "doneState" (declare "mainState" []) ["mainState"]);
    [vm_compute; reflexivity|done|].
  apply (lineage_root _ "mainState" (declare "initial" ["requestState"]));
    [vm_compute; reflexivity|done].
Qed.

(** [requestState] is not among the transitions of the initial state. *)
Lemma X1_witness :
  transitioning (machine test_new) = false ∧
  truthy (stateToApply_of (machine test_new) "requestState") = true ∧
  can (machine test_new) "requestState" = Value false ∧
  transitTo watch_code 1 "requestState" [] test_new
  = Returned (Some InvalidTransition)
      (report (NEXT_STATE_RESTRICTED (currentState (store (machine test_new)))
                 "requestState") test_new).
Proof.
  assert (transitioning (machine test_new) = false) as Hflag by reflexivity.
  assert (truthy (stateToApply_of (machine test_new) "requestState") = true) as Htruthy
    by (vm_compute; reflexivity).
  assert (can (machine test_new) "requestState" = Value false) as Hcan
    by (vm_compute; reflexivity).
  split; [exact Hflag|]. split; [exact Htruthy|]. split; [exact Hcan|].
  exact (proj1 (X1_can_decides_the_check watch_code 0 "requestState" [] test_new
                  Hflag Htruthy) Hcan).
Defined.

Lemma X2_witness :
  transitTo watch_code 4 "mainState" [VNum 2] test_hooked = Returned None test_main ∧
  currentState (store (machine test_main)) = "mainState" ∧
  is_ (machine test_main) "mainState" = true ∧
  ∃ d, metadata (machine test_hooked) !! "mainState" = Some d ∧
       transitions (machine test_main) = Value (to d).
Proof.
  assert (transitTo watch_code 4 "mainState" [VNum 2] test_hooked
          = Returned None test_main) as Hrun by (vm_compute; reflexivity).
  split; [exact Hrun|].
  destruct (X2_queries_after_a_transition watch_code 4 "mainState" [VNum 2]
              test_hooked test_main Hrun) as (Hcur & His & _ & Hdeclared).
  split; [exact Hcur|]. split; [exact His|].
  destruct (Hdeclared ltac:(discriminate)) as (d & Hd & Hto & _).
  exists d. split; [exact Hd|exact Hto].
Defined.

Lemma X3_witness :
  new_StateMachine TestMachine TestMachine_opts
  = inr (machine_of TestMachine TestMachine_opts) ∧
  reachable watch_code test_new test_success ∧
  current_declared (machine test_success) ∧
  ∃ l, transitions (machine test_success) = Value l ∧
       ∀ name, can (machine test_success) name = Value (bool_decide (name ∈ l)).
Proof.
  split; [exact test_new_constructed|]. split; [exact test_success_reachable|].
  exact (X3_queries_never_throw watch_code TestMachine TestMachine_opts _ test_success
           test_new_constructed test_success_reachable).
Defined.

Lemma X4_witness :
  opt_initialTransitions TestMachine_opts ≠ [] ∧
  ∃ m, new_StateMachine TestMachine TestMachine_opts = inr m ∧
       currentState (store m) = "initial" ∧
       transitions m = Value ["mainState"].
Proof.
  assert (opt_initialTransitions TestMachine_opts ≠ []) as Hne by discriminate.
  split; [exact Hne|].
  destruct (proj2 (X4_constructor TestMachine TestMachine_opts) Hne)
    as (m & Hm & Hcur & _ & _ & _ & _ & _ & _ & Hto & _).
  exists m. split; [exact Hm|]. split; [exact Hcur|exact Hto].
Defined.

Lemma X5_witness :
  new_StateMachine TestMachine TestMachine_opts
  = inr (machine_of TestMachine TestMachine_opts) ∧
  reachable watch_code test_new test_success ∧
  ("toString" ∈ Object_prototype_keys) ∧
  (∃ msg, register Enter "toString" 0 test_success = Thrown (TypeError msg) test_success) ∧
  ("errorState" ∉ Object_prototype_keys) ∧
  ∃ w', register Leave "errorState" 0 test_success
        = Returned (Handle Leave "errorState" 0) w'.
Proof.
  assert ("toString" ∈ Object_prototype_keys) as Hkey
    by (refine (bool_decide_unpack _ _); vm_compute; exact I).
  assert ("errorState" ∉ Object_prototype_keys) as Hplain
    by (refine (bool_decide_unpack _ _); vm_compute; exact I).
  split; [exact test_new_constructed|]. split; [exact test_success_reachable|].
  split; [exact Hkey|]. split.
  - exact (proj1 (X5_registration watch_code TestMachine TestMachine_opts _ test_success
                    Enter "toString" 0 test_new_constructed test_success_reachable) Hkey).
  - split; [exact Hplain|].
    destruct (proj2 (X5_registration watch_code TestMachine TestMachine_opts _
                       test_success Leave "errorState" 0 test_new_constructed
                       test_success_reachable) Hplain) as (w' & Hrun & _).
    exists w'. exact Hrun.
Defined.

(** The handle of callback 0, called again, removes callback 1. *)
Lemma X6_witness :
  (0 ∉ registered (callbacks Enter stale_world) "mainState") ∧
  registered (callbacks Enter stale_world) "mainState" = [1] ∧
  ∃ w', drop_callback (Handle Enter "mainState" 0) stale_world = Returned tt w' ∧
        registered (callbacks Enter w') "mainState"
        = take (length (registered (callbacks Enter stale_world) "mainState") - 1)
            (registered (callbacks Enter stale_world) "mainState").
Proof.
  assert (0 ∉ registered (callbacks Enter stale_world) "mainState") as Hnot
    by (refine (bool_decide_unpack _ _); vm_compute; exact I).
  split; [exact Hnot|]. split; [vm_compute; reflexivity|].
  destruct (X6_stale_handle_removes_last Enter "mainState" 0 stale_world Hnot)
    as (w' & Hrun & Hreg & _).
  exists w'. split; [exact Hrun|exact Hreg].
Defined.

(** Callback 0 is an enter callback of [mainState] already. *)
Lemma X7_witness :
  ∃ h w1 w2,
    register Enter "mainState" 0 test_hooked = Returned h w1 ∧
    drop_callback h w1 = Returned tt w2 ∧
    registered (callbacks Enter test_hooked) "mainState" = [1] ++ 0 :: [] ∧
    registered (callbacks Enter w2) "mainState" = [1] ++ [] ++ [0].
Proof.
  assert (register Enter "mainState" 0 test_hooked
          = Returned (Handle Enter "mainState" 0)
              (run watch_code [OpOnEnter "mainState" 0] test_hooked)) as Hreg
    by (vm_compute; reflexivity).
  assert (registered (callbacks Enter test_hooked) "mainState" = [1] ++ 0 :: []) as Hold
    by (vm_compute; reflexivity).
  destruct (X7_register_then_remove Enter "mainState" 0 _ test_hooked _ Hreg)
    as (w2 & Hdrop & _ & Hmoved).
  eexists _, _, w2. split; [exact Hreg|]. split; [exact Hdrop|]. split; [exact Hold|].
  apply (Hmoved [1] [] Hold).
  refine (bool_decide_unpack _ _). vm_compute. exact I.
Defined.

(** The state [Loop] is its own parent. *)
Lemma X8_witness :
  rootless (metadata (machine cyclic_new)) (λ name, name = "Loop") ∧
  transitioning (machine cyclic_new) = false ∧
  can (machine cyclic_new) "Loop" = Value true ∧
  ∀ fuel, transitTo no_code fuel "Loop" [] cyclic_new = Diverges.
Proof.
  assert (rootless (metadata (machine cyclic_new)) (λ name, name = "Loop")) as Hroot.
  { intros name ->. split; [discriminate|]. exists (declare "Loop" []).
    split; [vm_compute; reflexivity|reflexivity]. }
  assert (transitioning (machine cyclic_new) = false) as Hflag by reflexivity.
  assert (truthy (member (machine cyclic_new) "Loop") = true) as Htruthy
    by (vm_compute; reflexivity).
  assert (can (machine cyclic_new) "Loop" = Value true) as Hcan
    by (vm_compute; reflexivity).
  split; [exact Hroot|]. split; [exact Hflag|]. split; [exact Hcan|].
  intros fuel.
  exact (X8_cyclic_parents_never_return no_code fuel "Loop" [] cyclic_new
           (λ name, name = "Loop") Hroot eq_refl Hflag Htruthy Hcan).
Defined.

(** The parent [Nowhere] of the state [Orphan] has no declaration. *)
Lemma X9_witness :
  dangling (metadata (machine undeclared_new)) "Orphan" ∧
  transitioning (machine undeclared_new) = false ∧
  can (machine undeclared_new) "Orphan" = Value true ∧
  ∃ n, ∀ fuel, (n ≤ fuel)%nat →
    transitTo no_code fuel "Orphan" [] undeclared_new
    = Thrown (TypeError "Cannot read properties of undefined")
        (set_flag true undeclared_new).
Proof.
  assert (dangling (metadata (machine undeclared_new)) "Orphan") as Hdangling.
  { apply (dangling_up _ "Orphan" (declare "Nowhere" []));
      [discriminate|vm_compute; reflexivity|].
    apply dangling_here; [discriminate|vm_compute; reflexivity]. }
  assert (transitioning (machine undeclared_new) = false) as Hflag by reflexivity.
  assert (truthy (member (machine undeclared_new) "Orphan") = true) as Htruthy
    by (vm_compute; reflexivity).
  assert (can (machine undeclared_new) "Orphan" = Value true) as Hcan
    by (vm_compute; reflexivity).
  split; [exact Hdangling|]. split; [exact Hflag|]. split; [exact Hcan|].
  exact (X9_missing_declaration_throws no_code "Orphan" [] undeclared_new
           Hdangling Hflag Htruthy Hcan).
Defined.

(** The traffic light has no state named [logging]. *)
Lemma X10_witness :
  "Blue" ≠ "logging" ∧
  metadata (machine traffic_new) !! "logging" = None ∧
  ∃ out',
    transitTo no_code 2 "Blue" [] (relog true ["earlier"] traffic_new)
    = map_world (relog true out') (transitTo no_code 2 "Blue" [] traffic_new).
Proof.
  assert ("Blue" ≠ "logging") as Htarget by discriminate.
  assert (metadata (machine traffic_new) !! "logging" = None) as Hnone
    by (vm_compute; reflexivity).
  split; [exact Htarget|]. split; [exact Hnone|].
  exact (proj1 (X10_logging_is_a_side_channel no_code 2 "Blue" [] ["earlier"] traffic_new)
           Htarget Hnone true).
Defined.

(** The target [logging]: [this['logging']] is the field [logging], so the
    first check fails with logging off and passes with logging on. *)
Example logging_is_read_as_a_state :
  transitTo no_code 2 "logging" [] traffic_new
  = Returned (Some StateNotRegistered) traffic_new ∧
  transitTo no_code 2 "logging" [] (relog true [] traffic_new)
  = Returned (Some InvalidTransition)
      (relog true [NEXT_STATE_RESTRICTED "initial" "logging"] traffic_new).
Proof. split; vm_compute; reflexivity. Qed.

(** [requestState] to [successState] on the test machine, whose state
    fields set only [text], [alert.text] and [alert.visible]. *)
Lemma X12_witness :
  read_only watch_code ∧
  isObject (opt_props TestMachine_opts) = true ∧
  map_Forall (λ _ o, covers (opt_props TestMachine_opts) o = true)
    (cls_fields TestMachine) ∧
  transitTo watch_code 4 "successState" [] test_request = Returned None test_success ∧
  lineage (cls_declarations TestMachine) "successState"
    ["mainState"; "doneState"; "successState"] ∧
  props (machine test_success)
  = overlaid (opt_props TestMachine_opts)
      (map (λ name, read (cls_fields TestMachine !! name))
         ["mainState"; "doneState"; "successState"]).
Proof.
  assert (isObject (opt_props TestMachine_opts) = true) as Hobj by reflexivity.
  assert (map_Forall (λ _ o, covers (opt_props TestMachine_opts) o = true)
            (cls_fields TestMachine)) as Hfields
    by (refine (bool_decide_unpack _ _); vm_compute; exact I).
  assert (transitTo watch_code 4 "successState" [] test_request
          = Returned None test_success) as Hrun by (vm_compute; reflexivity).
  assert (run_ops watch_code 4
            [OpOnLeave "initial" 0; OpOnEnter "mainState" 1; OpOnEnter "mainState" 0;
             OpTransitTo "mainState" [VNum 2]; OpTransitTo "requestState" []]
            (new_world (machine_of TestMachine TestMachine_opts))
          = Some test_request) as Hops by (vm_compute; reflexivity).
  split; [exact watch_code_read_only|]. split; [exact Hobj|]. split; [exact Hfields|].
  split; [exact Hrun|]. split; [exact successState_lineage|].
  exact (proj2 (X12_overlay_on_tidy_machines watch_code TestMachine TestMachine_opts _
                  4 4
                  [OpOnLeave "initial" 0; OpOnEnter "mainState" 1; OpOnEnter "mainState" 0;
                   OpTransitTo "mainState" [VNum 2]; OpTransitTo "requestState" []]
                  "successState" [] test_request test_success _
                  watch_code_read_only test_new_constructed Hobj Hfields eq_refl Hops
                  Hrun successState_lineage ltac:(discriminate))).
Defined.

(** The enter callback 2 of [mainState] throws: the machine is in
    [mainState] already. *)
Lemma X13_witness :
  read_only throwing_code ∧
  fixed_callbacks throwing_code ∧
  transitTo throwing_code 4 "mainState" [] throw_hooked
  = Thrown (UserError "boom") throw_thrown ∧
  currentState (store (machine throw_thrown)) = "mainState" ∧
  transitioning (machine throw_thrown) = true ∧
  ∃ n stateChain,
    make_chain n (machine throw_hooked) "mainState"
      (stateToApply_of (machine throw_hooked) "mainState") = Value stateChain ∧
    props (machine throw_thrown) =
      overlaid (merge (props (machine throw_hooked))
                  (initialState (store (machine throw_hooked)))) stateChain ∧
    machine throw_thrown =
      set_transitioning true
        (machine (advance "mainState" (apply_chain stateChain throw_hooked))).
Proof.
  assert (transitTo throwing_code 4 "mainState" [] throw_hooked
          = Thrown (UserError "boom") throw_thrown) as Hrun by (vm_compute; reflexivity).
  assert (currentState (store (machine throw_thrown)) = "mainState") as Hcur
    by (vm_compute; reflexivity).
  split; [exact throwing_code_read_only|]. split; [exact throwing_code_fixed|].
  split; [exact Hrun|]. split; [exact Hcur|].
  destruct (X13_exception_leaves_old_or_new_state throwing_code 4 "mainState" []
              _ throw_hooked throw_thrown throwing_code_read_only Hrun)
    as [(Hflag & _)|(_ & Hset & [(Hold & _)|(n & stateChain & Hchain & _ & Hprops & Hm)])].
  - discriminate Hflag.
  - rewrite Hcur in Hold. discriminate Hold.
  - split; [exact Hset|]. exists n, stateChain.
    split; [exact Hchain|]. split; [exact Hprops|exact (Hm throwing_code_fixed)].
Defined.

(** The leave callback 0 of the initial state and the enter callback 2 of
    [mainState] were called; the enter callback 0, after the one that
    throws, was not. *)
Lemma X14_witness :
  fixed_callbacks throwing_code ∧
  transitioning (machine throw_hooked) = false ∧
  final_world (transitTo throwing_code 4 "mainState" [] throw_hooked) = Some throw_thrown ∧
  registered (onEnterCbs (store (machine throw_hooked))) "mainState" = [2; 0] ∧
  length (calls throw_thrown) = 2 ∧
  ∃ leaves enters,
    calls throw_thrown = calls throw_hooked ++ leaves ++ enters ∧
    Forall2 (call_of Enter (VStr (currentState (store (machine throw_hooked))) :: [])
               "mainState")
      (take (length enters)
         (registered (onEnterCbs (store (machine throw_hooked))) "mainState"))
      enters.
Proof.
  assert (transitioning (machine throw_hooked) = false) as Hflag by reflexivity.
  assert (final_world (transitTo throwing_code 4 "mainState" [] throw_hooked)
          = Some throw_thrown) as Hrun by (vm_compute; reflexivity).
  split; [exact throwing_code_fixed|].
  split; [exact Hflag|]. split; [exact Hrun|].
  split; [vm_compute; reflexivity|]. split; [vm_compute; reflexivity|].
  destruct (X14_callbacks_called_are_a_prefix throwing_code 4 "mainState" []
              throw_hooked throw_thrown throwing_code_fixed Hflag Hrun)
    as (leaves & enters & Hcalls & _ & Henters & _).
  exists leaves, enters. split; [exact Hcalls|exact Henters].
Defined.

Lemma X15_witness :
  final_world (transitTo watch_code 4 "mainState" [VNum 2] test_hooked) = Some test_main ∧
  initialState_ref (store (machine test_hooked)) ≠ Some (props_ref (machine test_hooked)) ∧
  fixed_callbacks watch_code ∧
  metadata (machine test_main) = metadata (machine test_hooked) ∧
  initialState (store (machine test_main)) = initialState (store (machine test_hooked)) ∧
  onEnterCbs (store (machine test_main)) = onEnterCbs (store (machine test_hooked)).
Proof.
  assert (final_world (transitTo watch_code 4 "mainState" [VNum 2] test_hooked)
          = Some test_main) as Hrun by (vm_compute; reflexivity).
  assert (initialState_ref (store (machine test_hooked))
          ≠ Some (props_ref (machine test_hooked))) as Hsep by discriminate.
  split; [exact Hrun|]. split; [exact Hsep|]. split; [exact watch_code_fixed|].
  destruct (X15_transitTo_keeps_configuration watch_code 4 "mainState" [VNum 2]
              test_hooked test_main Hrun) as (_ & Hmeta & _ & _ & Hsnap & Hcbs).
  split; [exact Hmeta|]. split; [exact (Hsnap Hsep)|].
  exact (proj1 (Hcbs watch_code_fixed)).
Defined.

(** The callbacks of the test machine look at the machine, and one tries a
    transition. *)
Lemma X16_witness :
  transitioning (machine test_hooked) = false ∧
  can (machine test_hooked) "mainState" = Value true ∧
  lineage (metadata (machine test_hooked)) "mainState" ["mainState"] ∧
  ∃ n w', (∀ fuel, (n ≤ fuel)%nat →
             transitTo watch_code fuel "mainState" [VNum 2] test_hooked
             = Returned None w') ∧
          currentState (store (machine w')) = "mainState" ∧
          transitioning (machine w') = false.
Proof.
  assert (transitioning (machine test_hooked) = false) as Hflag by reflexivity.
  assert (isObject (props (machine test_hooked)) = true) as Hobj by reflexivity.
  assert (truthy (stateToApply_of (machine test_hooked) "mainState") = true) as Htruthy
    by (vm_compute; reflexivity).
  assert (can (machine test_hooked) "mainState" = Value true) as Hcan
    by (vm_compute; reflexivity).
  assert (lineage (metadata (machine test_hooked)) "mainState" ["mainState"]) as Hlineage
    by (apply (lineage_root _ "mainState" (declare "initial" ["requestState"]));
        [vm_compute; reflexivity|reflexivity]).
  assert (currentState (store (machine test_hooked)) ∉ Object_prototype_keys) as Hcur
    by (refine (bool_decide_unpack _ _); vm_compute; exact I).
  assert ("mainState" ∉ Object_prototype_keys) as Htarget
    by (refine (bool_decide_unpack _ _); vm_compute; exact I).
  assert (∀ cb, cb ∈ registered (onLeaveCbs (store (machine test_hooked)))
                       (currentState (store (machine test_hooked)))
                     ++ registered (onEnterCbs (store (machine test_hooked))) "mainState" →
                forallb quiet (watch_code cb) = true) as Hquiet
    by (intros [|[|cb]] _; reflexivity).
  split; [exact Hflag|]. split; [exact Hcan|]. split; [exact Hlineage|].
  exact (X16_transitTo_succeeds watch_code "mainState" [VNum 2] test_hooked
           Hflag Hobj Htruthy Hcan (or_intror (ex_intro _ _ Hlineage)) Hcur Htarget
           Hquiet).
Defined.

(** Class 1 has the states A and B, class 2 the state A, class 3 none. *)
Lemma X17_witness :
  (1 ∈ decl_target <$> two_classes) ∧
  defineStates _ [] list_addState two_classes ∅ !! 1
  = Some [("A", "initial"); ("B", "A")] ∧
  getState _ _ list_getState 1 "B" (defineStates _ [] list_addState two_classes ∅)
  = Value (Some "A") ∧
  (3 ∉ decl_target <$> two_classes) ∧
  getState _ _ list_getState 3 "A" (defineStates _ [] list_addState two_classes ∅)
  = Raises (TypeError "Cannot read properties of undefined").
Proof.
  assert (1 ∈ decl_target <$> two_classes) as Hin
    by (refine (bool_decide_unpack _ _); vm_compute; exact I).
  assert (3 ∉ decl_target <$> two_classes) as Hout
    by (refine (bool_decide_unpack _ _); vm_compute; exact I).
  destruct (proj1 (X17_states_are_kept_by_machine_type _ [] list_addState _
                     list_getState two_classes 1 "B") Hin) as [Hstore Hget].
  destruct (proj2 (X17_states_are_kept_by_machine_type _ [] list_addState _
                     list_getState two_classes 3 "A") Hout) as [_ Hnone].
  split; [exact Hin|]. split; [exact Hstore|]. split; [exact Hget|].
  split; [exact Hout|exact Hnone].
Defined.


(** "must be able to transit to correct state after incorrect state
    attempt". *)
Lemma X19_witness :
  ∃ w', transitTo watch_code 4 "mainState" [] test_request
        = Returned (Some InvalidTransition) w' ∧
        ∃ out', transitTo watch_code 4 "successState" [] w'
                = map_world (relog (logging (machine test_request)) out')
                    (transitTo watch_code 4 "successState" [] test_request).
Proof.
  assert (transitTo watch_code 4 "mainState" [] test_request
          = Returned (Some InvalidTransition) test_request) as Hrun
    by (vm_compute; reflexivity).
  exists test_request. split; [exact Hrun|].
  exact (X19_failed_call_is_invisible watch_code 4 "mainState" [] _ test_request _
           Hrun 4 "successState" []).
Defined.

Lemma X20_witness :
  lineage (metadata (machine test_request)) "successState"
    ["mainState"; "doneState"; "successState"] ∧
  ∃ n, ∀ fuel, (n ≤ fuel)%nat →
    transitTo test_code fuel "successState" [] test_request ≠ Diverges.
Proof.
  assert (lineage (metadata (machine test_request)) "successState"
            ["mainState"; "doneState"; "successState"]) as Hlineage
    by exact successState_lineage.
  split; [exact Hlineage|].
  exact (X20_transitTo_ends test_code "successState" [] test_request
           (or_intror (or_introl (ex_intro _ _ Hlineage)))).
Defined.

(** The leave callback 0 of the initial state, then the enter callbacks 1
    and 0 of [mainState]. *)
Lemma X21_witness :
  fixed_callbacks watch_code ∧
  read_only watch_code ∧
  transitTo watch_code 4 "mainState" [VNum 2] test_hooked = Returned None test_main ∧
  calls test_main = calls test_hooked ++
    map (λ cb, {| inv_phase := Leave; inv_cb := cb;
                  inv_args := [VStr "mainState"];
                  inv_props := props (machine test_hooked);
                  inv_state := currentState (store (machine test_hooked));
                  inv_transitioning := true |})
      (registered (onLeaveCbs (store (machine test_hooked)))
         (currentState (store (machine test_hooked)))) ++
    map (λ cb, {| inv_phase := Enter; inv_cb := cb;
                  inv_args := VStr (currentState (store (machine test_hooked))) :: [VNum 2];
                  inv_props := props (machine test_main);
                  inv_state := "mainState";
                  inv_transitioning := true |})
      (registered (onEnterCbs (store (machine test_hooked))) "mainState").
Proof.
  assert (read_only watch_code) as Hro by exact watch_code_read_only.
  assert (transitTo watch_code 4 "mainState" [VNum 2] test_hooked
          = Returned None test_main) as Hrun by (vm_compute; reflexivity).
  split; [exact watch_code_fixed|]. split; [exact Hro|]. split; [exact Hrun|].
  exact (proj1 (proj2 (X21_callbacks_run_in_order watch_code 4 "mainState" [VNum 2]
                         test_hooked test_main watch_code_fixed Hrun)) Hro).
Defined.

(** The state [valueOf] is entered as far as the bag and the current state
    go, and then the lookup of its enter callbacks throws. *)
Example shadowed_state_throws :
  transitTo no_code 4 "valueOf" [] shadowed_new
  = Thrown (TypeError "this.onEnterCbs[stateName].forEach is not a function")
      shadowed_thrown ∧
  currentState (store (machine shadowed_thrown)) = "valueOf" ∧
  transitioning (machine shadowed_thrown) = true.
Proof. split_and!; vm_compute; reflexivity. Qed.

